(** * my_bot_name: configuration resolution, HTTP error mapping and the
      cloud connectors, embedded from the Python sources.

    Definitions:
    - [Py]        : exceptions and outcomes, strings, [posixpath] and the
                    local file system;
    - [Config]    : [my_bot_name/__init__.py] ([_get_config_dict], [_get_env],
                    [_deep_merge]) on the values of a YAML document;
    - [Store]     : [_deep_merge] again, on a store of objects reached by
                    reference;
    - [App]       : [my_bot_name/app.py] (the 418 handler);
    - [Connectors]: [connectors/gcp/bigquery.py] and
                    [connectors/gcp/storage.py], over the client libraries
                    taken as parameters.
    Properties follow, module by module. *)

From Stdlib Require Import Ascii String ZArith QArith.
From stdpp Require Import base strings list gmap pretty.

Set Warnings "-register-all".

Local Open Scope string_scope.
Local Open Scope list_scope.
Local Open Scope Z_scope.

(** ** Python runtime notions shared by all modules *)

Module Py.

(** Exceptions that the modelled code raises, catches or lets through.
    [NotFound] is [google.api_core.exceptions.NotFound] (the class the two
    connectors import, one through [google.cloud.exceptions]).
    [OtherException] stands for any other subclass of [Exception],
    [BaseOnly] for a [BaseException] that is not an [Exception]
    (KeyboardInterrupt and the like), which [except Exception] lets pass.
    Where a constructor has a message, the message is [str(e)]. *)
Inductive exn : Type :=
| NameError (name : string)
| AttributeError (msg : string)
| ValueError (msg : string)
| FileNotFoundError (msg : string)
| FileExistsError (msg : string)
| IsADirectoryError (msg : string)
| NotADirectoryError (msg : string)
| TypeError (msg : string)
| NotFound (msg : string)
| SystemExit (code : Z)
| OtherException (cls msg : string)
| BaseOnly (cls : string).

#[global] Instance exn_eq_dec : EqDecision exn.
Proof. solve_decision. Defined.

Inductive outcome (A : Type) : Type :=
| Ok (a : A)
| Raise (e : exn).
Arguments Ok {A} a.
Arguments Raise {A} e.

#[global] Instance outcome_ret : MRet outcome := λ A a, Ok a.
#[global] Instance outcome_bind : MBind outcome := λ A B k r,
  match r with
  | Ok a => k a
  | Raise e => Raise e
  end.

Definition is_ok {A} (r : outcome A) : bool :=
  match r with Ok _ => true | Raise _ => false end.

(** [isinstance(e, NotFound)] *)
Definition is_NotFound (e : exn) : bool :=
  match e with NotFound _ => true | _ => false end.

(** [isinstance(e, Exception)]: everything but [BaseOnly] and [SystemExit]. *)
Definition is_Exception (e : exn) : bool :=
  match e with
  | BaseOnly _ | SystemExit _ => false
  | _ => true
  end.

(** [str(e)] *)
Definition exn_str (e : exn) : string :=
  match e with
  | NameError n => "name '" +:+ n +:+ "' is not defined"
  | AttributeError m | ValueError m | FileNotFoundError m
  | FileExistsError m | IsADirectoryError m | NotADirectoryError m
  | TypeError m | NotFound m | OtherException _ m => m
  | SystemExit c => pretty c
  | BaseOnly _ => ""
  end.

(** *** Strings *)

(** [s.startswith(p)] and [s.endswith(p)] *)
Definition startswith (s p : string) : bool := String.prefix p s.

Definition endswith (s p : string) : bool :=
  String.prefix (String.rev p) (String.rev s).

(** [s.split(sep)] for a one-character separator: never empty. *)
Fixpoint split_on (sep : ascii) (s : string) : list string :=
  match s with
  | EmptyString => [""]
  | String c s' =>
      if Ascii.eqb c sep then "" :: split_on sep s'
      else match split_on sep s' with
           | w :: ws => String c w :: ws
           | [] => [String c ""]
           end
  end.

(** [s.lstrip("/")] *)
Fixpoint lstrip_slash (s : string) : string :=
  match s with
  | String "/" s' => lstrip_slash s'
  | _ => s
  end.

(** [s.rstrip("/")] *)
Definition rstrip_slash (s : string) : string :=
  String.rev (lstrip_slash (String.rev s)).

(** A string holds the bytes of its UTF-8 encoding; the bytes [10xxxxxx]
    continue the character that the byte before them began. *)
Definition is_continuation (c : ascii) : bool :=
  (128 <=? nat_of_ascii c)%nat && (nat_of_ascii c <? 192)%nat.

(** [s[:n]]: the first [n] characters. *)
Fixpoint str_take (n : nat) (s : string) : string :=
  match s with
  | EmptyString => EmptyString
  | String c s' =>
      if is_continuation c then String c (str_take n s')
      else match n with
           | O => EmptyString
           | S n' => String c (str_take n' s')
           end
  end.

(** [repr(s)] of a [str]: between single quotes, or double quotes when
    [s] has a single quote and no double quote; the backslash, the quote
    in use and the control characters are escaped (characters beyond ASCII
    are taken to be printable). *)
Definition double_quote : ascii := "034".

Fixpoint has_char (c : ascii) (s : string) : bool :=
  match s with
  | EmptyString => false
  | String c' s' => Ascii.eqb c c' || has_char c s'
  end.

Definition hex_digit (n : nat) : ascii :=
  nth n ["0"; "1"; "2"; "3"; "4"; "5"; "6"; "7"; "8"; "9";
         "a"; "b"; "c"; "d"; "e"; "f"]%char "0"%char.

Definition repr_char (quote c : ascii) : string :=
  let n := nat_of_ascii c in
  if Ascii.eqb c "\" then "\\"
  else if Ascii.eqb c quote then String "\" (String c "")
  else if (n =? 10)%nat then "\n"
  else if (n =? 13)%nat then "\r"
  else if (n =? 9)%nat then "\t"
  else if (n <? 32)%nat || (n =? 127)%nat then
    "\x" +:+ String (hex_digit (n / 16)) (String (hex_digit (n mod 16)) "")
  else String c "".

Fixpoint repr_chars (quote : ascii) (s : string) : string :=
  match s with
  | EmptyString => EmptyString
  | String c s' => repr_char quote c +:+ repr_chars quote s'
  end.

Definition repr (s : string) : string :=
  let quote : ascii :=
    if has_char "'" s && negb (has_char double_quote s) then double_quote
    else "'"%char in
  String quote (repr_chars quote s +:+ String quote "").

(** [str(e)] of the [OSError] that a failed system call on [filename]
    raises, and the four errors of the calls modelled below. *)
Definition os_error (errno : Z) (strerror filename : string) : string :=
  "[Errno " +:+ pretty errno +:+ "] " +:+ strerror +:+ ": " +:+ repr filename.

Definition ENOENT (filename : string) : exn :=
  FileNotFoundError (os_error 2 "No such file or directory" filename).
Definition EEXIST (filename : string) : exn :=
  FileExistsError (os_error 17 "File exists" filename).
Definition ENOTDIR (filename : string) : exn :=
  NotADirectoryError (os_error 20 "Not a directory" filename).
Definition EISDIR (filename : string) : exn :=
  IsADirectoryError (os_error 21 "Is a directory" filename).

(** *** posixpath *)

Definition nonempty (s : string) : bool := negb (String.eqb s "").

(** [os.path.join(a, b)] *)
Definition path_join (a b : string) : string :=
  if startswith b "/" then b
  else if String.eqb a "" || endswith a "/" then a +:+ b
  else a +:+ "/" +:+ b.

(** [os.path.join(a, *p)] *)
Definition path_join_all (a : string) (p : list string) : string :=
  fold_left path_join p a.

(** The loop of [os.path.normpath]: empty and "." components are dropped,
    ".." pops a component unless there is none to pop (kept on a relative
    path, dropped at the root) or the last one kept is "..". The components
    kept so far are held in reverse. *)
Fixpoint norm_comps (rooted : bool) (rev_kept : list string)
  (comps : list string) : list string :=
  match comps with
  | [] => rev rev_kept
  | comp :: rest =>
      if String.eqb comp "" || String.eqb comp "." then
        norm_comps rooted rev_kept rest
      else if String.eqb comp ".." then
        match rev_kept with
        | [] => if rooted then norm_comps rooted [] rest
                else norm_comps rooted [comp] rest
        | last :: kept' =>
            if String.eqb last ".." then norm_comps rooted (comp :: rev_kept) rest
            else norm_comps rooted kept' rest
        end
      else norm_comps rooted (comp :: rev_kept) rest
  end.

(** [os.path.normpath(path)]; exactly two leading slashes are kept. *)
Definition normpath (path : string) : string :=
  if String.eqb path "" then "."
  else
    let initial_slashes : nat :=
      if startswith path "/" then
        if startswith path "//" && negb (startswith path "///") then 2%nat
        else 1%nat
      else 0%nat in
    let comps :=
      norm_comps (negb (Nat.eqb initial_slashes 0)) [] (split_on "/" path) in
    let path' :=
      match initial_slashes with
      | O => String.concat "/" comps
      | 1%nat => "/" +:+ String.concat "/" comps
      | _ => "//" +:+ String.concat "/" comps
      end in
    if String.eqb path' "" then "." else path'.

(** [os.path.abspath(path)] in a process whose working directory is [cwd]. *)
Definition abspath (cwd path : string) : string :=
  if startswith path "/" then normpath path
  else normpath (path_join cwd path).

(** [[x for x in s.split("/") if x]] *)
Definition path_parts (s : string) : list string :=
  filter (λ x, nonempty x = true) (split_on "/" s).

(** [len(commonprefix([a, b]))] on two lists of components. *)
Fixpoint common_len (a b : list string) : nat :=
  match a, b with
  | x :: a', y :: b' => if String.eqb x y then S (common_len a' b') else O
  | _, _ => O
  end.

(** [os.path.relpath(path, start)] *)
Definition relpath (cwd path start : string) : outcome string :=
  if String.eqb path "" then Raise (ValueError "no path specified")
  else
    let start_list := path_parts (abspath cwd start) in
    let path_list := path_parts (abspath cwd path) in
    let i := common_len start_list path_list in
    let rel_list :=
      (replicate (List.length start_list - i)%nat ".." ++ drop i path_list)%list in
    match rel_list with
    | [] => Ok "."
    | a :: p => Ok (path_join_all a p)
    end.

(** Everything up to and including the last "/" of [p] ([p[:p.rfind("/")+1]]),
    computed on the reversed string. *)
Fixpoint drop_to_slash (r : string) : string :=
  match r with
  | EmptyString => EmptyString
  | String c r' => if Ascii.eqb c "/" then r else drop_to_slash r'
  end.

(** [os.path.dirname(p)] *)
Definition dirname (p : string) : string :=
  let head := String.rev (drop_to_slash (String.rev p)) in
  if nonempty head && nonempty (lstrip_slash head) then rstrip_slash head
  else head.

(** *** The local file system

    POSIX, without symbolic links.  A location is the list of names from the
    root; the root is always a directory.  Resolving a path walks its
    components from the root (absolute path) or from the working directory:
    a name steps down, ".." steps up, "" and "." stay; every location the
    walk steps through must be a directory. *)

Inductive node : Type :=
| File (content : string)
| Dir.

Record filesystem : Type := {
  fs_cwd : string;
  fs_tree : gmap (list string) node
}.

Definition fs_with (fs : filesystem) (t : gmap (list string) node)
  : filesystem :=
  {| fs_cwd := fs_cwd fs; fs_tree := t |}.

Definition node_at (t : gmap (list string) node) (loc : list string)
  : option node :=
  match loc with
  | [] => Some Dir
  | _ => t !! loc
  end.

Definition step (cur : list string) (c : string) : list string :=
  if String.eqb c ".." then removelast cur else (cur ++ [c])%list.

(** The locations a walk steps into, in order. *)
Fixpoint trail (cur : list string) (comps : list string)
  : list (list string) :=
  match comps with
  | [] => []
  | c :: rest =>
      if String.eqb c "" || String.eqb c "." then trail cur rest
      else step cur c :: trail (step cur c) rest
  end.

Definition start_of (fs : filesystem) (path : string) : list string :=
  if startswith path "/" then [] else path_parts (fs_cwd fs).

Definition visited (fs : filesystem) (path : string) : list (list string) :=
  trail (start_of fs path) (split_on "/" path).

(** Where [path] leads. *)
Definition locate (fs : filesystem) (path : string) : list string :=
  List.last (visited fs path) (start_of fs path).

(** The path ends in "/", "." or "..": it can only name a directory. *)
Definition names_dir (path : string) : bool :=
  let c := List.last (split_on "/" path) "" in
  String.eqb c "" || String.eqb c "." || String.eqb c "..".

(** Every location of [locs] is a directory (ENOENT or ENOTDIR otherwise). *)
Fixpoint check_dirs (t : gmap (list string) node) (path : string)
  (locs : list (list string)) : outcome unit :=
  match locs with
  | [] => Ok ()
  | l :: rest =>
      match node_at t l with
      | Some Dir => check_dirs t path rest
      | Some (File _) => Raise (ENOTDIR path)
      | None => Raise (ENOENT path)
      end
  end.

(** [open(path).read()] *)
Definition read_file (path : string) (fs : filesystem) : outcome string :=
  if String.eqb path "" then Raise (ENOENT path)
  else
    let vs := visited fs path in
    _ ← check_dirs (fs_tree fs) path (start_of fs path :: removelast vs);
    match node_at (fs_tree fs) (locate fs path) with
    | Some Dir => Raise (EISDIR path)
    | Some (File c) =>
        if names_dir path then Raise (ENOTDIR path) else Ok c
    | None => Raise (ENOENT path)
    end.

(** The last name of [path] is an ordinary one (neither "." nor "..", and
    there is one) and slashes follow it: a path that asks for a directory
    by that name.  Opening it to create a file is refused (EISDIR) once
    the directories before the name are found. *)
Definition asks_for_directory (path : string) : bool :=
  let comps := split_on "/" path in
  let name := List.last (List.filter nonempty comps) "" in
  String.eqb (List.last comps "") ""
  && nonempty name
  && negb (String.eqb name "." || String.eqb name "..").

(** [with open(path, "wb") as f: f.write(content)] *)
Definition write_file (path content : string) (fs : filesystem)
  : outcome filesystem :=
  if String.eqb path "" then Raise (ENOENT path)
  else
    let vs := visited fs path in
    _ ← check_dirs (fs_tree fs) path (start_of fs path :: removelast vs);
    if asks_for_directory path then Raise (EISDIR path)
    else
      match node_at (fs_tree fs) (locate fs path) with
      | Some Dir => Raise (EISDIR path)
      | Some (File _) =>
          if names_dir path then Raise (ENOTDIR path)
          else Ok (fs_with fs (<[locate fs path := File content]> (fs_tree fs)))
      | None =>
          if names_dir path then Raise (ENOENT path)
          else Ok (fs_with fs (<[locate fs path := File content]> (fs_tree fs)))
      end.

(** The directories of [vs], made in order where they are missing, up to
    the first location that a file holds. *)
Fixpoint mkdirs_made (t : gmap (list string) node)
  (vs : list (list string)) : gmap (list string) node :=
  match vs with
  | [] => t
  | l :: rest =>
      match node_at t l with
      | Some Dir => mkdirs_made t rest
      | Some (File _) => t
      | None => mkdirs_made (<[l := Dir]> t) rest
      end
  end.

Definition is_file (n : option node) : bool :=
  match n with Some (File _) => true | _ => false end.

Definition is_missing (n : option node) : bool :=
  match n with None => true | _ => false end.

(** The error of [os.makedirs(path, exist_ok=True)], if any: the walk has
    come to [cur] through the components [seen] and steps on.  A name
    that is missing is made, and [made] says that one has been.  A name
    that a file holds is stepped on: its [mkdir] fails with EEXIST, which
    is the error of the call when the path ends there.  A step from a
    file is refused (ENOTDIR); the error names the path up to that step,
    which is the whole path when only slashes follow.  There is one
    exception: once a directory has been made, the caller of the failed
    [mkdir] has caught its EEXIST, and a component "." ends that caller
    without a [mkdir]; [skipped] says that the walk stands on a file
    after such a step, and a path that ends there raises nothing. *)
Fixpoint refused_step (t : gmap (list string) node) (path : string)
  (cur : list string) (seen comps : list string) (made skipped : bool)
  : option exn :=
  match comps with
  | [] =>
      if is_file (node_at t cur) && negb skipped then Some (EEXIST path)
      else None
  | c :: rest =>
      if String.eqb c "" then
        refused_step t path cur (seen ++ [c]) rest made skipped
      else if is_file (node_at t cur) then
        if String.eqb c "." && made then
          refused_step t path cur (seen ++ [c]) rest made true
        else
          Some (ENOTDIR (if forallb (λ x, String.eqb x "") rest then path
                         else String.concat "/" (seen ++ [c])))
      else
        let next := if String.eqb c "." then cur else step cur c in
        refused_step t path next (seen ++ [c]) rest
          (made || is_missing (node_at t next)) false
  end.

Definition makedirs_error (fs : filesystem) (path : string) : option exn :=
  refused_step (fs_tree fs) path (start_of fs path) [] (split_on "/" path)
    false false.

(** The file system that [os.makedirs(path, exist_ok=True)] leaves,
    whether it returns or raises. *)
Definition makedirs_made (path : string) (fs : filesystem) : filesystem :=
  if String.eqb path "" then fs
  else
    match check_dirs (fs_tree fs) path [start_of fs path] with
    | Ok _ => fs_with fs (mkdirs_made (fs_tree fs) (visited fs path))
    | Raise _ => fs
    end.

(** [os.makedirs(path, exist_ok=True)]: the error of the walk, if there
    is one; otherwise the missing directories along [path] have been
    made. *)
Definition makedirs (path : string) (fs : filesystem) : outcome filesystem :=
  if String.eqb path "" then Raise (ENOENT path)
  else
    _ ← check_dirs (fs_tree fs) path [start_of fs path];
    match makedirs_error fs path with
    | Some e => Raise e
    | None => Ok (fs_with fs (mkdirs_made (fs_tree fs) (visited fs path)))
    end.

End Py.
Export Py.

(** ** Configuration resolution: my_bot_name/__init__.py *)

Module Config.

(** What [yaml.load(..., Loader=yaml.SafeLoader)] can produce: the scalars
    ([None], [bool], [int], [float], [str], [bytes] for [!!binary],
    [datetime.date] and [datetime.datetime] for timestamps, kept as their
    ISO text), sequences ([list]), sets ([!!set]), the pairs of [!!omap]
    and [!!pairs] ([tuple]) and mappings.  A mapping is a Python [dict]: an
    association list in insertion order with unique keys ([dict_set] keeps
    both); its keys are taken to be strings. *)
Inductive value : Type :=
| VNone
| VBool (b : bool)
| VInt (n : Z)
| VFloat (q : Q)
| VStr (s : string)
| VBytes (b : string)
| VDate (iso : string)
| VDateTime (iso : string)
| VList (l : list value)
| VTuple (l : list value)
| VSet (l : list value)
| VDict (d : list (string * value)).

Abbreviation dict := (list (string * value)).

(** [bool(v)], as used by [configmap if configmap else {}]. *)
Definition truthy (v : value) : bool :=
  match v with
  | VNone => false
  | VBool b => b
  | VInt n => negb (n =? 0)
  | VFloat q => negb (Qeq_bool q 0)
  | VStr s | VBytes s => negb (String.eqb s "")
  | VDate _ | VDateTime _ => true
  | VList l | VTuple l | VSet l => match l with [] => false | _ => true end
  | VDict d => match d with [] => false | _ => true end
  end.

(** The name of the type of [v], as error messages give it. *)
Definition tp_name (v : value) : string :=
  match v with
  | VNone => "NoneType"
  | VBool _ => "bool"
  | VInt _ => "int"
  | VFloat _ => "float"
  | VStr _ => "str"
  | VBytes _ => "bytes"
  | VDate _ => "datetime.date"
  | VDateTime _ => "datetime.datetime"
  | VList _ => "list"
  | VTuple _ => "tuple"
  | VSet _ => "set"
  | VDict _ => "dict"
  end.

(** The [AttributeError] of [v.name] for a method that [v] lacks. *)
Definition no_attribute (v : value) (name : string) : exn :=
  AttributeError ("'" +:+ tp_name v +:+ "' object has no attribute '"
                  +:+ name +:+ "'").

(** [key in l] for a list or a set [l] and a string [key]: a string
    equals no value of another type. *)
Definition has_str (key : string) (l : list value) : bool :=
  existsb (λ x, match x with VStr s => String.eqb key s | _ => false end) l.

(** [isinstance(v, dict)] *)
Definition is_dict (v : value) : bool :=
  match v with VDict _ => true | _ => false end.

(** [d.get(k)]: the value bound to [k], if any. *)
Fixpoint dict_get (k : string) (d : dict) : option value :=
  match d with
  | [] => None
  | (k', v) :: d' => if String.eqb k k' then Some v else dict_get k d'
  end.

(** [k in d] *)
Definition dict_has (k : string) (d : dict) : bool :=
  match dict_get k d with Some _ => true | None => false end.

(** [d[k] = v]: overwrite in place when [k] is bound, append otherwise. *)
Fixpoint dict_set (k : string) (v : value) (d : dict) : dict :=
  match d with
  | [] => [(k, v)]
  | (k', v') :: d' =>
      if String.eqb k k' then (k, v) :: d' else (k', v') :: dict_set k v d'
  end.

(** Names bound in the module namespace of [my_bot_name/__init__.py] when
    its body has run: the imports, the constants, the functions and the two
    final assignments. *)
Definition module_names : list string :=
  [ "datetime"; "logging"; "os"; "sys"; "ArgumentParser"; "wraps"; "Path";
    "Callable"; "yaml"; "PACKAGE_LOCATION"; "ROOT_LOCATION";
    "RESOURCES_LOCATION"; "CONFIG_LOCATION"; "LOGGER_NAME"; "LOGGING_FORMAT";
    "_init_logger"; "logger"; "log"; "_get_config_dict"; "_get_env";
    "_deep_merge"; "environment"; "config" ].

(** Evaluating a free name inside a function of the module: the module
    namespace first; a name that is not there (and is no builtin: none of
    the names used here is) raises [NameError]. *)
Definition name_bound (name : string) : bool :=
  bool_decide (name ∈ module_names).

(** The body of [_deep_merge(dict1, dict2)], lines 101-107.

    [resolves] says whether the free name [deep_merge] of line 104 is bound
    (to this same function) when the line runs; [dict1.copy()] is the
    identity on values (sharing is the subject of [Store] below) and is
    there for a dict, a list and a set; [.copy()] on any other value and
    [dict2.items()] on a non-dict raise [AttributeError].  On a copy that
    is a list or a set, the first turn of the loop raises [TypeError]:
    line 103 subscripts it when [key in result] holds, line 106 assigns
    to it otherwise. *)
Fixpoint merge_body (resolves : bool) (dict1 dict2 : value) {struct dict2}
  : outcome value :=
  match dict1, dict2 with
  | VDict d1, VDict d2 =>
      (fix items (result : dict) (its : dict) {struct its} : outcome value :=
         match its with
         | [] => Ok (VDict result)
         | (key, value) :: rest =>
             match dict_get key result, value with
             | Some (VDict a), VDict _ =>
                 if resolves then
                   m ← merge_body resolves (VDict a) value;
                   items (dict_set key m result) rest
                 else Raise (NameError "deep_merge")
             | _, _ => items (dict_set key value result) rest
             end
         end) d1 d2
  | VList l, VDict d2 =>
      match d2 with
      | [] => Ok (VList l)
      | _ :: _ => Raise (TypeError "list indices must be integers or slices, not str")
      end
  | VSet s, VDict d2 =>
      match d2 with
      | [] => Ok (VSet s)
      | (key, _) :: _ =>
          if has_str key s then
            Raise (TypeError "'set' object is not subscriptable")
          else
            Raise (TypeError "'set' object does not support item assignment")
      end
  | VDict _, _ | VList _, _ | VSet _, _ => Raise (no_attribute dict2 "items")
  | _, _ => Raise (no_attribute dict1 "copy")
  end.

(** [_deep_merge] as the module defines it: line 104 calls [deep_merge],
    looked up in the module namespace when the line runs. *)
Definition _deep_merge (dict1 dict2 : value) : outcome value :=
  merge_body (name_bound "deep_merge") dict1 dict2.

(** The function of the docstring ("recursively merge dictionaries"): the
    same body with the callee of line 104 bound to the function itself. *)
Definition deep_merge_recursive (dict1 dict2 : value) : outcome value :=
  merge_body true dict1 dict2.

(** The loop of [merge_body] on its own: [result] is the copy being
    filled, [its] the items of [dict2] still to come. *)
Fixpoint merge_items (resolves : bool) (result its : dict) : outcome value :=
  match its with
  | [] => Ok (VDict result)
  | (key, value) :: rest =>
      match dict_get key result, value with
      | Some (VDict a), VDict _ =>
          if resolves then
            m ← merge_body resolves (VDict a) value;
            merge_items resolves (dict_set key m result) rest
          else Raise (NameError "deep_merge")
      | _, _ => merge_items resolves (dict_set key value result) rest
      end
  end.

(** The keys of a dict. *)
Definition keys (d : dict) : list string := d.*1.

(** The number of constructors of a value. *)
Fixpoint vsize (v : value) : nat :=
  match v with
  | VList l => S ((fix go (l : list value) : nat :=
                     match l with
                     | [] => O
                     | x :: l' => (vsize x + go l')%nat
                     end) l)
  | VDict d => S ((fix go (d : dict) : nat :=
                     match d with
                     | [] => O
                     | (_, x) :: d' => (vsize x + go d')%nat
                     end) d)
  | _ => 1%nat
  end.

(** The two configuration documents of the failing run of [_deep_merge]:
    both give the section [api_config] as a mapping. *)
Definition base_document : value :=
  VDict [("api_config", VDict [("host", VStr "0.0.0.0"); ("port", VInt 8000)])].

Definition override_document : value :=
  VDict [("api_config", VDict [("port", VInt 8080)])].

(** *** [_get_config_dict]

    [package_location] is [os.path.dirname(__file__)] of the package;
    [yaml_load] is PyYAML's [yaml.load(f, Loader=yaml.SafeLoader)] on the
    text of a file: the parsed document ([VNone] for an empty one) or the
    parser's error. *)

Definition CONFIG_LOCATION (package_location : string) : string :=
  path_join (path_join package_location "resources") "config".

Definition _get_config_dict (package_location : string)
  (yaml_load : string → outcome value) (fs : filesystem) (env : string)
  : outcome value :=
  f ← read_file (path_join (CONFIG_LOCATION package_location) (env +:+ ".yml")) fs;
  configmap ← yaml_load f;
  Ok (if truthy configmap then configmap else VDict []).

(** *** [_get_env]: [argparse] on [sys.argv[1:]]

    The parser has two optionals: the [-h/--help] that [ArgumentParser()]
    adds and [-e/--environment] ([store], one argument).  What follows
    models [ArgumentParser.parse_known_args] of CPython 3.11 for this
    parser, on ASCII arguments. *)

Inductive opt_action : Type := Help | Env.

(** How [_parse_optional] reads one argument: a positional-looking string
    ('A'), the "--" separator, an option string with its action (none when
    unknown) and explicit argument, or an ambiguous abbreviation. *)
Inductive token_class : Type :=
| Arg
| DoubleDash
| Opt (a : option opt_action) (explicit : option string)
| Ambiguous.

(** [s.split("=", 1)] when "=" occurs in [s]. *)
Fixpoint cut_eq (s : string) : option (string * string) :=
  match s with
  | EmptyString => None
  | String c s' =>
      if Ascii.eqb c "=" then Some ("", s')
      else match cut_eq s' with
           | Some (a, b) => Some (String c a, b)
           | None => None
           end
  end.

Definition is_digit (c : ascii) : bool :=
  match Ascii.is_nat c with Some _ => true | None => false end.

Fixpoint all_digits (s : string) : bool :=
  match s with
  | EmptyString => true
  | String c s' => is_digit c && all_digits s'
  end.

Fixpoint drop_digits (s : string) : string :=
  match s with
  | String c s' => if is_digit c then drop_digits s' else s
  | EmptyString => s
  end.

(** The parser's [_negative_number_matcher], ['^-\d+$|^-\d*\.\d+$']
    ([$] also matches before a final newline). *)
Definition negative_number (s : string) : bool :=
  let body (r : string) : bool :=
    (nonempty r && all_digits r)
    || match drop_digits r with
       | String "." f => nonempty f && all_digits f
       | _ => false
       end in
  match s with
  | String "-" r =>
      body r
      || (endswith r (String "010" "")
          && body (str_take (String.length r - 1) r))
  | _ => false
  end.

Fixpoint has_space (s : string) : bool :=
  match s with
  | EmptyString => false
  | String c s' => Ascii.eqb c " " || has_space s'
  end.

Definition option_of (os : string) : option opt_action :=
  if String.eqb os "-h" || String.eqb os "--help" then Some Help
  else if String.eqb os "-e" || String.eqb os "--environment" then Some Env
  else None.

(** [_get_option_tuples]: abbreviations of the long options and
    single-dash options with their argument attached. *)
Definition option_tuples (t : string) : list (opt_action * option string) :=
  if startswith t "--" then
    let '(option_prefix, explicit) :=
      match cut_eq t with
      | Some (a, b) => (a, Some b)
      | None => (t, None)
      end in
    (if startswith "--help" option_prefix then [(Help, explicit)] else [])
    ++ (if startswith "--environment" option_prefix then [(Env, explicit)]
        else [])
  else
    let short_option_prefix := str_take 2 t in
    let short_explicit_arg := substring 2 (String.length t - 2) t in
    (if String.eqb short_option_prefix "-h" then [(Help, Some short_explicit_arg)]
     else [])
    ++ (if String.eqb short_option_prefix "-e" then [(Env, Some short_explicit_arg)]
        else []).

(** [_parse_optional] *)
Definition classify (t : string) : token_class :=
  if negb (startswith t "-") then Arg
  else match option_of t with
  | Some a => Opt (Some a) None
  | None =>
    if String.eqb t "-" then Arg
    else
      match match cut_eq t with
            | Some (os, ea) =>
                match option_of os with
                | Some a => Some (a, ea)
                | None => None
                end
            | None => None
            end with
      | Some (a, ea) => Opt (Some a) (Some ea)
      | None =>
          match option_tuples t with
          | _ :: _ :: _ => Ambiguous
          | [(a, ea)] => Opt (Some a) ea
          | [] =>
              if negative_number t then Arg
              else if has_space t then Arg
              else Opt None None
          end
      end
  end.

(** The first pass of [_parse_known_args]: after "--" every string is 'A'. *)
Fixpoint classify_all (args : list string) : list (string * token_class) :=
  match args with
  | [] => []
  | t :: rest =>
      if String.eqb t "--" then
        (t, DoubleDash) :: map (λ a, (a, Arg)) rest
      else (t, classify t) :: classify_all rest
  end.

(** What [args.environment] can hold: a string, or the empty list that
    3.11 stores for an explicit argument "--" (as in [-e=--]). *)
Inductive env_value : Type :=
| EnvStr (s : string)
| EnvEmptyList.

(** ["{}".format(env)] *)
Definition env_format (e : env_value) : string :=
  match e with
  | EnvStr s => s
  | EnvEmptyList => "[]"
  end.

(** [-hXYZ]: the characters after a no-argument single-dash option are read
    as further single-dash options.  The help action then exits with 0; an
    unknown character or a missing argument exits with 2 before that. *)
Fixpoint help_tail (ea : string) (next_is_arg : bool) : exn :=
  match ea with
  | EmptyString => SystemExit 2
  | String c ea' =>
      if Ascii.eqb c "h" then
        match ea' with
        | EmptyString => SystemExit 0
        | _ => help_tail ea' next_is_arg
        end
      else if Ascii.eqb c "e" then
        match ea' with
        | EmptyString => if next_is_arg then SystemExit 0 else SystemExit 2
        | _ => SystemExit 0
        end
      else SystemExit 2
  end.

Definition is_Arg (c : token_class) : bool :=
  match c with Arg => true | _ => false end.

(** The main loop ([consume_optional]; there is no positional): strings that
    are no known option go to the extras. *)
Fixpoint consume (toks : list (string * token_class)) (environment : env_value)
  : outcome env_value :=
  match toks with
  | [] => Ok environment
  | (t, c) :: rest =>
      match c with
      | Arg | DoubleDash | Opt None _ | Ambiguous => consume rest environment
      | Opt (Some Help) None => Raise (SystemExit 0)
      | Opt (Some Help) (Some ea) =>
          if startswith t "--" then Raise (SystemExit 2)
          else Raise (help_tail ea
                        match rest with
                        | (_, Arg) :: _ => true
                        | _ => false
                        end)
      | Opt (Some Env) (Some ea) =>
          consume rest (if String.eqb ea "--" then EnvEmptyList else EnvStr ea)
      | Opt (Some Env) None =>
          match rest with
          | (v, Arg) :: rest' => consume rest' (EnvStr v)
          | _ => Raise (SystemExit 2)
          end
      end
  end.

(** [parser.parse_known_args()] with [default] for [environment]: an
    ambiguous abbreviation is reported (exit status 2) by the first pass. *)
Definition parse_known_args (args : list string) (default : string)
  : outcome env_value :=
  let toks := classify_all args in
  if existsb (λ tc, match snd tc with Ambiguous => true | _ => false end) toks
  then Raise (SystemExit 2)
  else consume toks (EnvStr default).

(** [_get_env()], lines 84-92; [sys_argv] is [sys.argv], [environ] is
    [os.environ]. *)
Definition _get_env (sys_argv : list string) (environ : gmap string string)
  : outcome env_value :=
  parse_known_args (tail sys_argv) (default "local" (environ !! "ENVIRONMENT")).

(** Lines 110-111: the module-level [environment] and [config]. *)
Definition module_config (package_location : string)
  (yaml_load : string → outcome value) (fs : filesystem)
  (sys_argv : list string) (environ : gmap string string) : outcome value :=
  environment ← _get_env sys_argv environ;
  base ← _get_config_dict package_location yaml_load fs "default";
  override ← _get_config_dict package_location yaml_load fs
                (env_format environment);
  _deep_merge base override.

(** A string that the parser leaves alone: neither the "--" separator nor
    a known option. *)
Definition plain_token (t : string) : bool :=
  negb (String.eqb t "--")
  && match classify t with
     | Arg | Opt None _ => true
     | _ => false
     end.

(** A string that [-e] accepts as its argument. *)
Definition value_token (v : string) : bool :=
  negb (String.eqb v "--") && is_Arg (classify v).

(** An installation whose configuration directory holds an empty
    [default.yml] and no other document, with a parser that knows the empty
    document. *)
Definition sample_package : string := "/app/my_bot_name".

Definition sample_config_fs : filesystem :=
  {| fs_cwd := "/app";
     fs_tree :=
       <[["app"; "my_bot_name"; "resources"; "config"; "default.yml"]
         := File ""]>
         (<[["app"; "my_bot_name"; "resources"; "config"] := Dir]>
            (<[["app"; "my_bot_name"; "resources"] := Dir]>
               (<[["app"; "my_bot_name"] := Dir]> (<[["app"] := Dir]> ∅)))) |}.

Definition sample_yaml (text : string) : outcome value :=
  if String.eqb text "" then Ok VNone
  else Raise (OtherException "yaml.YAMLError" "unknown document").

(** No key is bound to a mapping both in [A] and in [B]: the condition of
    line 103 holds for no item of [B]. *)
Definition mergeable (A B : dict) : bool :=
  forallb (λ kv : string * value,
             negb (match dict_get kv.1 A with
                   | Some a => is_dict a
                   | None => false
                   end && is_dict kv.2)) B.

(** An installation with two documents, [default.yml] and [local.yml],
    and a parser that knows the four texts used below. *)
Definition layered_fs (default_text local_text : string) : filesystem :=
  {| fs_cwd := "/app";
     fs_tree :=
       <[["app"; "my_bot_name"; "resources"; "config"; "local.yml"]
         := File local_text]>
         (<[["app"; "my_bot_name"; "resources"; "config"; "default.yml"]
           := File default_text]>
            (<[["app"; "my_bot_name"; "resources"; "config"] := Dir]>
               (<[["app"; "my_bot_name"; "resources"] := Dir]>
                  (<[["app"; "my_bot_name"] := Dir]>
                     (<[["app"] := Dir]> ∅))))) |}.

Definition layered_yaml (text : string) : outcome value :=
  if String.eqb text "api_config: {host: 0.0.0.0, port: 8000}" then
    Ok (VDict [("api_config",
                VDict [("host", VStr "0.0.0.0"); ("port", VInt 8000)])])
  else if String.eqb text "api_config: {port: 8080}" then
    Ok (VDict [("api_config", VDict [("port", VInt 8080)])])
  else if String.eqb text "debug: false" then
    Ok (VDict [("debug", VBool false)])
  else if String.eqb text "debug: true" then
    Ok (VDict [("debug", VBool true)])
  else if String.eqb text "" then Ok VNone
  else Raise (OtherException "yaml.YAMLError" "unknown document").

(** A parser that knows a sequence document and the empty document. *)
Definition sequence_yaml (text : string) : outcome value :=
  if String.eqb text "[alpha, beta]" then
    Ok (VList [VStr "alpha"; VStr "beta"])
  else if String.eqb text "" then Ok VNone
  else Raise (OtherException "yaml.YAMLError" "unknown document").

(** The two spellings of the environment option. *)
Definition environment_flags : list string := ["-e"; "--environment"].

(** A string that the parser reports as an ambiguous abbreviation. *)
Definition ambiguous_token (t : string) : bool :=
  negb (String.eqb t "--")
  && match classify t with Ambiguous => true | _ => false end.

End Config.

(** ** The typed sections: my_bot_name/configurations.py, and the
    arguments of the server in my_bot_name/__main__.py *)

Module Configurations.
Import Config.

(** The two frozen dataclasses.  The generated [__init__] stores each
    argument as it is: the annotations ([str], [int], [bool], [float]) are
    not checked. *)
Record ApiConfig : Type := {
  host : value;
  port : value;
  reload : value
}.

Record GCPConfig : Type := {
  project_id : value;
  region : value;
  temperature : value
}.

Definition ApiConfig_fields : list string := ["host"; "port"; "reload"].
Definition GCPConfig_fields : list string :=
  ["project_id"; "region"; "temperature"].

Definition quoted (s : string) : string := "'" +:+ s +:+ "'".

(** [config[key]] for one of the two section names (for these,
    [repr(key)] is the key between single quotes). *)
Definition subscript (config : value) (key : string) : outcome value :=
  match config with
  | VDict d =>
      match dict_get key d with
      | Some v => Ok v
      | None => Raise (OtherException "KeyError" (quoted key))
      end
  | VList _ =>
      Raise (TypeError "list indices must be integers or slices, not str")
  | VTuple _ =>
      Raise (TypeError "tuple indices must be integers or slices, not str")
  | VBytes _ =>
      Raise (TypeError "byte indices must be integers or slices, not str")
  | VStr _ => Raise (TypeError "string indices must be integers, not 'str'")
  | _ =>
      Raise (TypeError (quoted (tp_name config)
                        +:+ " object is not subscriptable"))
  end.

(** The keywords of a call of the class with the mapping [kw] unpacked
    into keywords, matched in the order of the mapping against the
    parameters [self, field, ...] of the generated [__init__]: the first
    keyword that is [self] (already bound) or names no field raises. *)
Fixpoint first_bad_keyword (cls : string) (fields : list string) (kw : dict)
  : option exn :=
  match kw with
  | [] => None
  | (k, _) :: rest =>
      if String.eqb k "self" then
        Some (TypeError (cls +:+ ".__init__() got multiple values for "
                         +:+ "argument 'self'"))
      else if bool_decide (k ∈ fields) then first_bad_keyword cls fields rest
      else
        Some (TypeError (cls +:+ ".__init__() got an unexpected keyword "
                         +:+ "argument " +:+ quoted k))
  end.

(** The names of the missing arguments, as the interpreter lists them. *)
Definition missing_names (missing : list string) : string :=
  match missing with
  | [] => ""
  | [a] => quoted a
  | [a; b] => quoted a +:+ " and " +:+ quoted b
  | _ =>
      String.concat ", " (map quoted (removelast missing))
      +:+ ", and " +:+ quoted (List.last missing "")
  end.

Definition missing_message (cls : string) (missing : list string) : string :=
  cls +:+ ".__init__() missing " +:+ pretty (List.length missing)
  +:+ " required positional argument"
  +:+ (if (List.length missing =? 1)%nat then "" else "s")
  +:+ ": " +:+ missing_names missing.

(** The call of the class on the unpacked [section], up to the body of
    [__init__]: the keywords bound to the fields. *)
Definition bind_keywords (cls : string) (fields : list string)
  (section : value) : outcome dict :=
  match section with
  | VDict kw =>
      match first_bad_keyword cls fields kw with
      | Some e => Raise e
      | None =>
          match List.filter (λ f, negb (dict_has f kw)) fields with
          | [] => Ok kw
          | missing => Raise (TypeError (missing_message cls missing))
          end
      end
  | _ =>
      Raise (TypeError ("my_bot_name.configurations." +:+ cls
                        +:+ "() argument after ** must be a mapping, not "
                        +:+ tp_name section))
  end.

(** The argument bound to a field. *)
Definition argument (kw : dict) (field : string) : value :=
  default VNone (dict_get field kw).

Definition make_ApiConfig (section : value) : outcome ApiConfig :=
  kw ← bind_keywords "ApiConfig" ApiConfig_fields section;
  Ok {| host := argument kw "host"; port := argument kw "port";
        reload := argument kw "reload" |}.

Definition make_GCPConfig (section : value) : outcome GCPConfig :=
  kw ← bind_keywords "GCPConfig" GCPConfig_fields section;
  Ok {| project_id := argument kw "project_id";
        region := argument kw "region";
        temperature := argument kw "temperature" |}.

(** Lines 28-29, for the [config] of the package. *)
Definition API_CONFIG (config : value) : outcome ApiConfig :=
  section ← subscript config "api_config";
  make_ApiConfig section.

Definition GCP_CONFIG (config : value) : outcome GCPConfig :=
  section ← subscript config "gcp_config";
  make_GCPConfig section.

(** Importing the module runs the two lines in order. *)
Definition import_configurations (config : value)
  : outcome (ApiConfig * GCPConfig) :=
  api ← API_CONFIG config;
  gcp ← GCP_CONFIG config;
  Ok (api, gcp).

(** [__main__.py], line 7: the [port] and [host] that [uvicorn.run] gets,
    once line 4 has imported [API_CONFIG]. *)
Definition uvicorn_arguments (config : value) : outcome (value * value) :=
  c ← import_configurations config;
  Ok (port c.1, host c.1).

(** A configuration whose server section gives the port as text, and one
    whose environment document gives the whole server section. *)
Definition text_port_config : dict :=
  [("api_config",
    VDict [("reload", VBool false); ("port", VStr "8000");
           ("host", VStr "0.0.0.0")]);
   ("gcp_config",
    VDict [("project_id", VStr "demo"); ("region", VStr "europe-west1");
           ("temperature", VInt 0)])].

(** A default document whose server section is empty, and the
    configuration it gives under an environment's document that holds the
    whole server section. *)
Definition default_without_server : dict :=
  [("api_config", VNone);
   ("gcp_config",
    VDict [("project_id", VStr "demo"); ("region", VStr "europe-west1");
           ("temperature", VInt 0)])].

Definition local_server_config : dict :=
  [("api_config",
    VDict [("host", VStr "127.0.0.1"); ("port", VInt 8080);
           ("reload", VBool true)]);
   ("gcp_config",
    VDict [("project_id", VStr "demo"); ("region", VStr "europe-west1");
           ("temperature", VInt 0)])].

End Configurations.

(** ** [_deep_merge] on a store of objects

    Python dicts and lists are objects reached by reference.  This is the
    same function as [Config._deep_merge], run on a store: it tells which
    objects the call allocates, which it writes and which it shares. *)

Module Store.

Definition loc : Type := nat.

(** A value is a scalar or a reference to an object of the store. *)
Inductive sval : Type :=
| SNone
| SBool (b : bool)
| SInt (n : Z)
| SFloat (q : Q)
| SStr (s : string)
| SBytes (b : string)
| SDate (iso : string)
| SDateTime (iso : string)
| SRef (l : loc).

Inductive object : Type :=
| ODict (items : list (string * sval))
| OList (items : list sval)
| OTuple (items : list sval)
| OSet (items : list sval).

Abbreviation store := (gmap loc object).

Fixpoint sget (k : string) (d : list (string * sval)) : option sval :=
  match d with
  | [] => None
  | (k', v) :: d' => if String.eqb k k' then Some v else sget k d'
  end.

Fixpoint sset (k : string) (v : sval) (d : list (string * sval))
  : list (string * sval) :=
  match d with
  | [] => [(k, v)]
  | (k', v') :: d' =>
      if String.eqb k k' then (k, v) :: d' else (k', v') :: sset k v d'
  end.

(** [isinstance(v, dict)] *)
Definition is_dict (σ : store) (v : sval) : bool :=
  match v with
  | SRef l => match σ !! l with Some (ODict _) => true | _ => false end
  | _ => false
  end.

(** A new object at an unused location. *)
Definition alloc (o : object) (σ : store) : loc * store :=
  let l := fresh (dom σ) in (l, <[l := o]> σ).

(** The name of the type of [v]; a reference to no object has none (the
    interpreter builds no such store). *)
Definition tp_name (σ : store) (v : sval) : string :=
  match v with
  | SNone => "NoneType"
  | SBool _ => "bool"
  | SInt _ => "int"
  | SFloat _ => "float"
  | SStr _ => "str"
  | SBytes _ => "bytes"
  | SDate _ => "datetime.date"
  | SDateTime _ => "datetime.datetime"
  | SRef l =>
      match σ !! l with
      | Some (ODict _) => "dict"
      | Some (OList _) => "list"
      | Some (OTuple _) => "tuple"
      | Some (OSet _) => "set"
      | None => "object"
      end
  end.

Definition no_attribute (σ : store) (v : sval) (name : string) : exn :=
  AttributeError ("'" +:+ tp_name σ v +:+ "' object has no attribute '"
                  +:+ name +:+ "'").

(** [v.copy()]: a new dict, list or set with the same items (a shallow
    copy); no other value has the method. *)
Definition copy (v : sval) (σ : store) : outcome loc * store :=
  match v with
  | SRef l =>
      match σ !! l with
      | Some (OTuple _) | None => (Raise (no_attribute σ v "copy"), σ)
      | Some o => let '(l', σ') := alloc o σ in (Ok l', σ')
      end
  | _ => (Raise (no_attribute σ v "copy"), σ)
  end.

(** The loop of lines 102-106 over the items of [dict2]; [result] is the
    location of the copy.  Line 104 evaluates the name [deep_merge], which
    the module does not bind ([Config.name_bound]): the line raises
    [NameError] before it assigns anything. *)
Fixpoint merge_loop (result : loc) (its : list (string * sval)) (σ : store)
  : outcome unit * store :=
  match its with
  | [] => (Ok (), σ)
  | (key, value) :: rest =>
      match σ !! result with
      | Some (ODict r) =>
          if match sget key r with
             | Some v => is_dict σ v
             | None => false
             end && is_dict σ value
          then (Raise (NameError "deep_merge"), σ)
          else merge_loop result rest (<[result := ODict (sset key value r)]> σ)
      | Some (OSet s) =>
          if existsb (λ x, match x with
                           | SStr k => String.eqb key k
                           | _ => false
                           end) s
          then (Raise (TypeError "'set' object is not subscriptable"), σ)
          else (Raise (TypeError "'set' object does not support item assignment"), σ)
      | _ => (Raise (TypeError "list indices must be integers or slices, not str"), σ)
      end
  end.

(** [_deep_merge(dict1, dict2)] *)
Definition _deep_merge (dict1 dict2 : sval) (σ : store)
  : outcome sval * store :=
  match copy dict1 σ with
  | (Raise e, σ1) => (Raise e, σ1)
  | (Ok result, σ1) =>
      match dict2 with
      | SRef l2 =>
          match σ1 !! l2 with
          | Some (ODict d2) =>
              match merge_loop result d2 σ1 with
              | (Ok _, σ2) => (Ok (SRef result), σ2)
              | (Raise e, σ2) => (Raise e, σ2)
              end
          | _ => (Raise (no_attribute σ1 dict2 "items"), σ1)
          end
      | _ => (Raise (no_attribute σ1 dict2 "items"), σ1)
      end
  end.

(** A store with a base mapping at 0 (one nested mapping, at 2, and one
    scalar) and an override at 1. *)
Definition sample_store : store :=
  <[0%nat := ODict [("gcp_config", SRef 2%nat); ("debug", SBool false)]]>
    (<[1%nat := ODict [("debug", SBool true)]]>
       (<[2%nat := ODict [("region", SStr "europe-west1")]]> ∅)).

(** A store whose override (at 1) has a nested mapping (at 2) under a key
    that the base (at 0) lacks. *)
Definition override_store : store :=
  <[0%nat := ODict [("debug", SBool false)]]>
    (<[1%nat := ODict [("gcp_config", SRef 2%nat); ("debug", SBool true)]]>
       (<[2%nat := ODict [("region", SStr "europe-west1")]]> ∅)).

End Store.

(** ** The HTTP application: my_bot_name/app.py *)

Module App.

(** [class UnicornException(Exception)] with its single field. *)
Record UnicornException : Type := { name : string }.

(** [fastapi.responses.JSONResponse(status_code=..., content=...)]; the
    content is the JSON value that the response serialises. *)
Record JSONResponse : Type := {
  status_code : Z;
  content : Config.value
}.

Record Request : Type := {
  method : string;
  url_path : string
}.

(** Lines 45-50. *)
Definition unicorn_exception_handler (request : Request)
  (exc : UnicornException) : JSONResponse :=
  {| status_code := 418;
     content :=
       Config.VDict
         [("message",
           Config.VStr ("Oops! " +:+ name exc
                        +:+ " did something. There goes a raibow..."))] |}.

Inductive response : Type :=
| Json (r : JSONResponse)
| PlainText (status : Z) (body : string).

(** What a route handler does with a request: it returns a response or
    raises, either the custom error or something else. *)
Inductive handled : Type :=
| Returns (r : response)
| RaisesUnicorn (exc : UnicornException)
| RaisesOther (e : exn).

(** The application with its one registered exception handler
    ([@app.exception_handler(UnicornException)]): the handler builds the
    response for the custom error; any other exception is left to the
    framework (not customised here: a 500 response). *)
Definition respond (endpoint : Request → handled) (request : Request)
  : response :=
  match endpoint request with
  | Returns r => r
  | RaisesUnicorn exc => Json (unicorn_exception_handler request exc)
  | RaisesOther _ => PlainText 500 "Internal Server Error"
  end.

End App.

(** ** The cloud connectors: my_bot_name/connectors/gcp *)

Module Connectors.

Inductive level : Type := INFO | ERROR.

(** What a caller hands to [execute_query] as [params]: a dict (as the
    annotation has it) or a list of query parameters, each a name and a
    value. *)
Inductive query_params : Type :=
| ParamsDict (d : list (string * string))
| ParamsList (l : list (string * string)).

(** A table of rows, for [pandas.DataFrame]; a schema field is a name and
    a type. *)
Definition DataFrame : Type := list (list string).
Definition SchemaField : Type := (string * string)%type.

(** The client libraries, as the connectors use them.  [C] is the state of
    the remote services; every call may change it and may raise.

    [client_bucket_blob] is [client.bucket(bucket_name).blob(blob_name)],
    the handle of an object: it reaches no service, and the library may
    refuse to build it.  The operations on an object are given by the two
    names: [blob_download_as_bytes] is the three lines that build the
    handle and download through it, [blob_send] is the upload through a
    handle that has been built. *)
Record StorageSDK (C : Type) : Type := {
  client_bucket_blob : string → string → outcome unit;
  blob_download_as_bytes : string → string → C → outcome string * C;
  blob_send : string → string → string → C → outcome unit * C;
  blob_make_public : string → string → C → outcome unit * C;
  blob_public_url : string → string → string;
  client_list_blobs : string → option string → C → outcome (list string) * C
}.
Arguments client_bucket_blob {C}.
Arguments blob_download_as_bytes {C}.
Arguments blob_send {C}.
Arguments blob_make_public {C}.
Arguments blob_public_url {C}.
Arguments client_list_blobs {C}.

(** [client.bucket(bucket_name).blob(blob_name).upload_from_filename(...)]
    on the bytes of the file: the handle, then the upload through it. *)
Definition blob_upload {C} (sdk : StorageSDK C)
  (bucket_name blob_name data : string) (c : C) : outcome unit * C :=
  match client_bucket_blob sdk bucket_name blob_name with
  | Ok _ => blob_send sdk bucket_name blob_name data c
  | Raise e => (Raise e, c)
  end.

Record BigQuerySDK (C Job : Type) : Type := {
  client_query : string → list (string * string) → C → outcome Job * C;
  job_to_dataframe : Job → C → outcome DataFrame * C;
  client_get_table : string → string → C → outcome unit * C;
  client_create_table :
    string → string → list SchemaField → C → outcome unit * C;
  client_load_table_from_dataframe :
    DataFrame → string → string → string → C → outcome Job * C;
  job_result : Job → C → outcome unit * C
}.
Arguments client_query {C Job}.
Arguments job_to_dataframe {C Job}.
Arguments client_get_table {C Job}.
Arguments client_create_table {C Job}.
Arguments client_load_table_from_dataframe {C Job}.
Arguments job_result {C Job}.

(** What a connector call can see and change: the remote services, the
    local file system and the log.  [faults] keeps, in order, the errors
    that calls to the client libraries have raised. *)
Record world (C : Type) : Type := {
  cloud : C;
  fs : filesystem;
  logs : list (level * string);
  faults : list exn
}.
Arguments cloud {C}.
Arguments fs {C}.
Arguments logs {C}.
Arguments faults {C}.

Section Monad.
Context {C : Type}.

Definition M (A : Type) : Type := world C → outcome A * world C.

#[export] Instance M_ret : MRet M := λ A a w, (Ok a, w).
#[export] Instance M_bind : MBind M := λ A B k m w,
  match m w with
  | (Ok a, w') => k a w'
  | (Raise e, w') => (Raise e, w')
  end.

Definition raise {A} (e : exn) : M A := λ w, (Raise e, w).

(** [try: body  except ...: handler] *)
Definition try_except {A} (body : M A) (handler : exn → M A) : M A := λ w,
  match body w with
  | (Ok a, w') => (Ok a, w')
  | (Raise e, w') => handler e w'
  end.

(** [except Exception as e: logger.error(msg(e)); raise] *)
Definition log_and_reraise {A} (log_error : string → M unit)
  (msg : exn → string) (e : exn) : M A :=
  if is_Exception e then _ ← log_error (msg e); raise e else raise e.

Definition logger_info (msg : string) : M unit := λ w,
  (Ok (), {| cloud := cloud w; fs := fs w;
             logs := logs w ++ [(INFO, msg)]; faults := faults w |}).

Definition logger_error (msg : string) : M unit := λ w,
  (Ok (), {| cloud := cloud w; fs := fs w;
             logs := logs w ++ [(ERROR, msg)]; faults := faults w |}).

(** A call to a client library. *)
Definition remote {A} (op : C → outcome A * C) : M A := λ w,
  match op (cloud w) with
  | (Ok a, c) =>
      (Ok a, {| cloud := c; fs := fs w; logs := logs w;
                faults := faults w |})
  | (Raise e, c) =>
      (Raise e, {| cloud := c; fs := fs w; logs := logs w;
                   faults := faults w ++ [e] |})
  end.

(** Local file system calls. *)
Definition fs_read (op : filesystem → outcome string) : M string := λ w,
  (op (fs w), w).

Definition fs_update (op : filesystem → outcome filesystem) : M unit := λ w,
  match op (fs w) with
  | Ok f =>
      (Ok (), {| cloud := cloud w; fs := f; logs := logs w;
                 faults := faults w |})
  | Raise e => (Raise e, w)
  end.

(** [os.makedirs(path, exist_ok=True)]: the directories made before an
    error stay. *)
Definition fs_makedirs (path : string) : M unit := λ w,
  match makedirs path (fs w) with
  | Ok f =>
      (Ok (), {| cloud := cloud w; fs := f; logs := logs w;
                 faults := faults w |})
  | Raise e =>
      (Raise e, {| cloud := cloud w; fs := makedirs_made path (fs w);
                   logs := logs w; faults := faults w |})
  end.

Definition getcwd : M string := λ w, (Ok (fs_cwd (fs w)), w).

(** A computation without effect, which may raise. *)
Definition plain {A} (r : outcome A) : M A := λ w, (r, w).

(** [for x in l: body(x)] *)
Fixpoint for_each {A} (l : list A) (body : A → M unit) : M unit :=
  match l with
  | [] => mret ()
  | x :: l' => _ ← body x; for_each l' body
  end.

(** [await asyncio.to_thread(f, *args)]: the caller gets what [f]
    returns or raises. *)
Definition to_thread {A} (f : M A) : M A := f.
End Monad.

(** *** connectors/gcp/bigquery.py *)

Section BigQuery.
Context {C Job : Type} (sdk : BigQuerySDK C Job).

(** Line 31, [bigquery.QueryJobConfig(query_parameters=params or [])]:
    the parameters of the job.  The configuration turns each element of
    what it is given into its wire form; the elements of a dict are its
    keys, strings, which have no such form. *)
Definition query_parameters (params : option query_params)
  : outcome (list (string * string)) :=
  match params with
  | None | Some (ParamsDict []) | Some (ParamsList []) => Ok []
  | Some (ParamsList l) => Ok l
  | Some (ParamsDict (_ :: _)) =>
      Raise (AttributeError "'str' object has no attribute 'to_api_repr'")
  end.

(** Lines 18-41. *)
Definition execute_query (query : string) (params : option query_params)
  : M DataFrame :=
  _ ← logger_info ("Executing BigQuery query: " +:+ str_take 100 query
                   +:+ "...");
  try_except
    (job_config ← plain (query_parameters params);
     query_job ← remote (client_query sdk query job_config);
     result ← remote (job_to_dataframe sdk query_job);
     _ ← logger_info ("Successfully executed query, returned "
                      +:+ pretty (List.length result) +:+ " rows");
     mret result)
    (log_and_reraise logger_error
       (λ e, "Error executing BigQuery query: " +:+ exn_str e)).

(** Lines 57-59: the query text. *)
Definition table_query (dataset_id table_id : string) (limit : option Z)
  : string :=
  let query := "SELECT * FROM `" +:+ dataset_id +:+ "." +:+ table_id +:+ "`" in
  match limit with
  | Some n => if n =? 0 then query else query +:+ " LIMIT " +:+ pretty n
  | None => query
  end.

(** Lines 43-66. *)
Definition get_table_data (dataset_id table_id : string) (limit : option Z)
  : M DataFrame :=
  _ ← logger_info ("Getting data from table " +:+ dataset_id +:+ "."
                   +:+ table_id);
  try_except
    (execute_query (table_query dataset_id table_id limit) None)
    (log_and_reraise logger_error
       (λ e, "Error getting data from table " +:+ dataset_id +:+ "."
             +:+ table_id +:+ ": " +:+ exn_str e)).

(** Lines 68-90. *)
Definition table_exists (dataset_id table_id : string) : M bool :=
  _ ← logger_info ("Checking if table " +:+ dataset_id +:+ "." +:+ table_id
                   +:+ " exists");
  try_except
    (_ ← remote (client_get_table sdk dataset_id table_id);
     _ ← logger_info ("Table " +:+ dataset_id +:+ "." +:+ table_id
                      +:+ " exists");
     mret true)
    (λ e,
       if is_NotFound e then
         _ ← logger_info ("Table " +:+ dataset_id +:+ "." +:+ table_id
                          +:+ " does not exist");
         mret false
       else
         log_and_reraise logger_error
           (λ e, "Error checking if table " +:+ dataset_id +:+ "."
                 +:+ table_id +:+ " exists: " +:+ exn_str e) e).

(** Lines 92-111. *)
Definition create_table (dataset_id table_id : string)
  (schema : list SchemaField) : M unit :=
  _ ← logger_info ("Creating table " +:+ dataset_id +:+ "." +:+ table_id);
  try_except
    (_ ← remote (client_create_table sdk dataset_id table_id schema);
     logger_info ("Successfully created table " +:+ dataset_id +:+ "."
                  +:+ table_id))
    (log_and_reraise logger_error
       (λ e, "Error creating table " +:+ dataset_id +:+ "." +:+ table_id
             +:+ ": " +:+ exn_str e)).

(** Lines 113-146. *)
Definition upload_dataframe (dataset_id table_id : string)
  (dataframe : DataFrame) (write_disposition : string) : M unit :=
  _ ← logger_info ("Uploading " +:+ pretty (List.length dataframe)
                   +:+ " rows to " +:+ dataset_id +:+ "." +:+ table_id);
  try_except
    (job ← remote (client_load_table_from_dataframe sdk dataframe
                     dataset_id table_id write_disposition);
     _ ← remote (job_result sdk job);
     logger_info ("Successfully uploaded data to " +:+ dataset_id +:+ "."
                  +:+ table_id))
    (log_and_reraise logger_error
       (λ e, "Error uploading data to " +:+ dataset_id +:+ "." +:+ table_id
             +:+ ": " +:+ exn_str e)).

(** Lines 149-224: each asynchronous method logs and hands the
    synchronous one to a worker thread. *)
Definition execute_query_async (query : string)
  (params : option query_params) : M DataFrame :=
  _ ← logger_info ("Initiating async BigQuery query: "
                   +:+ str_take 100 query +:+ "...");
  to_thread (execute_query query params).

Definition get_table_data_async (dataset_id table_id : string)
  (limit : option Z) : M DataFrame :=
  _ ← logger_info ("Initiating async get data from table " +:+ dataset_id
                   +:+ "." +:+ table_id);
  to_thread (get_table_data dataset_id table_id limit).

Definition table_exists_async (dataset_id table_id : string) : M bool :=
  _ ← logger_info ("Checking if table " +:+ dataset_id +:+ "." +:+ table_id
                   +:+ " exists asynchronously");
  to_thread (table_exists dataset_id table_id).

Definition create_table_async (dataset_id table_id : string)
  (schema : list SchemaField) : M unit :=
  _ ← logger_info ("Initiating async creation of table " +:+ dataset_id
                   +:+ "." +:+ table_id);
  to_thread (create_table dataset_id table_id schema).

Definition upload_dataframe_async (dataset_id table_id : string)
  (dataframe : DataFrame) (write_disposition : string) : M unit :=
  _ ← logger_info ("Initiating async upload of "
                   +:+ pretty (List.length dataframe) +:+ " rows to "
                   +:+ dataset_id +:+ "." +:+ table_id);
  to_thread (upload_dataframe dataset_id table_id dataframe
               write_disposition).
End BigQuery.

(** *** connectors/gcp/storage.py *)

Section Storage.
Context {C : Type} (sdk : StorageSDK C).

(** Lines 19-44. *)
Definition download_blob (bucket_name blob_name : string) : M (C:=C) string :=
  _ ← logger_info ("Downloading " +:+ blob_name +:+ " from " +:+ bucket_name);
  try_except
    (content ← remote (blob_download_as_bytes sdk bucket_name blob_name);
     _ ← logger_info ("Successfully downloaded " +:+ blob_name +:+ " from "
                      +:+ bucket_name);
     mret content)
    (λ e,
       if is_NotFound e then
         _ ← logger_error ("Blob " +:+ blob_name +:+ " not found in bucket "
                           +:+ bucket_name);
         raise (FileNotFoundError ("Blob " +:+ blob_name
                                   +:+ " not found in bucket "
                                   +:+ bucket_name))
       else
         log_and_reraise logger_error
           (λ e, "Error downloading " +:+ blob_name +:+ " from "
                 +:+ bucket_name +:+ ": " +:+ exn_str e) e).

(** Lines 46-75.  Lines 64-65 build the handle; [upload_from_filename]
    reads the local file and sends its bytes through the handle. *)
Definition upload_blob (bucket_name blob_name file_path : string)
  (is_public : bool) : M (C:=C) string :=
  _ ← logger_info ("Uploading " +:+ blob_name +:+ " to " +:+ bucket_name);
  try_except
    (_ ← remote (λ c, (client_bucket_blob sdk bucket_name blob_name, c));
     _ ← logger_info ("Successfully uploaded " +:+ blob_name +:+ " to "
                      +:+ bucket_name);
     data ← fs_read (read_file file_path);
     _ ← remote (blob_send sdk bucket_name blob_name data);
     _ ← (if is_public then
            _ ← remote (blob_make_public sdk bucket_name blob_name);
            logger_info ("Blob " +:+ blob_name +:+ " is now public")
          else mret ());
     mret (blob_public_url sdk bucket_name blob_name))
    (log_and_reraise logger_error
       (λ e, "Error uploading " +:+ blob_name +:+ " to " +:+ bucket_name
             +:+ ": " +:+ exn_str e)).

(** The prefix part of the log line, present when [prefix] is truthy. *)
Definition with_prefix (prefix : option string) : string :=
  match prefix with
  | Some p => if nonempty p then " with prefix " +:+ p else ""
  | None => ""
  end.

(** Lines 77-98. *)
Definition list_blobs (bucket_name : string) (prefix : option string)
  : M (C:=C) (list string) :=
  _ ← logger_info ("Listing blobs in " +:+ bucket_name
                   +:+ with_prefix prefix);
  try_except
    (blobs ← remote (client_list_blobs sdk bucket_name prefix);
     _ ← logger_info ("Successfully listed blobs in " +:+ bucket_name);
     mret blobs)
    (log_and_reraise logger_error
       (λ e, "Error listing blobs in " +:+ bucket_name +:+ ": "
             +:+ exn_str e)).

(** Lines 124-125: where a blob goes, in a process whose working
    directory is [cwd]. *)
Definition target_of (cwd gcs_folder local_folder blob_name : string)
  : outcome string :=
  relative_path ← relpath cwd blob_name gcs_folder;
  Ok (path_join local_folder relative_path).

Definition local_path_of (gcs_folder local_folder blob_name : string)
  : M (C:=C) string :=
  cwd ← getcwd;
  plain (target_of cwd gcs_folder local_folder blob_name).

Definition folder_error (gcs_folder bucket_name : string) (e : exn)
  : string :=
  "Error downloading folder " +:+ gcs_folder +:+ " from bucket "
  +:+ bucket_name +:+ ": " +:+ exn_str e.

(** Lines 100-143. *)
Definition download_folder (bucket_name gcs_folder local_folder : string)
  : M (C:=C) unit :=
  _ ← logger_info ("Downloading folder " +:+ gcs_folder +:+ " from "
                   +:+ bucket_name +:+ " to " +:+ local_folder);
  try_except
    (blobs ← list_blobs bucket_name (Some gcs_folder);
     for_each blobs (λ blob_name,
       if endswith blob_name "/" then mret ()
       else
         local_file_path ← local_path_of gcs_folder local_folder blob_name;
         _ ← fs_makedirs (dirname local_file_path);
         content ← download_blob bucket_name blob_name;
         _ ← fs_update (write_file local_file_path content);
         logger_info ("Downloaded: " +:+ blob_name +:+ " -> "
                      +:+ local_file_path)))
    (log_and_reraise logger_error (folder_error gcs_folder bucket_name)).

(** Lines 146-191. *)
Definition download_blob_async (bucket_name blob_name : string)
  : M (C:=C) string :=
  _ ← logger_info ("Initiating async download of " +:+ blob_name
                   +:+ " from " +:+ bucket_name);
  to_thread (download_blob bucket_name blob_name).

Definition upload_blob_async (bucket_name blob_name file_path : string)
  (is_public : bool) : M (C:=C) unit :=
  _ ← logger_info ("Initiating async upload of " +:+ blob_name +:+ " to "
                   +:+ bucket_name);
  _ ← to_thread (upload_blob bucket_name blob_name file_path is_public);
  mret ().

Definition list_blobs_async (bucket_name : string) (prefix : option string)
  : M (C:=C) (list string) :=
  _ ← logger_info ("Listing blobs in " +:+ bucket_name +:+ " asynchronously"
                   +:+ with_prefix prefix);
  to_thread (list_blobs bucket_name prefix).

(** Lines 239-249, in the two stretches that the event loop runs: up to
    the hand-over of the download to a worker thread, and from the
    completion of that download to the end. *)
Definition save_start (bucket_name blob_name : string) : M (C:=C) unit :=
  logger_info ("Initiating async download of " +:+ blob_name +:+ " from "
               +:+ bucket_name).

Definition save_finish (bucket_name blob_name local_file_path : string)
  : M (C:=C) unit :=
  content ← to_thread (download_blob bucket_name blob_name);
  _ ← fs_update (write_file local_file_path content);
  logger_info ("Downloaded: " +:+ blob_name +:+ " -> " +:+ local_file_path).

Definition _download_and_save (bucket_name blob_name local_file_path : string)
  : M (C:=C) unit :=
  _ ← save_start bucket_name blob_name;
  save_finish bucket_name blob_name local_file_path.

(** Lines 213-227: the loop that makes the directories and collects the
    tasks (blob name and local path), in listing order. *)
Fixpoint collect_tasks (gcs_folder local_folder : string)
  (blobs : list string) : M (C:=C) (list (string * string)) :=
  match blobs with
  | [] => mret []
  | blob_name :: rest =>
      if endswith blob_name "/" then
        collect_tasks gcs_folder local_folder rest
      else
        local_file_path ← local_path_of gcs_folder local_folder blob_name;
        _ ← fs_makedirs (dirname local_file_path);
        download_tasks ← collect_tasks gcs_folder local_folder rest;
        mret ((blob_name, local_file_path) :: download_tasks)
  end.

(** The tasks of [asyncio.gather] finish in the order [order] (indices
    into the task list).  The first task that raises ends the wait: its
    error is raised to the awaiting caller at once.  The tasks still
    pending are not cancelled, but what they do afterwards is no part of
    the call. *)
Fixpoint finish_in_order (bucket_name : string)
  (tasks : list (string * string)) (order : list nat) : M (C:=C) unit :=
  match order with
  | [] => mret ()
  | i :: rest =>
      match tasks !! i with
      | None => finish_in_order bucket_name tasks rest
      | Some (blob_name, local_file_path) =>
          _ ← save_finish bucket_name blob_name local_file_path;
          finish_in_order bucket_name tasks rest
      end
  end.

(** [await asyncio.gather] on the download tasks: every task runs up to its
    hand-over, in list order; then the downloads complete in [order]. *)
Definition gather (bucket_name : string) (tasks : list (string * string))
  (order : list nat) : M (C:=C) unit :=
  _ ← for_each tasks (λ t, save_start bucket_name t.1);
  finish_in_order bucket_name tasks order.

(** Lines 193-237, for a completion order of the concurrent tasks. *)
Definition download_folder_async (order : list nat)
  (bucket_name gcs_folder local_folder : string) : M (C:=C) unit :=
  _ ← logger_info ("Initiating async download of folder " +:+ gcs_folder
                   +:+ " from " +:+ bucket_name +:+ " to " +:+ local_folder);
  try_except
    (blobs ← list_blobs_async bucket_name (Some gcs_folder);
     download_tasks ← collect_tasks gcs_folder local_folder blobs;
     _ ← gather bucket_name download_tasks order;
     logger_info ("Completed async download of folder " +:+ gcs_folder))
    (log_and_reraise logger_error (folder_error gcs_folder bucket_name)).
End Storage.

(** *** The effect of a folder download on the file system

    The loops of [download_folder] and [download_folder_async] with the
    service calls and the log left out: what they do to the local files
    when each blob [b] downloads as [content b]. *)

(** In the service state [c0] the blob [b] downloads as [content b], and
    the download leaves the service as it is. *)
Definition steady {C} (sdk : StorageSDK C) (bucket_name : string)
  (content : string → string) (c0 : C) (b : string) : Prop :=
  blob_download_as_bytes sdk bucket_name b c0 = (Ok (content b), c0).

(** The blobs that are no folder markers. *)
Definition kept_blobs (blobs : list string) : list string :=
  List.filter (λ b, negb (endswith b "/")) blobs.

(** The tasks of a listing: every blob that is no folder marker, with the
    local path it goes to. *)
Fixpoint plan (cwd gcs_folder local_folder : string) (blobs : list string)
  : outcome (list (string * string)) :=
  match blobs with
  | [] => Ok []
  | blob_name :: rest =>
      if endswith blob_name "/" then plan cwd gcs_folder local_folder rest
      else
        local_file_path ← target_of cwd gcs_folder local_folder blob_name;
        tasks ← plan cwd gcs_folder local_folder rest;
        Ok ((blob_name, local_file_path) :: tasks)
  end.

(** One turn of the sequential loop per task (blob name, local path). *)
Fixpoint sequential_effect (content : string → string)
  (tasks : list (string * string)) (f : filesystem) : outcome filesystem :=
  match tasks with
  | [] => Ok f
  | t :: rest =>
      f1 ← makedirs (dirname t.2) f;
      f2 ← write_file t.2 (content t.1) f1;
      sequential_effect content rest f2
  end.

(** The directories of all tasks, as the asynchronous loop makes them. *)
Fixpoint make_all_dirs (tasks : list (string * string)) (f : filesystem)
  : outcome filesystem :=
  match tasks with
  | [] => Ok f
  | t :: rest => f1 ← makedirs (dirname t.2) f; make_all_dirs rest f1
  end.

(** The writes of the tasks, in the order of the list. *)
Fixpoint save_all (content : string → string)
  (tasks : list (string * string)) (f : filesystem) : outcome filesystem :=
  match tasks with
  | [] => Ok f
  | t :: rest => f1 ← write_file t.2 (content t.1) f; save_all content rest f1
  end.

(** *** How a connector treats the errors of the services *)

(** During a run of [m] the services raised no error, or they raised one
    error [e] and [m] raised an error [e'] with [relate e e']. *)
Definition passes_on {C A} (relate : exn → exn → Prop) (m : M A) : Prop :=
  ∀ w : world C,
    faults (m w).2 = faults w
    ∨ ∃ e e', faults (m w).2 = faults w ++ [e]
              ∧ (m w).1 = Raise e' ∧ relate e e'.

(** [m] raises the very error that the service raised. *)
Definition reraises {C A} (m : M (C:=C) A) : Prop := passes_on eq m.

(** The translation of [download_blob]: the service's not-found becomes a
    [FileNotFoundError] that names the blob; anything else is unchanged. *)
Definition missing_blob (bucket_name blob_name : string) : exn :=
  FileNotFoundError ("Blob " +:+ blob_name +:+ " not found in bucket "
                     +:+ bucket_name).

Definition not_found_as_missing (bucket_name blob_name : string)
  (e e' : exn) : Prop :=
  e' = if is_NotFound e then missing_blob bucket_name blob_name else e.

(** The same for a blob that a folder download fetches: [e] is an error
    that the service raises for the download of [blob_name], and [e'] is
    what [download_blob] makes of it. *)
Definition blob_error {C} (sdk : StorageSDK C)
  (bucket_name blob_name : string) (e e' : exn) : Prop :=
  (∃ c, (blob_download_as_bytes sdk bucket_name blob_name c).1 = Raise e)
  ∧ not_found_as_missing bucket_name blob_name e e'.

(** How an operation lists: it returns or raises what the service does,
    and records the error that the service raised. *)
Definition lists_through {C} (sdk : StorageSDK C)
  (bucket_name : string) (prefix : option string)
  (listing : M (C:=C) (list string)) : Prop :=
  ∀ w : world C,
    match client_list_blobs sdk bucket_name prefix (cloud w) with
    | (Ok blobs, _) =>
        ∃ w1, listing w = (Ok blobs, w1) ∧ faults w1 = faults w
    | (Raise e, _) =>
        ∃ w1, listing w = (Raise e, w1) ∧ faults w1 = faults w ++ [e]
    end.

(** What a folder download [m] makes of the errors of the service.  An
    error of the listing is raised as it is, a not-found included.  When
    the listing succeeds, the service raises no error during the run, or it
    raises one, for the download of a listed blob that is no folder marker,
    and [m] raises what [download_blob] makes of it. *)
Definition folder_passes_on {C} (sdk : StorageSDK C)
  (bucket_name gcs_folder : string) (m : M unit) : Prop :=
  ∀ w : world C,
    match client_list_blobs sdk bucket_name (Some gcs_folder) (cloud w) with
    | (Raise e, _) => (m w).1 = Raise e ∧ faults (m w).2 = faults w ++ [e]
    | (Ok blobs, _) =>
        faults (m w).2 = faults w
        ∨ ∃ blob_name e e',
            blob_name ∈ blobs ∧ endswith blob_name "/" = false
            ∧ faults (m w).2 = faults w ++ [e]
            ∧ (m w).1 = Raise e'
            ∧ blob_error sdk bucket_name blob_name e e'
    end.

(** *** The library's check of a bucket name

    [client.bucket(name)] refuses a name whose first or last character is
    neither a letter nor a digit (ASCII ones, in the stand-ins below). *)
Definition is_alnum (c : ascii) : bool :=
  let n := nat_of_ascii c in
  ((48 <=? n) && (n <=? 57) || (65 <=? n) && (n <=? 90)
   || (97 <=? n) && (n <=? 122))%nat.

Fixpoint last_char (c : ascii) (s : string) : ascii :=
  match s with
  | EmptyString => c
  | String c' s' => last_char c' s'
  end.

Definition checked_bucket (bucket : string) : outcome unit :=
  match bucket with
  | EmptyString =>
      Raise (OtherException "IndexError" "string index out of range")
  | String c rest =>
      if is_alnum c && is_alnum (last_char c rest) then Ok ()
      else Raise (ValueError "Bucket names must start and end with a number or letter.")
  end.

(** A call that goes through the bucket of that name. *)
Definition through_bucket {C A} (bucket : string) (op : C → outcome A * C)
  (c : C) : outcome A * C :=
  match checked_bucket bucket with
  | Ok _ => op c
  | Raise e => (Raise e, c)
  end.

(** *** A bucket whose listed object is gone when it is fetched

    (it was deleted after the listing): the listing names [a/1.txt], the
    download reports not-found. *)
Definition vanished_storage : StorageSDK unit := {|
  client_bucket_blob bucket name := checked_bucket bucket;
  blob_download_as_bytes bucket name :=
    through_bucket bucket (λ c,
      (Raise (NotFound ("No such object: " +:+ bucket +:+ "/" +:+ name)), c));
  blob_send bucket name data c := (Ok (), c);
  blob_make_public bucket name :=
    through_bucket bucket (λ c,
      (Raise (NotFound ("No such object: " +:+ bucket +:+ "/" +:+ name)), c));
  blob_public_url bucket name :=
    "https://storage.googleapis.com/" +:+ bucket +:+ "/" +:+ name;
  client_list_blobs bucket prefix :=
    through_bucket bucket (λ c, (Ok ["a/1.txt"], c))
|}.

(** *** An in-memory object store

    A stand-in for the storage service: the objects of all buckets, in
    listing order.  A missing object is reported with [NotFound]. *)

Record mem_blob : Type := {
  mb_bucket : string;
  mb_name : string;
  mb_data : string;
  mb_public : bool
}.

Definition is_blob (bucket name : string) (o : mem_blob) : bool :=
  String.eqb (mb_bucket o) bucket && String.eqb (mb_name o) name.

Definition mem_find (bucket name : string) (c : list mem_blob)
  : option mem_blob :=
  List.find (is_blob bucket name) c.

Definition mem_storage : StorageSDK (list mem_blob) := {|
  client_bucket_blob bucket name := checked_bucket bucket;
  blob_download_as_bytes bucket name :=
    through_bucket bucket (λ c,
      match mem_find bucket name c with
      | Some o => (Ok (mb_data o), c)
      | None =>
          (Raise (NotFound ("No such object: " +:+ bucket +:+ "/" +:+ name)),
           c)
      end);
  blob_send bucket name data c :=
    (Ok (),
     (List.filter (λ o, negb (is_blob bucket name o)) c
      ++ [{| mb_bucket := bucket; mb_name := name; mb_data := data;
             mb_public := false |}])%list);
  blob_make_public bucket name :=
    through_bucket bucket (λ c,
      match mem_find bucket name c with
      | Some _ =>
          (Ok (),
           map (λ o, if is_blob bucket name o
                     then {| mb_bucket := bucket; mb_name := name;
                             mb_data := mb_data o; mb_public := true |}
                     else o) c)
      | None =>
          (Raise (NotFound ("No such object: " +:+ bucket +:+ "/" +:+ name)),
           c)
      end);
  blob_public_url bucket name :=
    "https://storage.googleapis.com/" +:+ bucket +:+ "/" +:+ name;
  client_list_blobs bucket prefix :=
    through_bucket bucket (λ c,
      (Ok (map mb_name
             (List.filter (λ o, String.eqb (mb_bucket o) bucket
                                && startswith (mb_name o) (default "" prefix))
                c)),
       c))
|}.

(** What the store holds for a blob (empty for a blob it does not hold). *)
Definition mem_content (c : list mem_blob) (bucket name : string) : string :=
  match mem_find bucket name c with
  | Some o => mb_data o
  | None => ""
  end.

(** The bucket of the folder example: two objects and a folder marker
    under the prefix [a]. *)
Definition folder_bucket : list mem_blob :=
  [ {| mb_bucket := "bucket"; mb_name := "a/1.txt"; mb_data := "one";
       mb_public := false |};
    {| mb_bucket := "bucket"; mb_name := "a/2.txt"; mb_data := "two";
       mb_public := false |};
    {| mb_bucket := "bucket"; mb_name := "a/sub/"; mb_data := "";
       mb_public := false |} ].

(** A bucket with two objects whose names differ by a doubled slash: both
    go to the local file [x]. *)
Definition colliding_bucket : list mem_blob :=
  [ {| mb_bucket := "bucket"; mb_name := "a//x"; mb_data := "first";
       mb_public := false |};
    {| mb_bucket := "bucket"; mb_name := "a/x"; mb_data := "second";
       mb_public := false |} ].

(** A working directory [/w] that holds one file. *)
Definition sample_fs : filesystem :=
  {| fs_cwd := "/w";
     fs_tree := <[["w"; "report.txt"] := File "quarterly figures"]>
                  (<[["w"] := Dir]> ∅) |}.

Definition sample_world {C} (c : C) : world C :=
  {| cloud := c; fs := sample_fs; logs := []; faults := [] |}.

(** The loop of [download_folder], lines 118-137. *)
Definition folder_turn {C} (sdk : StorageSDK C)
  (bucket_name gcs_folder local_folder blob_name : string) : M (C:=C) unit :=
  if endswith blob_name "/" then mret ()
  else
    local_file_path ← local_path_of gcs_folder local_folder blob_name;
    _ ← fs_makedirs (dirname local_file_path);
    content ← download_blob sdk bucket_name blob_name;
    _ ← fs_update (write_file local_file_path content);
    logger_info ("Downloaded: " +:+ blob_name +:+ " -> " +:+ local_file_path).

Definition folder_loop {C} (sdk : StorageSDK C)
  (bucket_name gcs_folder local_folder : string) (blobs : list string)
  : M (C:=C) unit :=
  for_each blobs (folder_turn sdk bucket_name gcs_folder local_folder).

(** *** What reaches the log *)

(** The messages logged at level ERROR. *)
Definition error_lines (l : list (level * string)) : list string :=
  omap (λ r : level * string,
          match r.1 with ERROR => Some r.2 | INFO => None end) l.

(** [except Exception] would catch what [r] raises. *)
Definition raises_exception {A} (r : outcome A) : Prop :=
  ∃ e, r = Raise e ∧ is_Exception e = true.

(** [m] only adds to the log, and no ERROR line. *)
Definition silent {C A} (m : M A) : Prop :=
  ∀ w : world C,
    ∃ new, logs (m w).2 = logs w ++ new ∧ error_lines new = [].

(** [m] only adds to the log, and an ERROR line only in a run that raises
    an [Exception]. *)
Definition errors_only_on_failure {C A} (m : M A) : Prop :=
  ∀ w : world C,
    ∃ new, logs (m w).2 = logs w ++ new
           ∧ (error_lines new ≠ [] → raises_exception (m w).1).

(** [m] only adds to the log, and an ERROR line exactly in the runs that
    raise an [Exception]. *)
Definition reports_failures {C A} (m : M A) : Prop :=
  ∀ w : world C,
    ∃ new, logs (m w).2 = logs w ++ new
           ∧ (error_lines new ≠ [] ↔ raises_exception (m w).1).

(** *** A bucket with uniform bucket-level access

    The in-memory store, except that objects cannot be made public one by
    one: the service refuses the change of the object's access list. *)
Definition uniform_access_storage : StorageSDK (list mem_blob) := {|
  client_bucket_blob := client_bucket_blob mem_storage;
  blob_download_as_bytes := blob_download_as_bytes mem_storage;
  blob_send := blob_send mem_storage;
  blob_make_public bucket name :=
    through_bucket bucket (λ c,
      (Raise (OtherException "google.api_core.exceptions.BadRequest"
                "400 Cannot get legacy ACL for an object when uniform bucket-level access is enabled"),
       c));
  blob_public_url := blob_public_url mem_storage;
  client_list_blobs := client_list_blobs mem_storage
|}.

(** *** A warehouse that cannot be reached: every call fails. *)
Definition unavailable : exn :=
  OtherException "google.api_core.exceptions.ServiceUnavailable"
    "503 Service Unavailable".

Definition unreachable_bigquery : BigQuerySDK unit unit := {|
  client_query query params c := (Raise unavailable, c);
  job_to_dataframe job c := (Raise unavailable, c);
  client_get_table dataset_id table_id c := (Raise unavailable, c);
  client_create_table dataset_id table_id schema c := (Raise unavailable, c);
  client_load_table_from_dataframe dataframe dataset_id table_id
    write_disposition c := (Raise unavailable, c);
  job_result job c := (Raise unavailable, c)
|}.

(** *** A listing that is out of date

    The in-memory store behind a listing that still names [a/2.txt], an
    object deleted since. *)
Definition stale_storage : StorageSDK (list mem_blob) := {|
  client_bucket_blob := client_bucket_blob mem_storage;
  blob_download_as_bytes := blob_download_as_bytes mem_storage;
  blob_send := blob_send mem_storage;
  blob_make_public := blob_make_public mem_storage;
  blob_public_url := blob_public_url mem_storage;
  client_list_blobs bucket prefix :=
    through_bucket bucket (λ c, (Ok ["a/1.txt"; "a/2.txt"; "a/3.txt"], c))
|}.

Definition stale_bucket : list mem_blob :=
  [ {| mb_bucket := "bucket"; mb_name := "a/1.txt"; mb_data := "one";
       mb_public := false |};
    {| mb_bucket := "bucket"; mb_name := "a/3.txt"; mb_data := "three";
       mb_public := false |} ].

(** The local files once the first blob of the stale listing is saved. *)
Definition first_blob_saved : filesystem :=
  {| fs_cwd := "/w";
     fs_tree := <[["w"; "out"; "1.txt"] := File "one"]>
                  (<[["w"; "out"] := Dir]> (fs_tree sample_fs)) |}.

(** The local files once the third blob of the stale listing is saved and
    nothing else. *)
Definition third_blob_saved : filesystem :=
  {| fs_cwd := "/w";
     fs_tree := <[["w"; "out"; "3.txt"] := File "three"]>
                  (<[["w"; "out"] := Dir]> (fs_tree sample_fs)) |}.

(** A bucket that holds folder markers only. *)
Definition marker_bucket : list mem_blob :=
  [ {| mb_bucket := "bucket"; mb_name := "a/"; mb_data := "";
       mb_public := false |};
    {| mb_bucket := "bucket"; mb_name := "a/sub/"; mb_data := "";
       mb_public := false |} ].

End Connectors.

(** ** The logging decorator: my_bot_name/__init__.py *)

Module Decorator.
Import Connectors.

(** Lines 54-70: [log(func)] called on some arguments, where [func] on
    these arguments is the computation [call] and [func.__name__] is
    [func_name].  The log of the world stands for the records of the
    package's logger. *)
Definition log {C A} (func_name : string) (call : M (C:=C) A) : M A :=
  try_except
    (_ ← logger_info ("Calling function '" +:+ func_name +:+ "'");
     result ← call;
     mret result)
    (log_and_reraise logger_error
       (λ e, "Error in function '" +:+ func_name +:+ "': " +:+ exn_str e)).

End Decorator.

(** * Properties *)

(** ** Strings *)

Section StringFacts.

Lemma append_empty_r (s : string) : s +:+ "" = s.
Proof.
  induction s as [|c s IH]; [done|].
  change (String c (s +:+ "") = String c s). by rewrite IH.
Qed.

Lemma append_assoc (a b c : string) : (a +:+ b) +:+ c = a +:+ (b +:+ c).
Proof.
  induction a as [|x a IH]; [done|].
  change (String x ((a +:+ b) +:+ c) = String x (a +:+ (b +:+ c))).
  by rewrite IH.
Qed.

Lemma split_on_cons sep s : ∃ w ws, split_on sep s = w :: ws.
Proof.
  induction s as [|c s IH]; simpl; [eauto|].
  destruct (Ascii.eqb c sep); [eauto|].
  destruct IH as (w & ws & ->). eauto.
Qed.

(** [(a + sep + s).split(sep) == a.split(sep) + s.split(sep)] *)
Lemma split_on_app_sep sep a s :
  split_on sep (a +:+ String sep s) = split_on sep a ++ split_on sep s.
Proof.
  induction a as [|c a IH].
  - change (split_on sep (String sep s) = [""] ++ split_on sep s).
    simpl. by rewrite Ascii.eqb_refl.
  - change (split_on sep (String c (a +:+ String sep s))
            = split_on sep (String c a) ++ split_on sep s).
    simpl. rewrite IH. destruct (Ascii.eqb c sep); [done|].
    by destruct (split_on_cons sep a) as (w & ws & ->).
Qed.

Lemma last_app_nonempty {A} (l1 l2 : list A) d :
  l2 ≠ [] → List.last (l1 ++ l2) d = List.last l2 d.
Proof.
  intros H. induction l1 as [|x l1 IH]; [done|].
  simpl. rewrite IH. destruct (l1 ++ l2) eqn:E; [|done].
  by apply app_eq_nil in E as [_ ?].
Qed.

Lemma last_split_after_sep sep a s d :
  List.last (split_on sep (a +:+ String sep s)) d
  = List.last (split_on sep s) d.
Proof.
  rewrite split_on_app_sep. apply last_app_nonempty.
  by destruct (split_on_cons sep s) as (w & ws & ->).
Qed.

Lemma string_rev_app_spec s1 s2 : String.rev_app s1 s2 = String.rev s1 +:+ s2.
Proof.
  revert s2. induction s1 as [|a s1 IH]; intros s2; [done|].
  unfold String.rev. simpl. rewrite (IH (String a s2)), (IH (String a "")).
  by rewrite append_assoc.
Qed.

Lemma string_rev_append x y : String.rev (x +:+ y) = String.rev y +:+ String.rev x.
Proof.
  induction x as [|a x IH].
  - change (String.rev y = String.rev y +:+ ""). by rewrite append_empty_r.
  - change (String.rev (String a (x +:+ y))
            = String.rev y +:+ String.rev (String a x)).
    unfold String.rev at 1 3. simpl. rewrite !string_rev_app_spec, IH.
    by rewrite append_assoc.
Qed.

Lemma string_rev_involutive s : String.rev (String.rev s) = s.
Proof.
  induction s as [|a s IH]; [done|].
  unfold String.rev at 2. simpl. rewrite string_rev_app_spec, string_rev_append, IH. done.
Qed.

Lemma has_char_append c a b :
  has_char c (a +:+ b) = has_char c a || has_char c b.
Proof.
  induction a as [|x a IH]; [done|].
  change (has_char c (String x (a +:+ b))
          = has_char c (String x a) || has_char c b).
  simpl. by rewrite IH, orb_assoc.
Qed.

Lemma has_char_rev c s : has_char c (String.rev s) = has_char c s.
Proof.
  induction s as [|x s IH]; [done|].
  change (String x s) with (String x "" +:+ s).
  rewrite string_rev_append, !has_char_append, IH. simpl.
  by rewrite orb_comm.
Qed.

(** A path has no slash, or it is a head, a slash and a last name. *)
Lemma last_name p :
  (has_char "/" p = false ∧ split_on "/" p = [p])
  ∨ ∃ a n, p = a +:+ String "/" n ∧ has_char "/" n = false
           ∧ split_on "/" n = [n].
Proof.
  induction p as [|c p IH]; [by left|].
  cbn [has_char split_on]. rewrite (Ascii.eqb_sym "/" c).
  destruct (Ascii.eqb_spec c "/") as [->|Hc].
  - right. destruct IH as [[H1 H2]|(a & n & -> & H1 & H2)].
    + by exists "", p.
    + by exists (String "/" a), n.
  - destruct IH as [[H1 H2]|(a & n & -> & H1 & H2)].
    + left. by rewrite H2.
    + right. by exists (String c a), n.
Qed.

Lemma drop_to_slash_none m :
  has_char "/" m = false → drop_to_slash m = "".
Proof.
  induction m as [|c m IH]; [done|]. cbn [has_char drop_to_slash].
  rewrite (Ascii.eqb_sym "/" c).
  destruct (Ascii.eqb_spec c "/") as [->|Hc]; [done|]. apply IH.
Qed.

Lemma drop_to_slash_app m r :
  has_char "/" m = false →
  drop_to_slash (m +:+ String "/" r) = String "/" r.
Proof.
  induction m as [|c m IH]; [done|].
  change (has_char "/" (String c m) = false
          → drop_to_slash (String c (m +:+ String "/" r)) = String "/" r).
  cbn [has_char drop_to_slash]. rewrite (Ascii.eqb_sym "/" c).
  destruct (Ascii.eqb_spec c "/") as [->|Hc]; [done|]. apply IH.
Qed.

Lemma string_rev_cons c s : String.rev (String c s) = String.rev s +:+ String c "".
Proof.
  change (String c s) with (String c "" +:+ s). by rewrite string_rev_append.
Qed.

Lemma string_rev_snoc c s : String.rev (s +:+ String c "") = String c (String.rev s).
Proof. by rewrite string_rev_append. Qed.

(** The part of [dirname] before the slashes are stripped. *)
Lemma dirname_head a n :
  has_char "/" n = false →
  String.rev (drop_to_slash (String.rev (a +:+ String "/" n)))
  = a +:+ String "/" "".
Proof.
  intros Hn. rewrite string_rev_append, string_rev_cons, append_assoc.
  change (String "/" "" +:+ String.rev a) with (String "/" (String.rev a)).
  rewrite drop_to_slash_app by by rewrite has_char_rev.
  by rewrite string_rev_cons, string_rev_involutive.
Qed.

Lemma lstrip_slash_other c s :
  c ≠ "/"%char → lstrip_slash (String c s) = String c s.
Proof.
  intros Hc. destruct c as [[] [] [] [] [] [] [] []]; try done.
Qed.

Lemma startswith_cons c s : startswith (String c s) "/" = Ascii.eqb c "/".
Proof.
  unfold startswith. cbn -[Ascii.ascii_dec Ascii.eqb].
  destruct (Ascii.ascii_dec "/" c) as [<-|Hne]; [by destruct s|].
  destruct (Ascii.eqb_spec c "/"); [by subst|done].
Qed.

Lemma lstrip_slash_snoc c m :
  lstrip_slash (m +:+ String c "") = ""
  ∨ ∃ m', lstrip_slash (m +:+ String c "") = m' +:+ String c "".
Proof.
  induction m as [|d m IH].
  - change ("" +:+ String c "") with (String c "").
    destruct (Ascii.eqb_spec c "/") as [->|Hc]; [by left|].
    right. exists "". by rewrite lstrip_slash_other.
  - change (String d m +:+ String c "") with (String d (m +:+ String c "")).
    destruct (Ascii.eqb_spec d "/") as [->|Hd]; [apply IH|].
    right. exists (String d m). by rewrite lstrip_slash_other.
Qed.

(** What is left of a path without the slashes at its end begins as the
    path does. *)
Lemma rstrip_slash_first c s :
  rstrip_slash (String c s) = ""
  ∨ ∃ y, rstrip_slash (String c s) = String c y.
Proof.
  unfold rstrip_slash. rewrite string_rev_cons.
  destruct (lstrip_slash_snoc c (String.rev s)) as [->|[m' ->]]; [by left|].
  right. exists (String.rev m'). by rewrite string_rev_snoc.
Qed.

End StringFacts.

(** ** The deep merge on values *)

Section MergeFacts.
Import Config.

Lemma dict_get_set_eq k v d : dict_get k (dict_set k v d) = Some v.
Proof.
  induction d as [|[k' v'] d IH]; simpl.
  - by rewrite String.eqb_refl.
  - destruct (String.eqb k k') eqn:E; simpl.
    + by rewrite String.eqb_refl.
    + by rewrite E.
Qed.

Lemma dict_get_set_ne k k' v d :
  k ≠ k' → dict_get k (dict_set k' v d) = dict_get k d.
Proof.
  intros Hne. induction d as [|[k'' v''] d IH]; simpl.
  - destruct (String.eqb k k') eqn:E; [|done].
    apply String.eqb_eq in E. contradiction.
  - destruct (String.eqb k' k'') eqn:E; simpl.
    + apply String.eqb_eq in E as <-.
      destruct (String.eqb k k') eqn:E'; [|done].
      apply String.eqb_eq in E'. contradiction.
    + by rewrite IH.
Qed.

Lemma dict_get_None k d : dict_get k d = None ↔ k ∉ keys d.
Proof.
  unfold keys. induction d as [|[k' v'] d IH]; simpl.
  - split; [intros _; apply not_elem_of_nil | done].
  - destruct (String.eqb k k') eqn:E.
    + apply String.eqb_eq in E as ->. split; [done|].
      intros H. exfalso. apply H. left.
    + apply String.eqb_neq in E. rewrite IH, not_elem_of_cons. tauto.
Qed.

Lemma merge_body_items resolves d1 d2 :
  merge_body resolves (VDict d1) (VDict d2) = merge_items resolves d1 d2.
Proof.
  revert d1. induction d2 as [|[key value] rest IH]; intros d1; [done|].
  simpl. destruct (dict_get key d1) as [[]|]; try apply IH.
  destruct value; try apply IH.
  destruct resolves; [|done].
  destruct (merge_body true (VDict d) (VDict d0)); simpl; [apply IH | done].
Qed.

(** What the loop leaves in the result, key by key, when it ends normally
    and the items have distinct keys (as those of a dict do). *)
Lemma merge_items_lookup resolves its :
  NoDup (keys its) →
  ∀ result merged, merge_items resolves result its = Ok (VDict merged) →
  ∀ k,
    match dict_get k its with
    | None => dict_get k merged = dict_get k result
    | Some v =>
        match dict_get k result, v with
        | Some (VDict a), VDict b =>
            resolves = true
            ∧ ∃ m, merge_body resolves (VDict a) (VDict b) = Ok m
                   ∧ dict_get k merged = Some m
        | _, _ => dict_get k merged = Some v
        end
    end.
Proof.
  unfold keys. induction its as [|[key value] rest IH]; intros Hnd result merged Hm k.
  - simpl in *. by inversion Hm.
  - simpl in Hnd. apply NoDup_cons in Hnd as [Hkey Hnd].
    assert (Hrest : dict_get key rest = None) by by apply dict_get_None.
    assert (Hstep : ∀ x, merge_items resolves (dict_set key x result) rest
                         = Ok (VDict merged) →
              (if String.eqb k key then dict_get k merged = Some x
               else match dict_get k rest with
                    | None => dict_get k merged = dict_get k result
                    | Some v =>
                        match dict_get k result, v with
                        | Some (VDict a), VDict b =>
                            resolves = true
                            ∧ ∃ m, merge_body resolves (VDict a) (VDict b)
                                   = Ok m
                                   ∧ dict_get k merged = Some m
                        | _, _ => dict_get k merged = Some v
                        end
                    end)).
    { intros x Hx. specialize (IH Hnd _ _ Hx k).
      destruct (String.eqb k key) eqn:E.
      - apply String.eqb_eq in E as ->. rewrite Hrest in IH.
        by rewrite IH, dict_get_set_eq.
      - apply String.eqb_neq in E. by rewrite dict_get_set_ne in IH. }
    simpl in Hm |- *.
    destruct (dict_get key result) as [old|] eqn:Hold.
    + destruct old, value;
        try (specialize (Hstep _ Hm); destruct (String.eqb k key) eqn:E;
             [apply String.eqb_eq in E as ->; by rewrite Hold | done]).
      destruct resolves; [|done].
      destruct (merge_body true (VDict d) (VDict d0)) as [m|] eqn:Hrec;
        simpl in Hm; [|done].
      specialize (Hstep _ Hm). destruct (String.eqb k key) eqn:E; [|done].
      apply String.eqb_eq in E as ->. rewrite Hold. eauto.
    + specialize (Hstep _ Hm). destruct (String.eqb k key) eqn:E; [|done].
      apply String.eqb_eq in E as ->. rewrite Hold. by destruct value.
Qed.

(** The module never binds the name that line 104 calls. *)
Lemma deep_merge_unbound : name_bound "deep_merge" = false.
Proof. reflexivity. Qed.

(** Whenever [_deep_merge] returns, no key was bound to a mapping on both
    sides, and every key of the result comes from the override when it is
    there and from the base otherwise. *)
Lemma _deep_merge_flat_lookup A B merged :
  NoDup (keys B) →
  _deep_merge (VDict A) (VDict B) = Ok (VDict merged) →
  ∀ k,
    match dict_get k B with
    | None => dict_get k merged = dict_get k A
    | Some b =>
        dict_get k merged = Some b
        ∧ ¬ (is_dict b = true
             ∧ ∃ a, dict_get k A = Some a ∧ is_dict a = true)
    end.
Proof.
  intros Hnd Hm k. unfold _deep_merge in Hm.
  rewrite deep_merge_unbound, merge_body_items in Hm.
  pose proof (merge_items_lookup false B Hnd A merged Hm k) as H.
  destruct (dict_get k B) as [b|]; [|done].
  destruct (dict_get k A) as [a|] eqn:HA.
  - destruct a, b; try (split; [done|]; intros [? (a' & [= <-] & ?)]; done).
    by destruct H as [? _].
  - split; [by destruct b|]. by intros [_ (a & ? & _)].
Qed.

(** It raises as soon as one key is bound to a mapping on both sides. *)
Lemma _deep_merge_nested_raises A B k a b :
  NoDup (keys B) →
  dict_get k A = Some (VDict a) → dict_get k B = Some (VDict b) →
  _deep_merge (VDict A) (VDict B) = Raise (NameError "deep_merge").
Proof.
  intros Hnd HA HB. unfold _deep_merge.
  rewrite deep_merge_unbound, merge_body_items.
  assert (Hall : ∀ its result,
            merge_items false result its = Raise (NameError "deep_merge")
            ∨ ∃ m, merge_items false result its = Ok (VDict m)).
  { induction its as [|[key value] rest IH]; intros result; simpl; [eauto|].
    destruct (dict_get key result) as [[]|]; try apply IH.
    destruct value; try apply IH. by left. }
  destruct (Hall B A) as [?|[m Hm]]; [done|].
  pose proof (merge_items_lookup false B Hnd A m Hm k) as H.
  rewrite HA, HB in H. by destruct H as [? _].
Qed.

Lemma merge_items_true_total its :
  (∀ k v a, (k, v) ∈ its → is_dict v = true →
     ∃ m, merge_body true (VDict a) v = Ok (VDict m)) →
  ∀ result, ∃ m, merge_items true result its = Ok (VDict m).
Proof.
  induction its as [|[key value] rest IH]; intros Hrec result; simpl; [eauto|].
  assert (Hrest : ∀ r, ∃ m, merge_items true r rest = Ok (VDict m)).
  { apply IH. intros k v a Hin. apply (Hrec k). by right. }
  destruct (dict_get key result) as [[]|]; try apply Hrest.
  destruct value; try apply Hrest.
  destruct (Hrec key (VDict d0) d) as [m ->]; [left | done |].
  simpl. apply Hrest.
Qed.

Lemma vsize_item k v (d : dict) : (k, v) ∈ d → (vsize v < vsize (VDict d))%nat.
Proof.
  induction d as [|[k' v'] d IH]; intros Hin.
  - by apply elem_of_nil in Hin.
  - apply elem_of_cons in Hin as [[= <- <-]|Hin].
    + simpl. lia.
    + specialize (IH Hin). simpl in *. lia.
Qed.

(** The recursive merge always returns a mapping on two mappings. *)
Lemma deep_merge_recursive_total A B :
  ∃ m, deep_merge_recursive (VDict A) (VDict B) = Ok (VDict m).
Proof.
  unfold deep_merge_recursive.
  remember (vsize (VDict B)) as n eqn:Hn.
  revert A B Hn. induction (lt_wf n) as [n _ IH]. intros A B ->.
  rewrite merge_body_items. apply merge_items_true_total.
  intros k v a Hin Hd. destruct v as [| | | | | | | | | | |d]; try done.
  eapply IH; [|reflexivity]. by eapply vsize_item.
Qed.

(** The recursive merge meets the four clauses of the deep-merge
    property. *)
Lemma deep_merge_recursive_lookup A B :
  NoDup (keys B) →
  ∃ merged,
    deep_merge_recursive (VDict A) (VDict B) = Ok (VDict merged)
    ∧ ∀ k,
        match dict_get k B with
        | None => dict_get k merged = dict_get k A
        | Some b =>
            match dict_get k A, b with
            | Some (VDict a'), VDict b' =>
                ∃ m, deep_merge_recursive (VDict a') (VDict b') = Ok m
                     ∧ dict_get k merged = Some m
            | _, _ => dict_get k merged = Some b
            end
        end.
Proof.
  intros Hnd. destruct (deep_merge_recursive_total A B) as [merged Hm].
  exists merged. split; [done|]. intros k.
  unfold deep_merge_recursive in *. rewrite merge_body_items in Hm.
  pose proof (merge_items_lookup true B Hnd A merged Hm k) as H.
  destruct (dict_get k B) as [b|]; [|done].
  destruct (dict_get k A) as [[]|]; try done.
  destruct b; try done. by destruct H as [_ H].
Qed.

(** C1 (the code departs from the claim): on two documents that both give
    [api_config] as a mapping, [_deep_merge] raises [NameError] where the
    claim has the two mappings merged recursively; the recursive merge of
    the docstring returns the merged mapping. *)
Theorem deep_merge_nested_name_error :
  _deep_merge base_document override_document = Raise (NameError "deep_merge")
  ∧ deep_merge_recursive base_document override_document
    = Ok (VDict [("api_config",
                  VDict [("host", VStr "0.0.0.0"); ("port", VInt 8080)])]).
Proof. split; reflexivity. Qed.

End MergeFacts.

(** ** The deep merge on the store *)

Section StoreFacts.
Import Store.

Lemma sget_sset_ne k k' v d : k ≠ k' → sget k (sset k' v d) = sget k d.
Proof.
  intros Hne. induction d as [|[k'' v''] d IH]; simpl.
  - destruct (String.eqb k k') eqn:E; [|done].
    apply String.eqb_eq in E. contradiction.
  - destruct (String.eqb k' k'') eqn:E; simpl.
    + apply String.eqb_eq in E as <-.
      destruct (String.eqb k k') eqn:E'; [|done].
      apply String.eqb_eq in E'. contradiction.
    + by rewrite IH.
Qed.

(** The loop writes the copy and nothing else, and leaves in the copy
    every key that the override does not have. *)
Lemma merge_loop_frame its :
  ∀ (σ : store) result r,
    σ !! result = Some (ODict r) →
    (∀ l, l ≠ result → (merge_loop result its σ).2 !! l = σ !! l)
    ∧ ∃ r', (merge_loop result its σ).2 !! result = Some (ODict r')
            ∧ ∀ k, sget k its = None → sget k r' = sget k r.
Proof.
  induction its as [|[key value] rest IH]; intros σ result r Hres; simpl.
  - split; [done|]. eauto.
  - rewrite Hres.
    destruct (match sget key r with Some v => is_dict σ v | None => false end
              && is_dict σ value).
    + simpl. split; [done|]. exists r. split; [done|]. done.
    + destruct (IH (<[result := ODict (sset key value r)]> σ) result
                  (sset key value r)) as [Hframe (r' & Hr' & Hkeep)].
      { by rewrite lookup_insert_eq. }
      split.
      * intros l Hl. rewrite Hframe by done. by rewrite lookup_insert_ne.
      * exists r'. split; [done|]. intros k Hk.
        destruct (String.eqb k key) eqn:E; [done|].
        apply String.eqb_neq in E. rewrite Hkeep by done.
        by apply sget_sset_ne.
Qed.

(** C8: on two mappings of the store, [_deep_merge] changes no object that
    existed before the call (the base, its nested mappings and the override
    included); when it returns, the result is a mapping at a location that
    did not exist, and every key that the override lacks is bound in it to
    the very value it has in the base, so a nested mapping of the base is
    shared by reference. *)
Theorem deep_merge_leaves_base_untouched (σ : store) l1 l2 d1 d2 :
  σ !! l1 = Some (ODict d1) →
  σ !! l2 = Some (ODict d2) →
  (∀ l, l ∈ dom σ →
     (Store._deep_merge (SRef l1) (SRef l2) σ).2 !! l = σ !! l)
  ∧ ∀ res, (Store._deep_merge (SRef l1) (SRef l2) σ).1 = Ok res →
      ∃ l items,
        res = SRef l ∧ (l ∉ dom σ)
        ∧ (Store._deep_merge (SRef l1) (SRef l2) σ).2 !! l = Some (ODict items)
        ∧ ∀ k, sget k d2 = None → sget k items = sget k d1.
Proof.
  intros H1 H2. unfold Store._deep_merge, copy, alloc. rewrite H1.
  set (l := fresh (dom σ)).
  assert (Hl : l ∉ dom σ) by apply is_fresh.
  assert (Hl2 : l ≠ l2).
  { intros ->. apply Hl. apply elem_of_dom. eauto. }
  rewrite lookup_insert_ne, H2 by done.
  destruct (merge_loop_frame d2 (<[l := ODict d1]> σ) l d1)
    as [Hframe (r' & Hr' & Hkeep)].
  { by rewrite lookup_insert_eq. }
  destruct (merge_loop l d2 (<[l:=ODict d1]> σ)) as [[[]|e] σ2] eqn:Hrun;
    simpl in *.
  - split.
    + intros l' Hl'. rewrite Hframe by (intros ->; done).
      apply lookup_insert_ne. by intros ->.
    + intros res [= <-]. exists l, r'. done.
  - split; [|done].
    intros l' Hl'. rewrite Hframe by (intros ->; done).
    apply lookup_insert_ne. by intros ->.
Qed.

Lemma deep_merge_leaves_base_untouched_witness :
  sample_store !! 0%nat
  = Some (ODict [("gcp_config", SRef 2%nat); ("debug", SBool false)])
  ∧ sample_store !! 1%nat = Some (ODict [("debug", SBool true)])
  ∧ (∀ l, l ∈ dom sample_store →
       (Store._deep_merge (SRef 0%nat) (SRef 1%nat) sample_store).2 !! l
       = sample_store !! l)
  ∧ ∀ res,
      (Store._deep_merge (SRef 0%nat) (SRef 1%nat) sample_store).1 = Ok res →
      ∃ l items,
        res = SRef l ∧ (l ∉ dom sample_store)
        ∧ (Store._deep_merge (SRef 0%nat) (SRef 1%nat) sample_store).2 !! l
          = Some (ODict items)
        ∧ ∀ k, sget k [("debug", SBool true)] = None →
               sget k items
               = sget k [("gcp_config", SRef 2%nat); ("debug", SBool false)].
Proof.
  split; [reflexivity|]. split; [reflexivity|].
  apply (deep_merge_leaves_base_untouched sample_store 0%nat 1%nat);
    reflexivity.
Defined.

(** On the sample store the merge returns a new mapping whose
    [gcp_config] is the base's own nested mapping (location 2). *)
Example deep_merge_sample_run :
  (Store._deep_merge (SRef 0%nat) (SRef 1%nat) sample_store).1 = Ok (SRef 3%nat)
  ∧ (Store._deep_merge (SRef 0%nat) (SRef 1%nat) sample_store).2 !! 3%nat
    = Some (ODict [("gcp_config", SRef 2%nat); ("debug", SBool true)]).
Proof. split; vm_compute; reflexivity. Qed.

End StoreFacts.

(** ** Configuration documents and the environment name *)

Section ConfigFacts.
Import Config.




(** Strings that the parser leaves alone do not change what it returns. *)
Lemma classify_all_plain pre rest :
  Forall (λ t, plain_token t = true) pre →
  classify_all (pre ++ rest)
  = map (λ t, (t, classify t)) pre ++ classify_all rest.
Proof.
  induction 1 as [|t pre Ht _ IH]; [done|].
  simpl. unfold plain_token in Ht. apply andb_prop in Ht as [Hdd _].
  destruct (String.eqb t "--"); [done|]. by rewrite IH.
Qed.

Lemma consume_plain pre rest environment :
  Forall (λ t, plain_token t = true) pre →
  consume (map (λ t, (t, classify t)) pre ++ rest) environment
  = consume rest environment.
Proof.
  induction 1 as [|t pre Ht _ IH]; [done|].
  simpl. unfold plain_token in Ht. apply andb_prop in Ht as [_ Hc].
  by destruct (classify t) as [| |[[]|] ?|].
Qed.

Lemma no_ambiguity_plain pre :
  Forall (λ t, plain_token t = true) pre →
  existsb (λ tc : string * token_class,
             match tc.2 with Ambiguous => true | _ => false end)
    (map (λ t, (t, classify t)) pre) = false.
Proof.
  induction 1 as [|t pre Ht _ IH]; [done|].
  simpl. rewrite IH. unfold plain_token in Ht.
  apply andb_prop in Ht as [_ Hc]. by destruct (classify t) as [| |[[]|] ?|].
Qed.

(** The parse of a command line made of strings the parser leaves alone
    around an option [opt], whose strings classify as [toks] and set the
    environment to [v]. *)
Lemma parse_around_option pre opt post toks v default :
  Forall (λ t, plain_token t = true) pre →
  Forall (λ t, plain_token t = true) post →
  (∀ rest, classify_all (opt ++ rest) = toks ++ classify_all rest) →
  existsb (λ tc : string * token_class,
             match tc.2 with Ambiguous => true | _ => false end) toks = false →
  (∀ rest environment, consume (toks ++ rest) environment = consume rest v) →
  parse_known_args (pre ++ opt ++ post) default = Ok v.
Proof.
  intros Hpre Hpost Hcls Hamb Hcons. unfold parse_known_args.
  rewrite classify_all_plain, Hcls by done.
  rewrite <- (app_nil_r post), classify_all_plain by done. simpl.
  rewrite app_nil_r, !existsb_app, !no_ambiguity_plain, Hamb by done. simpl.
  rewrite consume_plain, Hcons by done.
  rewrite <- (app_nil_r (map _ post)).
  by rewrite consume_plain.
Qed.

(** C5, as the claim has it, fails: a flag that is supplied does not
    always decide.  After [-e x], a [-h] makes the parser print its help
    and exit with status 0; [-e -foo] exits with status 2, since [-foo]
    looks like an option and is not taken as the value; and [-e=--]
    resolves to the empty list that the parser stores for the separator,
    not to the text ["--"]. *)
Lemma environment_flag_does_not_always_decide :
  _get_env ["my_bot_name"; "-e"; "x"; "-h"] {["ENVIRONMENT" := "y"]}
  = Raise (SystemExit 0)
  ∧ _get_env ["my_bot_name"; "-e"; "-foo"] {["ENVIRONMENT" := "y"]}
    = Raise (SystemExit 2)
  ∧ _get_env ["my_bot_name"; "-e=--"] {["ENVIRONMENT" := "y"]}
    = Ok EnvEmptyList.
Proof. split_and!; vm_compute; reflexivity. Qed.

(** C5, amended: the command-line flag wins over the environment variable,
    which wins over ["local"].  Among strings that the parser leaves alone
    ([pre], [post]), a flag [-e v] or [--environment v] (also written
    [-e=v], [--environment=v]) makes [v] the resolved environment whatever
    the variable holds; without the flag the resolved environment is the
    value of [ENVIRONMENT] when it is set and ["local"] otherwise. *)
Theorem environment_precedence (prog : string) (pre post : list string)
  (v : string) (environ : gmap string string) :
  Forall (λ t, plain_token t = true) pre →
  Forall (λ t, plain_token t = true) post →
  value_token v = true →
  _get_env (prog :: pre ++ ["-e"; v] ++ post) environ = Ok (EnvStr v)
  ∧ _get_env (prog :: pre ++ ["--environment"; v] ++ post) environ
    = Ok (EnvStr v)
  ∧ _get_env (prog :: pre ++ ["-e=" +:+ v] ++ post) environ = Ok (EnvStr v)
  ∧ _get_env (prog :: pre ++ ["--environment=" +:+ v] ++ post) environ
    = Ok (EnvStr v)
  ∧ _get_env (prog :: pre ++ post) environ
    = Ok (EnvStr match environ !! "ENVIRONMENT" with
                 | Some y => y
                 | None => "local"
                 end).
Proof.
  intros Hpre Hpost Hv. unfold value_token in Hv.
  apply andb_prop in Hv as [Hdd Hv]. apply negb_true_iff in Hdd.
  destruct (classify v) eqn:Hc; try done. clear Hv.
  unfold _get_env. simpl tail.
  repeat split.
  - apply (parse_around_option pre ["-e"; v] post
             [("-e", Opt (Some Env) None); (v, Arg)]);
      [done | done | | done | done].
    intros rest. simpl. by rewrite Hdd, Hc.
  - apply (parse_around_option pre ["--environment"; v] post
             [("--environment", Opt (Some Env) None); (v, Arg)]);
      [done | done | | done | done].
    intros rest. simpl. by rewrite Hdd, Hc.
  - apply (parse_around_option pre ["-e=" +:+ v] post
             [("-e=" +:+ v, Opt (Some Env) (Some v))]);
      [done | done | | done | ].
    + intros rest. by destruct v as [|a v'].
    + intros rest environment. simpl. by rewrite Hdd.
  - apply (parse_around_option pre ["--environment=" +:+ v] post
             [("--environment=" +:+ v, Opt (Some Env) (Some v))]);
      [done | done | | done | ].
    + intros rest. by destruct v as [|a v'].
    + intros rest environment. simpl. by rewrite Hdd.
  - assert (Hall : Forall (λ t, plain_token t = true) (pre ++ post))
      by by apply Forall_app.
    unfold parse_known_args.
    rewrite <- (app_nil_r (pre ++ post)), classify_all_plain by done.
    simpl. rewrite app_nil_r, no_ambiguity_plain by done.
    rewrite <- (app_nil_r (map _ (pre ++ post))), consume_plain by done.
    simpl. by destruct (environ !! "ENVIRONMENT").
Qed.

Lemma environment_precedence_witness :
  Forall (λ t, plain_token t = true) ["--reload"]
  ∧ Forall (λ t, plain_token t = true) ["serve"; "-5"]
  ∧ value_token "x" = true
  ∧ _get_env ("my_bot_name" :: ["--reload"] ++ ["-e"; "x"] ++ ["serve"; "-5"])
      {["ENVIRONMENT" := "y"]} = Ok (EnvStr "x")
  ∧ _get_env ("my_bot_name" :: ["--reload"] ++ ["serve"; "-5"])
      {["ENVIRONMENT" := "y"]} = Ok (EnvStr "y")
  ∧ _get_env ("my_bot_name" :: ["--reload"] ++ ["serve"; "-5"]) ∅
    = Ok (EnvStr "local").
Proof.
  assert (H1 : Forall (λ t, plain_token t = true) ["--reload"])
    by (repeat constructor).
  assert (H2 : Forall (λ t, plain_token t = true) ["serve"; "-5"])
    by (repeat constructor).
  split; [exact H1|]. split; [exact H2|]. split; [reflexivity|].
  split.
  - exact (proj1 (environment_precedence "my_bot_name" ["--reload"]
                    ["serve"; "-5"] "x" {["ENVIRONMENT" := "y"]}
                    H1 H2 eq_refl)).
  - split.
    + exact (proj2 (proj2 (proj2 (proj2
               (environment_precedence "my_bot_name" ["--reload"]
                  ["serve"; "-5"] "x" {["ENVIRONMENT" := "y"]}
                  H1 H2 eq_refl))))).
    + exact (proj2 (proj2 (proj2 (proj2
               (environment_precedence "my_bot_name" ["--reload"]
                  ["serve"; "-5"] "x" ∅ H1 H2 eq_refl))))).
Defined.

End ConfigFacts.

(** ** The local file system *)

Section FsFacts.

Implicit Types (t : gmap (list string) node) (f : filesystem).

Lemma node_at_insert t L n l :
  L ≠ [] →
  node_at (<[L := n]> t) l = if decide (l = L) then Some n else node_at t l.
Proof.
  intros HL. destruct l as [|x l]; simpl.
  - by rewrite decide_False.
  - case_decide as E.
    + rewrite E. apply lookup_insert_eq.
    + by rewrite lookup_insert_ne.
Qed.

Lemma node_at_None_ne t l : node_at t l = None → l ≠ [].
Proof. by intros H ->. Qed.

Lemma check_dirs_ok t path locs :
  check_dirs t path locs = Ok ()
  ↔ Forall (λ l, node_at t l = Some Dir) locs.
Proof.
  induction locs as [|l locs IH]; simpl; [done|].
  rewrite Forall_cons. destruct (node_at t l) as [[]|]; [| |];
    try (split; [done | by intros [? _]]).
  rewrite IH. tauto.
Qed.

Lemma asks_for_directory_names_dir path :
  asks_for_directory path = true → names_dir path = true.
Proof.
  unfold asks_for_directory, names_dir. cbv zeta.
  destruct (String.eqb (List.last (split_on "/" path) "") ""); [done|].
  done.
Qed.

(** What a successful write checked and did. *)
Lemma write_file_ok path content f f' :
  write_file path content f = Ok f'
  ↔ path ≠ ""
    ∧ Forall (λ l, node_at (fs_tree f) l = Some Dir)
        (start_of f path :: removelast (visited f path))
    ∧ node_at (fs_tree f) (locate f path) ≠ Some Dir
    ∧ names_dir path = false
    ∧ f' = fs_with f (<[locate f path := File content]> (fs_tree f)).
Proof.
  unfold write_file. destruct (String.eqb_spec path "") as [->|Hp].
  { split; [done | by intros [? _]]. }
  rewrite <- check_dirs_ok with (path := path).
  destruct (check_dirs (fs_tree f) path _) as [[]|e]; simpl.
  2: { split; [done | by intros (_ & ? & _)]. }
  pose proof (asks_for_directory_names_dir path) as Hask.
  destruct (asks_for_directory path).
  { rewrite Hask by done. split; [done | by intros (_ & _ & _ & ? & _)]. }
  clear Hask.
  destruct (node_at (fs_tree f) (locate f path)) as [[c|]|] eqn:Hn;
    [| |]; destruct (names_dir path); simpl;
    split; try done; try (by intros (_ & _ & ? & ? & ?));
    try (by intros [= <-]); try (by intros (_ & _ & _ & _ & ->)).
Qed.

(** Making directories leaves every node as it is, or puts a directory
    where there was nothing. *)
Lemma mkdirs_made_nodes vs :
  ∀ t l, node_at (mkdirs_made t vs) l = node_at t l
         ∨ (node_at t l = None ∧ node_at (mkdirs_made t vs) l = Some Dir).
Proof.
  induction vs as [|v vs IH]; intros t l; simpl; [by left|].
  destruct (node_at t v) as [[]|] eqn:Hv; [by left | apply IH |].
  destruct (IH (<[v := Dir]> t) l) as [Hl|[Hl1 Hl2]].
  - rewrite Hl, node_at_insert by by eapply node_at_None_ne.
    case_decide as E; [right; by rewrite E | by left].
  - rewrite node_at_insert in Hl1 by by eapply node_at_None_ne.
    case_decide; [done|]. by right.
Qed.

(** It touches no location off the walk. *)
Lemma mkdirs_made_outside vs L :
  L ∉ vs → ∀ t, node_at (mkdirs_made t vs) L = node_at t L.
Proof.
  induction vs as [|v vs IH]; intros HL t; simpl; [done|].
  apply not_elem_of_cons in HL as [Hne HL].
  destruct (node_at t v) as [[]|] eqn:Hv; [done | by apply IH |].
  rewrite IH, node_at_insert by first [done | by eapply node_at_None_ne].
  by rewrite decide_False.
Qed.

(** A file put off the walk before the directories are made can as well
    be put there after. *)
Lemma mkdirs_made_insert_file vs L c :
  L ≠ [] → L ∉ vs →
  ∀ t, mkdirs_made (<[L := File c]> t) vs
       = <[L := File c]> (mkdirs_made t vs).
Proof.
  intros HL. induction vs as [|v vs IH]; intros Hout t; simpl; [done|].
  apply not_elem_of_cons in Hout as [Hne Hout].
  rewrite node_at_insert by done. rewrite decide_False by done.
  destruct (node_at t v) as [[]|] eqn:Hv; [done | by apply IH |].
  rewrite insert_insert_ne by done. by apply IH.
Qed.

(** The error of the walk depends on the nodes of the walk only. *)
Lemma refused_step_agree t t' path comps :
  ∀ cur seen made skipped,
    (∀ l, l ∈ cur :: trail cur comps → node_at t l = node_at t' l) →
    refused_step t path cur seen comps made skipped
    = refused_step t' path cur seen comps made skipped.
Proof.
  induction comps as [|c rest IH]; intros cur seen made skipped Hagree.
  - simpl. rewrite (Hagree cur) by left. done.
  - cbn [refused_step trail] in *.
    rewrite <- (Hagree cur) by left.
    destruct (String.eqb c "") eqn:E1; simpl in Hagree.
    { by apply IH. }
    destruct (is_file (node_at t cur)).
    + destruct (String.eqb c ".") eqn:E2; simpl; [|done].
      destruct made; simpl; [|done]. by apply IH.
    + destruct (String.eqb c ".") eqn:E2; simpl in Hagree.
      * rewrite <- (Hagree cur) by left. by apply IH.
      * rewrite <- (Hagree (step cur c)) by (right; left).
        apply IH. intros l Hl. apply Hagree. by right.
Qed.

Lemma makedirs_ok path f f' :
  makedirs path f = Ok f'
  ↔ path ≠ ""
    ∧ node_at (fs_tree f) (start_of f path) = Some Dir
    ∧ makedirs_error f path = None
    ∧ f' = fs_with f (mkdirs_made (fs_tree f) (visited f path)).
Proof.
  unfold makedirs. destruct (String.eqb_spec path "") as [->|Hp].
  { split; [done | by intros [? _]]. }
  simpl. destruct (node_at (fs_tree f) (start_of f path)) as [[]|]; simpl;
    try (split; [done | by intros (_ & ? & _)]).
  destruct (makedirs_error f path) as [e|]; simpl.
  - split; [done | by intros (_ & _ & ? & _)].
  - split; [by intros [= <-] | by intros (_ & _ & _ & ->)].
Qed.

Lemma makedirs_nodes path f f' :
  makedirs path f = Ok f' →
  fs_cwd f' = fs_cwd f
  ∧ ∀ l, node_at (fs_tree f') l = node_at (fs_tree f) l
         ∨ (node_at (fs_tree f) l = None
            ∧ node_at (fs_tree f') l = Some Dir).
Proof.
  intros (_ & _ & _ & ->)%makedirs_ok. split; [done|].
  apply mkdirs_made_nodes.
Qed.

Lemma last_cons_default {A} (x : A) (l : list A) d d' :
  List.last (x :: l) d = List.last (x :: l) d'.
Proof.
  revert x. induction l as [|y l IH]; intros x; [done|].
  change (List.last (y :: l) d = List.last (y :: l) d'). apply IH.
Qed.

Lemma trail_app cur l1 l2 :
  trail cur (l1 ++ l2)
  = trail cur l1 ++ trail (List.last (trail cur l1) cur) l2.
Proof.
  revert cur. induction l1 as [|c l1 IH]; intros cur; [done|].
  simpl. destruct (String.eqb c "" || String.eqb c "."); [apply IH|].
  simpl. rewrite IH. f_equal. f_equal.
  destruct (trail (step cur c) l1) eqn:E; [done|].
  by rewrite (last_cons_default _ _ (step cur c) cur).
Qed.

Lemma trail_snoc_empty cur l : trail cur (l ++ [""]) = trail cur l.
Proof. rewrite trail_app. simpl. by rewrite app_nil_r. Qed.

(** Stripping the slashes at the end of a path does not change its walk. *)
Lemma trail_rstrip r :
  ∀ cur, trail cur (split_on "/" (String.rev (lstrip_slash r)))
         = trail cur (split_on "/" (String.rev r)).
Proof.
  induction r as [|c r IH]; intros cur; [done|].
  destruct (Ascii.eqb_spec c "/") as [->|Hc].
  - change (lstrip_slash (String "/" r)) with (lstrip_slash r).
    rewrite string_rev_cons, split_on_app_sep. simpl split_on at 2.
    rewrite trail_snoc_empty. apply IH.
  - by rewrite lstrip_slash_other.
Qed.

Lemma dirname_walk (p : string) :
  names_dir p = false → dirname p ≠ "" →
  startswith (dirname p) "/" = startswith p "/"
  ∧ ∃ comps n,
      split_on "/" p = comps ++ [n]
      ∧ String.eqb n "" || String.eqb n "." = false
      ∧ ∀ cur, trail cur (split_on "/" (dirname p)) = trail cur comps.
Proof.
  intros Hnd Hd. unfold dirname in *.
  destruct (last_name p) as [[Hno _]|(a & n & -> & Hn & Hsplit)].
  { rewrite drop_to_slash_none in Hd by by rewrite has_char_rev. done. }
  rewrite dirname_head in * by done.
  assert (Hp : split_on "/" (a +:+ String "/" n) = split_on "/" a ++ [n])
    by by rewrite split_on_app_sep, Hsplit.
  assert (Hlast : String.eqb n "" || String.eqb n "." = false).
  { unfold names_dir in Hnd. rewrite Hp, last_last in Hnd.
    by destruct (String.eqb n ""), (String.eqb n "."). }
  assert (Hhead : ∀ cur, trail cur (split_on "/" (a +:+ String "/" ""))
                         = trail cur (split_on "/" a)).
  { intros cur. rewrite split_on_app_sep. simpl split_on at 2.
    apply trail_snoc_empty. }
  destruct (nonempty (a +:+ String "/" "")
            && nonempty (lstrip_slash (a +:+ String "/" ""))) eqn:Hcond.
  - split.
    + destruct a as [|c a].
      { exfalso. revert Hcond. done. }
      change (String c a +:+ String "/" "") with (String c (a +:+ String "/" "")) in *.
      change (String c a +:+ String "/" n) with (String c (a +:+ String "/" n)).
      destruct (rstrip_slash_first c (a +:+ String "/" "")) as [E|[y E]];
        [by rewrite E in Hd|].
      by rewrite E, !startswith_cons.
    + exists (split_on "/" a), n. split; [done|]. split; [done|].
      intros cur. unfold rstrip_slash. rewrite trail_rstrip.
      rewrite string_rev_involutive. apply Hhead.
  - split.
    + destruct a as [|c a].
      { change (startswith (String "/" "") "/"
                = startswith (String "/" n) "/").
        by rewrite !startswith_cons. }
      change (String c a +:+ String "/" "") with (String c (a +:+ String "/" "")).
      change (String c a +:+ String "/" n) with (String c (a +:+ String "/" n)).
      by rewrite !startswith_cons.
    + exists (split_on "/" a), n. split; [done|]. split; [done|]. apply Hhead.
Qed.

Lemma visited_dirname f p :
  names_dir p = false → dirname p ≠ "" →
  visited f p = visited f (dirname p) ++ [locate f p].
Proof.
  intros Hnd Hd.
  destruct (dirname_walk p Hnd Hd) as (Hstart & comps & n & Hp & Hn & Htrail).
  assert (Hs : start_of f (dirname p) = start_of f p)
    by (unfold start_of; by rewrite Hstart).
  unfold locate, visited. rewrite Hs, Htrail, Hp, trail_app. simpl.
  rewrite Hn. by rewrite last_last.
Qed.

Lemma write_file_nodes path content f f' :
  write_file path content f = Ok f' →
  fs_cwd f' = fs_cwd f
  ∧ locate f path ≠ []
  ∧ ∀ l, node_at (fs_tree f') l
         = if decide (l = locate f path) then Some (File content)
           else node_at (fs_tree f) l.
Proof.
  intros (_ & _ & Hn & _ & ->)%write_file_ok.
  assert (locate f path ≠ []) by (intros E; by rewrite E in Hn).
  split; [done|]. split; [done|]. intros l. by apply node_at_insert.
Qed.

Lemma locate_cwd f f' path :
  fs_cwd f' = fs_cwd f → locate f' path = locate f path.
Proof. intros H. unfold locate, visited, start_of. by rewrite H. Qed.

(** A write followed by the making of directories gives what the making
    of directories followed by the write gives, when the directories are
    made without going through the file written. *)
Lemma write_then_makedirs p c d f f1 f2 :
  write_file p c f = Ok f1 → makedirs d f1 = Ok f2 →
  locate f p ∉ visited f d →
  ∃ f1', makedirs d f = Ok f1' ∧ write_file p c f1' = Ok f2.
Proof.
  intros (Hp & Hdirs & Hn & Hnd & ->)%write_file_ok
         (Hd & Hstart & Herr & ->)%makedirs_ok Hout.
  assert (HL : locate f p ≠ []) by (intros E; by rewrite E in Hn).
  simpl in *. change (start_of (fs_with f _) d) with (start_of f d) in *.
  change (visited (fs_with f _) d) with (visited f d) in *.
  rewrite node_at_insert in Hstart by done.
  destruct (decide (start_of f d = locate f p)) as [E|Hne]; [done|].
  rewrite mkdirs_made_insert_file by done.
  exists (fs_with f (mkdirs_made (fs_tree f) (visited f d))). split.
  - apply makedirs_ok. split; [done|]. split; [done|]. split; [|done].
    rewrite <- Herr. unfold makedirs_error.
    change (start_of (fs_with f _) d) with (start_of f d). simpl.
    apply refused_step_agree. intros l Hl.
    rewrite node_at_insert by done. rewrite decide_False; [done|].
    intros ->. apply elem_of_cons in Hl as [E|Hl]; [by symmetry in E|].
    by apply Hout.
  - apply write_file_ok. split; [done|].
    change (start_of (fs_with f _) p) with (start_of f p).
    change (visited (fs_with f _) p) with (visited f p).
    change (locate (fs_with f _) p) with (locate f p). simpl.
    split; [|by rewrite mkdirs_made_outside].
    eapply Forall_impl; [exact Hdirs|]. intros l Hl. simpl in Hl.
    destruct (mkdirs_made_nodes (visited f d) (fs_tree f) l) as [->|[? _]];
      congruence.
Qed.

(** Two writes to different files can be swapped. *)
Lemma write_then_write p c q c' f f1 f2 :
  write_file p c f = Ok f1 → write_file q c' f1 = Ok f2 →
  locate f p ≠ locate f q →
  ∃ f1', write_file q c' f = Ok f1' ∧ write_file p c f1' = Ok f2.
Proof.
  intros (Hp & Hdp & Hnp & Hndp & ->)%write_file_ok
         (Hq & Hdq & Hnq & Hndq & ->)%write_file_ok Hne.
  assert (HLp : locate f p ≠ []) by (intros E; by rewrite E in Hnp).
  change (start_of (fs_with f _) q) with (start_of f q) in *.
  change (visited (fs_with f _) q) with (visited f q) in *.
  change (locate (fs_with f _) q) with (locate f q) in *. simpl in *.
  rewrite node_at_insert in Hnq by done.
  rewrite decide_False in Hnq by done.
  assert (HLq : locate f q ≠ []) by (intros E; by rewrite E in Hnq).
  exists (fs_with f (<[locate f q := File c']> (fs_tree f))). split.
  - apply write_file_ok. split; [done|]. split; [|done].
    eapply Forall_impl; [exact Hdq|]. intros l Hl. simpl in Hl.
    rewrite node_at_insert in Hl by done. by case_decide.
  - apply write_file_ok. split; [done|].
    change (start_of (fs_with f _) p) with (start_of f p).
    change (visited (fs_with f _) p) with (visited f p).
    change (locate (fs_with f _) p) with (locate f p). simpl.
    split; [|split; [|split; [done|]]].
    + eapply Forall_impl; [exact Hdp|]. intros l Hl. simpl in Hl.
      rewrite node_at_insert by done. case_decide; [congruence | done].
    + rewrite node_at_insert by done. by rewrite decide_False.
    + unfold fs_with. simpl. f_equal. by apply insert_insert_ne.
Qed.

End FsFacts.

(** ** The 418 handler *)

Section AppFacts.
Import App.

(** C9: when the endpoint that serves a request raises the custom error
    with name [n], the response has status 418 and the JSON content
    [{"message": "Oops! <n> did something. There goes a raibow..."}]. *)
Theorem unicorn_gives_418 (endpoint : Request → handled) (request : Request)
  (n : string) :
  endpoint request = RaisesUnicorn {| name := n |} →
  respond endpoint request
  = Json {| status_code := 418;
            content :=
              Config.VDict
                [("message",
                  Config.VStr ("Oops! " +:+ n
                               +:+ " did something. There goes a raibow..."))] |}.
Proof. intros H. unfold respond. by rewrite H. Qed.

Lemma unicorn_gives_418_witness :
  (λ _ : Request, RaisesUnicorn {| name := "Widget" |})
    {| method := "GET"; url_path := "/ping" |}
  = RaisesUnicorn {| name := "Widget" |}
  ∧ respond (λ _, RaisesUnicorn {| name := "Widget" |})
      {| method := "GET"; url_path := "/ping" |}
    = Json {| status_code := 418;
              content :=
                Config.VDict
                  [("message",
                    Config.VStr
                      "Oops! Widget did something. There goes a raibow...")] |}.
Proof.
  split; [reflexivity|].
  apply (unicorn_gives_418 (λ _, RaisesUnicorn {| name := "Widget" |})
           {| method := "GET"; url_path := "/ping" |} "Widget").
  reflexivity.
Defined.

End AppFacts.

(** ** The connectors *)

Section ConnectorFacts.
Import Connectors.

(** Unfolds one layer of the connector monad. *)
Ltac run :=
  unfold try_except, log_and_reraise, logger_info, logger_error, remote,
    fs_read, fs_update, fs_makedirs, plain, getcwd, to_thread, raise, mbind,
    M_bind, mret,
    M_ret in *;
  simpl in *.

(** Both cases of [except Exception]. *)
Ltac case_exn e :=
  let H := fresh "HE" in
  destruct (is_Exception e) eqn:H; simpl; rewrite ?H; simpl.

(** C10: [get_table_data] hands to the service, through [execute_query] and
    with no parameters, the text [SELECT * FROM `<dataset_id>.<table_id>`]
    with the two identifiers copied as they are, followed by
    [ LIMIT <limit>] only when [limit] is given and is not 0; its outcome is
    that of this query.  A limit of 0 gives the query of a missing limit. *)
Theorem get_table_data_query {C Job} (sdk : BigQuerySDK C Job)
  (dataset_id table_id : string) (limit : option Z) (w : world C) :
  table_query dataset_id table_id limit
  = ("SELECT * FROM `" +:+ dataset_id +:+ "." +:+ table_id +:+ "`")
    +:+ match limit with
        | Some n => if n =? 0 then "" else " LIMIT " +:+ pretty n
        | None => ""
        end
  ∧ table_query dataset_id table_id (Some 0)
    = table_query dataset_id table_id None
  ∧ match client_query sdk (table_query dataset_id table_id limit) []
            (cloud w) with
    | (Ok job, c) =>
        (get_table_data sdk dataset_id table_id limit w).1
        = (job_to_dataframe sdk job c).1
        ∧ cloud (get_table_data sdk dataset_id table_id limit w).2
          = (job_to_dataframe sdk job c).2
    | (Raise e, c) =>
        (get_table_data sdk dataset_id table_id limit w).1 = Raise e
        ∧ cloud (get_table_data sdk dataset_id table_id limit w).2 = c
    end.
Proof.
  split; [|split; [done|]].
  - unfold table_query. destruct limit as [n|].
    + destruct (n =? 0); [by rewrite append_empty_r | done].
    + by rewrite append_empty_r.
  - unfold get_table_data, execute_query, query_parameters. run.
    destruct (client_query sdk _ [] (cloud w)) as [[job|e] c]; simpl.
    + destruct (job_to_dataframe sdk job c) as [[df|e] c']; simpl; [done|].
      by case_exn e.
    + by case_exn e.
Qed.

(** C3: when [upload_blob] returns, what it returns is the public URL of
    the blob, whether [is_public] is set or not; the bytes of the local file
    were uploaded under the given name, and with [is_public] set the object
    was then made public, before the return. *)
Theorem upload_blob_returns_url {C} (sdk : StorageSDK C)
  (bucket_name blob_name file_path : string) (is_public : bool)
  (w : world C) (url : string) :
  (upload_blob sdk bucket_name blob_name file_path is_public w).1 = Ok url →
  url = blob_public_url sdk bucket_name blob_name
  ∧ ∃ data c1,
      read_file file_path (fs w) = Ok data
      ∧ blob_upload sdk bucket_name blob_name data (cloud w) = (Ok (), c1)
      ∧ if is_public then
          blob_make_public sdk bucket_name blob_name c1
          = (Ok (),
             cloud (upload_blob sdk bucket_name blob_name file_path
                      is_public w).2)
        else
          cloud (upload_blob sdk bucket_name blob_name file_path
                   is_public w).2 = c1.
Proof.
  unfold upload_blob, blob_upload. run.
  destruct (client_bucket_blob sdk bucket_name blob_name) as [[]|e] eqn:Hh;
    simpl.
  2: { by case_exn e. }
  destruct (read_file file_path (fs w)) as [data|e]; simpl.
  2: { by case_exn e. }
  destruct (blob_send sdk bucket_name blob_name data (cloud w))
    as [[[]|e] c1] eqn:Hup; simpl.
  2: { by case_exn e. }
  destruct is_public; simpl.
  - destruct (blob_make_public sdk bucket_name blob_name c1)
      as [[[]|e] c2] eqn:Hpub; simpl.
    + intros [= <-]. split; [done|]. by exists data, c1.
    + by case_exn e.
  - intros [= <-]. split; [done|]. by exists data, c1.
Qed.

Lemma upload_blob_returns_url_witness :
  (upload_blob mem_storage "reports" "2024/q1.txt" "report.txt" true
     (sample_world ([] : list mem_blob))).1
  = Ok "https://storage.googleapis.com/reports/2024/q1.txt"
  ∧ "https://storage.googleapis.com/reports/2024/q1.txt"
    = blob_public_url mem_storage "reports" "2024/q1.txt"
  ∧ ∃ data c1,
      read_file "report.txt" (fs (sample_world ([] : list mem_blob))) = Ok data
      ∧ blob_upload mem_storage "reports" "2024/q1.txt" data
          (cloud (sample_world ([] : list mem_blob))) = (Ok (), c1)
      ∧ blob_make_public mem_storage "reports" "2024/q1.txt" c1
        = (Ok (),
           cloud (upload_blob mem_storage "reports" "2024/q1.txt"
                    "report.txt" true (sample_world ([] : list mem_blob))).2).
Proof.
  split; [vm_compute; reflexivity|].
  apply (upload_blob_returns_url mem_storage "reports" "2024/q1.txt"
           "report.txt" true (sample_world ([] : list mem_blob))).
  vm_compute; reflexivity.
Defined.

(** *** Errors of the services *)

Lemma passes_on_weaken {C A} (f g : exn → exn → Prop) (m : M (C:=C) A) :
  (∀ e e', f e e' → g e e') → passes_on f m → passes_on g m.
Proof.
  intros Hfg Hm w. destruct (Hm w) as [?|(e & e' & ? & ? & ?)]; [by left|].
  right. exists e, e'. eauto.
Qed.

Lemma passes_on_quiet {C A} f (m : M (C:=C) A) :
  (∀ w, faults (m w).2 = faults w) → passes_on f m.
Proof. intros H w. left. apply H. Qed.

Lemma passes_on_remote {C A} (op : C → outcome A * C) : reraises (remote op).
Proof.
  intros w. unfold remote. destruct (op (cloud w)) as [[a|e] c]; simpl.
  - by left.
  - right. by exists e, e.
Qed.

Lemma passes_on_bind {C A B} f (m : M (C:=C) A) (k : A → M B) :
  passes_on f m → (∀ a, passes_on f (k a)) → passes_on f (m ≫= k).
Proof.
  intros Hm Hk w. unfold mbind, M_bind.
  destruct (Hm w) as [Hq|(e & e' & Hf & Hr & Hrel)].
  - destruct (m w) as [[a|e] w1]; simpl in *.
    + destruct (Hk a w1) as [?|(e & e' & ? & ? & ?)].
      * left. congruence.
      * right. exists e, e'. rewrite <- Hq. eauto.
    + by left.
  - destruct (m w) as [[a|e''] w1]; simpl in *; [done|].
    right. exists e, e'. by simplify_eq.
Qed.

Lemma passes_on_try_log {C A} f (m : M (C:=C) A) (msg : exn → string) :
  passes_on f m →
  passes_on f (try_except m (log_and_reraise logger_error msg)).
Proof.
  intros Hm w. unfold try_except, log_and_reraise.
  destruct (Hm w) as [Hq|(e & e' & Hf & Hr & Hrel)].
  - left. destruct (m w) as [[a|e] w1]; simpl in *; [done|].
    by destruct (is_Exception e).
  - right. exists e, e'. destruct (m w) as [[a|e''] w1]; simpl in *; [done|].
    by destruct (is_Exception e'').
Qed.

Lemma passes_on_for_each {C A} f (l : list A) (body : A → M (C:=C) unit) :
  (∀ x, passes_on f (body x)) → passes_on f (for_each l body).
Proof.
  intros Hbody. induction l as [|x l IH]; simpl.
  - by apply passes_on_quiet.
  - apply passes_on_bind; [apply Hbody | intros _; apply IH].
Qed.

(** Steps that do not call the services. *)
Ltac quiet := apply passes_on_quiet; intros ?; run; try done.

Lemma passes_on_info {C} f msg : passes_on (C:=C) f (logger_info msg).
Proof. quiet. Qed.

Lemma passes_on_fs_update {C} f op : passes_on (C:=C) f (fs_update op).
Proof. quiet. by destruct (op _). Qed.

Lemma passes_on_fs_makedirs {C} f path :
  passes_on (C:=C) f (fs_makedirs path).
Proof. quiet. by destruct (makedirs _ _). Qed.

Lemma passes_on_ret {C A} f (a : A) : passes_on (C:=C) f (mret a).
Proof. quiet. Qed.

Lemma passes_on_plain {C A} f (r : outcome A) : passes_on (C:=C) f (plain r).
Proof. quiet. Qed.

Lemma passes_on_ok {C A} f (m : M (C:=C) A) (w w' : world C) (a : A) :
  passes_on f m → m w = (Ok a, w') → faults w' = faults w.
Proof.
  intros Hm Hr.
  destruct (Hm w) as [H|(e & e' & _ & H & _)]; rewrite Hr in H; done.
Qed.

Lemma download_blob_outcome {C} (sdk : StorageSDK C) bucket_name blob_name
  (w : world C) :
  match blob_download_as_bytes sdk bucket_name blob_name (cloud w) with
  | (Ok data, _) =>
      (download_blob sdk bucket_name blob_name w).1 = Ok data
      ∧ faults (download_blob sdk bucket_name blob_name w).2 = faults w
  | (Raise e, _) =>
      (download_blob sdk bucket_name blob_name w).1
      = Raise (if is_NotFound e then missing_blob bucket_name blob_name else e)
      ∧ faults (download_blob sdk bucket_name blob_name w).2 = faults w ++ [e]
  end.
Proof.
  unfold download_blob. run.
  destruct (blob_download_as_bytes sdk bucket_name blob_name (cloud w))
    as [[data|e] c]; simpl; [done|].
  destruct (is_NotFound e); simpl; [done|]. by case_exn e.
Qed.

Lemma passes_on_download_blob {C} (sdk : StorageSDK C) bucket_name blob_name :
  passes_on (not_found_as_missing bucket_name blob_name)
    (download_blob sdk bucket_name blob_name).
Proof.
  intros w. pose proof (download_blob_outcome sdk bucket_name blob_name w) as H.
  destruct (blob_download_as_bytes sdk bucket_name blob_name (cloud w))
    as [[data|e] c]; destruct H as [H1 H2]; [by left|].
  right. by exists e, (if is_NotFound e then missing_blob bucket_name blob_name
                       else e).
Qed.

Lemma passes_on_list_blobs {C} (sdk : StorageSDK C) bucket_name prefix :
  reraises (list_blobs sdk bucket_name prefix).
Proof.
  unfold list_blobs, reraises.
  apply passes_on_bind; [apply passes_on_info | intros _].
  apply passes_on_try_log.
  apply passes_on_bind; [apply passes_on_remote | intros blobs].
  apply passes_on_bind; [apply passes_on_info | intros _; apply passes_on_ret].
Qed.

Lemma passes_on_local_path {C} f gcs_folder local_folder blob_name :
  passes_on (C:=C) f (local_path_of gcs_folder local_folder blob_name).
Proof.
  unfold local_path_of. quiet.
Qed.

Lemma passes_on_bind_post {C A B} f (m : M (C:=C) A) (k : A → M B)
  (P : A → Prop) :
  passes_on f m → (∀ w a w', m w = (Ok a, w') → P a) →
  (∀ a, P a → passes_on f (k a)) → passes_on f (m ≫= k).
Proof.
  intros Hm HP Hk w. unfold mbind, M_bind.
  destruct (Hm w) as [Hq|(e & e' & Hf & Hr & Hrel)].
  - destruct (m w) as [[a|e] w1] eqn:Hrun; simpl in *.
    + destruct (Hk a (HP _ _ _ Hrun) w1) as [?|(e & e' & ? & ? & ?)].
      * left. congruence.
      * right. exists e, e'. rewrite <- Hq. eauto.
    + by left.
  - destruct (m w) as [[a|e''] w1]; simpl in *; [done|].
    right. exists e, e'. by simplify_eq.
Qed.

Lemma passes_on_for_each_in {C A} (f : A → exn → exn → Prop) (l : list A)
  (body : A → M (C:=C) unit) :
  (∀ x, x ∈ l → passes_on (f x) (body x)) →
  passes_on (λ e e', ∃ x, x ∈ l ∧ f x e e') (for_each l body).
Proof.
  induction l as [|x l IH]; intros Hbody; simpl.
  - by apply passes_on_quiet.
  - apply passes_on_bind.
    + eapply passes_on_weaken; [|apply Hbody; left].
      intros e e' H. exists x. split; [left | done].
    + intros _. eapply passes_on_weaken; [|apply IH].
      * intros e e' (y & Hy & H). exists y. split; [by right | done].
      * intros y Hy. apply Hbody. by right.
Qed.

Lemma passes_on_blob_error {C} (sdk : StorageSDK C) bucket_name blob_name :
  passes_on (blob_error sdk bucket_name blob_name)
    (download_blob sdk bucket_name blob_name).
Proof.
  intros w. pose proof (download_blob_outcome sdk bucket_name blob_name w) as H.
  destruct (blob_download_as_bytes sdk bucket_name blob_name (cloud w))
    as [[data|e] c] eqn:Hb; destruct H as [H1 H2]; [by left|].
  right. exists e, (if is_NotFound e then missing_blob bucket_name blob_name
                    else e).
  split; [done|]. split; [done|]. split; [|done].
  exists (cloud w). by rewrite Hb.
Qed.

(** A turn of the sequential loop raises what [download_blob] makes of the
    error of its blob, which is no folder marker. *)
Lemma passes_on_folder_turn {C} (sdk : StorageSDK C)
  bucket_name gcs_folder local_folder blob_name :
  passes_on (λ e e', endswith blob_name "/" = false
                     ∧ blob_error sdk bucket_name blob_name e e')
    (folder_turn sdk bucket_name gcs_folder local_folder blob_name).
Proof.
  unfold folder_turn.
  destruct (endswith blob_name "/") eqn:Hm; [apply passes_on_ret|].
  apply passes_on_bind; [apply passes_on_local_path | intros local_file_path].
  apply passes_on_bind; [apply passes_on_fs_makedirs | intros _].
  apply passes_on_bind.
  { eapply passes_on_weaken; [|apply passes_on_blob_error]. by intros e e' H. }
  intros content.
  apply passes_on_bind; [apply passes_on_fs_update | intros _].
  apply passes_on_info.
Qed.

Lemma list_blobs_lists {C} (sdk : StorageSDK C) bucket_name prefix :
  lists_through sdk bucket_name prefix (list_blobs sdk bucket_name prefix).
Proof.
  intros w. unfold list_blobs. run.
  destruct (client_list_blobs sdk bucket_name prefix (cloud w))
    as [[blobs|e] c]; simpl.
  - by eexists.
  - case_exn e; by eexists.
Qed.

Lemma list_blobs_async_lists {C} (sdk : StorageSDK C) bucket_name prefix :
  lists_through sdk bucket_name prefix
    (list_blobs_async sdk bucket_name prefix).
Proof.
  intros w. unfold list_blobs_async, list_blobs. run.
  destruct (client_list_blobs sdk bucket_name prefix (cloud w))
    as [[blobs|e] c]; simpl.
  - by eexists.
  - case_exn e; by eexists.
Qed.

(** A folder download is a line of the log, then, under the handler, the
    listing and what is done with the blobs listed. *)
Lemma folder_passes_on_shape {C} (sdk : StorageSDK C)
  bucket_name gcs_folder (start : string) (listing : M (list string))
  (rest : list string → M (C:=C) unit) (msg : exn → string) :
  lists_through sdk bucket_name (Some gcs_folder) listing →
  (∀ blobs,
     passes_on (λ e e', ∃ blob_name,
                  blob_name ∈ blobs
                  ∧ endswith blob_name "/" = false
                  ∧ blob_error sdk bucket_name blob_name e e')
       (rest blobs)) →
  folder_passes_on sdk bucket_name gcs_folder
    (_ ← logger_info start;
     try_except (listing ≫= rest) (log_and_reraise logger_error msg)).
Proof.
  intros Hlisting Hrest w.
  set (w0 := {| cloud := cloud w; fs := fs w;
                logs := logs w ++ [(INFO, start)]; faults := faults w |}).
  assert (Hrun : (_ ← logger_info start;
                  try_except (listing ≫= rest)
                    (log_and_reraise logger_error msg)) w
                 = try_except (listing ≫= rest)
                     (log_and_reraise logger_error msg) w0) by done.
  rewrite Hrun. clear Hrun. specialize (Hlisting w0).
  change (cloud w0) with (cloud w) in Hlisting.
  change (faults w0) with (faults w) in Hlisting.
  destruct (client_list_blobs sdk bucket_name (Some gcs_folder) (cloud w))
    as [[blobs|e] c]; destruct Hlisting as (w1 & Hl & Hq).
  - assert (Hrun : try_except (listing ≫= rest)
                     (log_and_reraise logger_error msg) w0
                   = try_except (rest blobs)
                       (log_and_reraise logger_error msg) w1).
    { unfold try_except, mbind, M_bind. by rewrite Hl. }
    rewrite Hrun. clear Hrun.
    destruct (passes_on_try_log _ _ msg (Hrest blobs) w1)
      as [H|(e & e' & H1 & H2 & b & Hb & Hm & He)].
    + left. congruence.
    + right. exists b, e, e'. rewrite <- Hq. done.
  - unfold try_except, mbind, M_bind. rewrite Hl. unfold log_and_reraise.
    rewrite <- Hq. by destruct (is_Exception e).
Qed.

Lemma download_folder_passes_on {C} (sdk : StorageSDK C)
  bucket_name gcs_folder local_folder :
  folder_passes_on sdk bucket_name gcs_folder
    (download_folder sdk bucket_name gcs_folder local_folder).
Proof.
  apply (folder_passes_on_shape sdk bucket_name gcs_folder _
           (list_blobs sdk bucket_name (Some gcs_folder))
           (folder_loop sdk bucket_name gcs_folder local_folder));
    [apply list_blobs_lists|].
  intros blobs. unfold folder_loop.
  apply (passes_on_for_each_in
           (λ blob_name e e', endswith blob_name "/" = false
                              ∧ blob_error sdk bucket_name blob_name e e')).
  intros blob_name _. apply passes_on_folder_turn.
Qed.

Lemma passes_on_execute_query {C Job} (sdk : BigQuerySDK C Job) query params :
  reraises (execute_query sdk query params).
Proof.
  unfold execute_query, reraises.
  apply passes_on_bind; [apply passes_on_info | intros _].
  apply passes_on_try_log.
  apply passes_on_bind; [apply passes_on_plain | intros job_config].
  apply passes_on_bind; [apply passes_on_remote | intros job].
  apply passes_on_bind; [apply passes_on_remote | intros result].
  apply passes_on_bind; [apply passes_on_info | intros _; apply passes_on_ret].
Qed.

Lemma passes_on_get_table_data {C Job} (sdk : BigQuerySDK C Job)
  dataset_id table_id limit :
  reraises (get_table_data sdk dataset_id table_id limit).
Proof.
  unfold get_table_data, reraises.
  apply passes_on_bind; [apply passes_on_info | intros _].
  apply passes_on_try_log. apply passes_on_execute_query.
Qed.

Lemma passes_on_create_table {C Job} (sdk : BigQuerySDK C Job)
  dataset_id table_id schema :
  reraises (create_table sdk dataset_id table_id schema).
Proof.
  unfold create_table, reraises.
  apply passes_on_bind; [apply passes_on_info | intros _].
  apply passes_on_try_log.
  apply passes_on_bind; [apply passes_on_remote | intros _].
  apply passes_on_info.
Qed.

Lemma passes_on_upload_dataframe {C Job} (sdk : BigQuerySDK C Job)
  dataset_id table_id dataframe write_disposition :
  reraises (upload_dataframe sdk dataset_id table_id dataframe
              write_disposition).
Proof.
  unfold upload_dataframe, reraises.
  apply passes_on_bind; [apply passes_on_info | intros _].
  apply passes_on_try_log.
  apply passes_on_bind; [apply passes_on_remote | intros job].
  apply passes_on_bind; [apply passes_on_remote | intros _].
  apply passes_on_info.
Qed.

Lemma passes_on_upload_blob {C} (sdk : StorageSDK C)
  bucket_name blob_name file_path is_public :
  reraises (upload_blob sdk bucket_name blob_name file_path is_public).
Proof.
  unfold upload_blob, reraises.
  apply passes_on_bind; [apply passes_on_info | intros _].
  apply passes_on_try_log.
  apply passes_on_bind; [apply passes_on_remote | intros _].
  apply passes_on_bind; [apply passes_on_info | intros _].
  apply passes_on_bind; [quiet | intros data].
  apply passes_on_bind; [apply passes_on_remote | intros _].
  apply passes_on_bind; [|intros _; apply passes_on_ret].
  destruct is_public; [|apply passes_on_ret].
  apply passes_on_bind; [apply passes_on_remote | intros _].
  apply passes_on_info.
Qed.

Lemma table_exists_outcome {C Job} (sdk : BigQuerySDK C Job)
  dataset_id table_id (w : world C) :
  (table_exists sdk dataset_id table_id w).1
  = match client_get_table sdk dataset_id table_id (cloud w) with
    | (Ok _, _) => Ok true
    | (Raise e, _) => if is_NotFound e then Ok false else Raise e
    end.
Proof.
  unfold table_exists. run.
  destruct (client_get_table sdk dataset_id table_id (cloud w))
    as [[[]|e] c]; simpl; [done|].
  destruct (is_NotFound e); simpl; [done|]. by case_exn e.
Qed.

Lemma passes_on_collect_tasks {C} f gcs_folder local_folder blobs :
  passes_on (C:=C) f (collect_tasks gcs_folder local_folder blobs).
Proof.
  induction blobs as [|blob_name rest IH]; simpl; [apply passes_on_ret|].
  destruct (endswith blob_name "/"); [done|].
  apply passes_on_bind; [apply passes_on_local_path | intros local_file_path].
  apply passes_on_bind; [apply passes_on_fs_makedirs | intros _].
  apply passes_on_bind; [apply IH | intros tasks; apply passes_on_ret].
Qed.

Lemma collect_tasks_names {C} gcs_folder local_folder blobs :
  ∀ (w w' : world C) tasks,
    collect_tasks gcs_folder local_folder blobs w = (Ok tasks, w') →
    tasks.*1 = kept_blobs blobs.
Proof.
  unfold kept_blobs.
  induction blobs as [|b rest IH]; intros w w' tasks; simpl.
  - by intros [= <- _].
  - destruct (endswith b "/"); simpl; [apply IH|].
    unfold mbind at 1, M_bind at 1.
    destruct (local_path_of gcs_folder local_folder b w) as [[p|e] w1];
      [|done].
    unfold mbind at 1, M_bind at 1.
    destruct (fs_makedirs (dirname p) w1) as [[[]|e] w2]; [|done].
    unfold mbind at 1, M_bind at 1.
    destruct (collect_tasks gcs_folder local_folder rest w2)
      as [[tasks'|e] w3] eqn:Hrest; [|done].
    intros [= <- _]. simpl. f_equal. by eapply IH.
Qed.

Lemma passes_on_save_finish {C} (sdk : StorageSDK C)
  bucket_name blob_name local_file_path :
  passes_on (blob_error sdk bucket_name blob_name)
    (save_finish sdk bucket_name blob_name local_file_path).
Proof.
  unfold save_finish, to_thread.
  apply passes_on_bind; [apply passes_on_blob_error | intros content].
  apply passes_on_bind; [apply passes_on_fs_update | intros _].
  apply passes_on_info.
Qed.

(** The concurrent tasks raise what [download_blob] makes of the error of
    the blob of one of them. *)
Lemma passes_on_finish_in_order {C} (sdk : StorageSDK C) bucket_name tasks
  order :
  passes_on (λ e e', ∃ t, t ∈ tasks ∧ blob_error sdk bucket_name t.1 e e')
    (finish_in_order sdk bucket_name tasks order).
Proof.
  induction order as [|i rest IH]; simpl; [apply passes_on_ret|].
  destruct (tasks !! i) as [[blob_name local_file_path]|] eqn:Hi; [|done].
  apply passes_on_bind; [|intros _; apply IH].
  eapply passes_on_weaken; [|apply passes_on_save_finish].
  intros e e' H. exists (blob_name, local_file_path).
  split; [by eapply list_elem_of_lookup_2 | done].
Qed.

Lemma download_folder_async_passes_on {C} (sdk : StorageSDK C) order
  bucket_name gcs_folder local_folder :
  folder_passes_on sdk bucket_name gcs_folder
    (download_folder_async sdk order bucket_name gcs_folder local_folder).
Proof.
  apply (folder_passes_on_shape sdk bucket_name gcs_folder _
           (list_blobs_async sdk bucket_name (Some gcs_folder))
           (λ blobs,
              download_tasks ← collect_tasks gcs_folder local_folder blobs;
              _ ← gather sdk bucket_name download_tasks order;
              logger_info ("Completed async download of folder "
                           +:+ gcs_folder)));
    [apply list_blobs_async_lists|].
  intros blobs.
  apply (passes_on_bind_post _ _ _ (λ tasks, tasks.*1 = kept_blobs blobs)).
  { apply passes_on_collect_tasks. }
  { intros w tasks w'. apply collect_tasks_names. }
  intros tasks Htasks.
  apply passes_on_bind; [|intros _; apply passes_on_info].
  unfold gather.
  apply passes_on_bind.
  { apply passes_on_for_each. intros t. apply passes_on_info. }
  intros _. eapply passes_on_weaken; [|apply passes_on_finish_in_order].
  intros e e' ([b p] & Ht & He). exists b.
  assert (Hb : b ∈ kept_blobs blobs).
  { rewrite <- Htasks. apply list_elem_of_fmap. by exists (b, p). }
  unfold kept_blobs in Hb.
  apply list_elem_of_In, filter_In in Hb as [Hb Hm].
  split; [by apply list_elem_of_In|]. split; [|done].
  by destruct (endswith b "/").
Qed.

Lemma table_exists_async_outcome {C Job} (sdk : BigQuerySDK C Job)
  dataset_id table_id (w : world C) :
  (table_exists_async sdk dataset_id table_id w).1
  = match client_get_table sdk dataset_id table_id (cloud w) with
    | (Ok _, _) => Ok true
    | (Raise e, _) => if is_NotFound e then Ok false else Raise e
    end.
Proof.
  unfold table_exists_async, table_exists. run.
  destruct (client_get_table sdk dataset_id table_id (cloud w))
    as [[[]|e] c]; simpl; [done|].
  destruct (is_NotFound e); simpl; [done|]. by case_exn e.
Qed.



(** *** Folder downloads on the file system *)

Lemma bind_ok {A B} (r : outcome A) (k : A → outcome B) (b : B) :
  r ≫= k = Ok b ↔ ∃ a, r = Ok a ∧ k a = Ok b.
Proof.
  destruct r as [a|e]; simpl.
  - split; [eauto | by intros (? & [= <-] & ?)].
  - split; [done | by intros (? & ? & _)].
Qed.

Lemma sequential_effect_cwd content tasks :
  ∀ f f', sequential_effect content tasks f = Ok f' → fs_cwd f' = fs_cwd f.
Proof.
  induction tasks as [|t rest IH]; intros f f' H; simpl in H.
  - congruence.
  - apply bind_ok in H as (f1 & [H1 _]%makedirs_nodes & H).
    apply bind_ok in H as (f2 & (H2 & _)%write_file_nodes & H).
    rewrite (IH _ _ H). congruence.
Qed.

(** A file stays as it is through the turns that write elsewhere. *)
Lemma sequential_effect_keeps_file content tasks L c :
  ∀ f f', sequential_effect content tasks f = Ok f' →
  node_at (fs_tree f) L = Some (File c) →
  (∀ t, t ∈ tasks → locate f t.2 ≠ L) →
  node_at (fs_tree f') L = Some (File c).
Proof.
  induction tasks as [|t rest IH]; intros f f' H HL Hne; simpl in H.
  - congruence.
  - apply bind_ok in H as (f1 & [Hc1 H1]%makedirs_nodes & H).
    apply bind_ok in H as (f2 & (Hc2 & _ & H2)%write_file_nodes & H).
    apply (IH _ _ H).
    + rewrite H2. rewrite (locate_cwd f f1) by done.
      rewrite decide_False by (intros E; by apply (Hne t); [left|]).
      destruct (H1 L) as [->|[? _]]; congruence.
    + intros t' Ht'. rewrite (locate_cwd f f2) by congruence.
      apply Hne. by right.
Qed.

(** What the sequential loop leaves on the file system: the content of a
    blob at its local path, unless a later blob goes to the same file; and
    no change but these files and new directories. *)
Lemma sequential_effect_nodes content tasks :
  ∀ f f', sequential_effect content tasks f = Ok f' →
  (∀ l1 t l2, tasks = l1 ++ t :: l2 →
     (∀ t', t' ∈ l2 → locate f t'.2 ≠ locate f t.2) →
     node_at (fs_tree f') (locate f t.2) = Some (File (content t.1)))
  ∧ (∀ l, node_at (fs_tree f') l = node_at (fs_tree f) l
          ∨ (node_at (fs_tree f) l = None
             ∧ node_at (fs_tree f') l = Some Dir)
          ∨ ∃ t, t ∈ tasks ∧ l = locate f t.2
                 ∧ node_at (fs_tree f') l = Some (File (content t.1))).
Proof.
  induction tasks as [|t rest IH]; intros f f' H; simpl in H.
  - split; [by intros [] | left; congruence].
  - apply bind_ok in H as (f1 & [Hc1 H1]%makedirs_nodes & H).
    apply bind_ok in H as (f2 & (Hc2 & _ & H2)%write_file_nodes & H).
    assert (Hc : fs_cwd f2 = fs_cwd f) by congruence.
    destruct (IH _ _ H) as [IH1 IH2]. split.
    + intros [|t1 l1] t0 l2 [= <- Hrest] Hne.
      * subst rest. eapply sequential_effect_keeps_file; [done| |].
        -- rewrite H2, (locate_cwd f f1) by done. by rewrite decide_True.
        -- intros t' Ht'. rewrite (locate_cwd f f2) by done. by apply Hne.
      * rewrite <- (locate_cwd f f2) by done. apply (IH1 l1 _ l2 Hrest).
        intros t' Ht'. rewrite !(locate_cwd f f2) by done. by apply Hne.
    + intros l. pose proof (H2 l) as H2l.
      rewrite (locate_cwd f f1) in H2l by done.
      destruct (IH2 l) as [Hl|[[Hl1 Hl2]|(t' & Ht' & -> & Hl)]].
      * destruct (decide (l = locate f t.2)) as [E|E].
        -- right; right. exists t. split; [left|]. split; [done|]. congruence.
        -- destruct (H1 l) as [H1l|[H1a H1b]];
             [left | right; left; split; [done|]]; congruence.
      * destruct (decide (l = locate f t.2)) as [E|E]; [congruence|].
        right; left. split; [|done].
        destruct (H1 l) as [H1l|[H1a H1b]]; congruence.
      * right; right. exists t'. split; [by right|].
        split; [by apply locate_cwd | done].
Qed.

Lemma visited_cwd f f' path :
  fs_cwd f' = fs_cwd f → visited f' path = visited f path.
Proof. intros H. unfold visited, start_of. by rewrite H. Qed.

(** The directories of a turn whose write succeeds are made without going
    through a file: the write needs every one of them. *)
Lemma turn_avoids_files p c f f1 f2 L :
  makedirs (dirname p) f = Ok f1 → write_file p c f1 = Ok f2 →
  is_file (node_at (fs_tree f) L) = true →
  L ∉ visited f (dirname p).
Proof.
  intros Hd Hw HL Hin.
  pose proof Hd as (Hne & _)%makedirs_ok.
  destruct (makedirs_nodes _ _ _ Hd) as [Hcwd Hn].
  apply write_file_ok in Hw as (_ & Hdirs & _ & Hnd & _).
  rewrite (visited_dirname f1 p Hnd Hne), removelast_last in Hdirs.
  apply Forall_cons in Hdirs as [_ Hdirs].
  rewrite (visited_cwd f f1) in Hdirs by done.
  rewrite Forall_forall in Hdirs. specialize (Hdirs L Hin).
  destruct (Hn L) as [E|[E _]]; rewrite E in *; [|done].
  by rewrite Hdirs in HL.
Qed.

Lemma sequential_effect_avoids content tasks L :
  ∀ f f', sequential_effect content tasks f = Ok f' →
  is_file (node_at (fs_tree f) L) = true →
  ∀ t, t ∈ tasks → L ∉ visited f (dirname t.2).
Proof.
  induction tasks as [|a rest IH]; intros f f' H HL t Ht; simpl in H.
  - by apply elem_of_nil in Ht.
  - apply bind_ok in H as (f1 & Hd & H).
    apply bind_ok in H as (f2 & Hw & H).
    apply elem_of_cons in Ht as [->|Ht].
    + by eapply turn_avoids_files.
    + destruct (makedirs_nodes _ _ _ Hd) as [Hc1 H1].
      destruct (write_file_nodes _ _ _ _ Hw) as (Hc2 & _ & H2).
      rewrite <- (visited_cwd f f2) by congruence.
      apply (IH _ _ H); [|done].
      rewrite H2. case_decide; [done|].
      destruct (H1 L) as [E|[E _]]; rewrite E in *; done.
Qed.

(** The write of one task can move behind the making of the directories
    of the tasks that follow, when none of them goes through the file
    written. *)
Lemma write_then_make_all p c tasks :
  ∀ f f1 f2,
    write_file p c f = Ok f1 → make_all_dirs tasks f1 = Ok f2 →
    (∀ t, t ∈ tasks → locate f p ∉ visited f (dirname t.2)) →
    ∃ f1', make_all_dirs tasks f = Ok f1' ∧ write_file p c f1' = Ok f2.
Proof.
  induction tasks as [|t rest IH]; intros f f1 f2 Hw Hm Hout; simpl in *.
  - exists f. split; [done|]. congruence.
  - apply bind_ok in Hm as (f1d & Hd & Hm).
    destruct (write_then_makedirs _ _ _ _ _ _ Hw Hd) as (fa & Hda & Hwa);
      [apply Hout; left|].
    destruct (makedirs_nodes _ _ _ Hda) as [Hca _].
    destruct (IH _ _ _ Hwa Hm) as (fb & Hmb & Hwb).
    { intros t' Ht'. rewrite (locate_cwd f fa), (visited_cwd f fa) by done.
      apply Hout. by right. }
    exists fb. split; [|done]. apply bind_ok. eauto.
Qed.

(** The sequential loop does what making all directories first and
    saving the blobs afterwards, in the same order, does. *)
Lemma sequential_effect_hoist content tasks :
  ∀ f f', sequential_effect content tasks f = Ok f' →
  ∃ fd, make_all_dirs tasks f = Ok fd ∧ save_all content tasks fd = Ok f'.
Proof.
  induction tasks as [|t rest IH]; intros f f' H; simpl in *.
  - eauto.
  - apply bind_ok in H as (f1 & Hd & H).
    apply bind_ok in H as (f2 & Hw & H).
    destruct (IH _ _ H) as (fd2 & Hm & Hs).
    destruct (write_file_nodes _ _ _ _ Hw) as (Hc2 & _ & H2).
    destruct (write_then_make_all _ _ _ _ _ _ Hw Hm) as (fd1 & Hm1 & Hw1).
    { intros t' Ht'. rewrite (visited_cwd f2 f1) by done.
      apply (sequential_effect_avoids content rest _ _ _ H); [|done].
      rewrite H2. by rewrite decide_True. }
    exists fd1. split; apply bind_ok; eauto.
Qed.

Lemma make_all_dirs_cwd tasks :
  ∀ f f', make_all_dirs tasks f = Ok f' → fs_cwd f' = fs_cwd f.
Proof.
  induction tasks as [|t rest IH]; intros f f' H; simpl in H.
  - congruence.
  - apply bind_ok in H as (f1 & [H1 _]%makedirs_nodes & H).
    rewrite (IH _ _ H). congruence.
Qed.

(** Saves to pairwise different files give the same file system in any
    order. *)
Lemma save_all_perm content tasks tasks' :
  tasks ≡ₚ tasks' →
  ∀ f f', NoDup ((λ t, locate f t.2) <$> tasks) →
  save_all content tasks f = Ok f' → save_all content tasks' f = Ok f'.
Proof.
  induction 1 as [|t l l' Hp IH|t1 t2 l|l l' l'' Hp1 IH1 Hp2 IH2];
    intros f f' Hnd H.
  - done.
  - simpl in *. apply NoDup_cons in Hnd as [_ Hnd].
    apply bind_ok in H as (f1 & Hw & H). apply bind_ok. exists f1.
    split; [done|]. apply IH; [|done].
    destruct (write_file_nodes _ _ _ _ Hw) as [Hc _].
    erewrite list_fmap_ext; [exact Hnd|].
    intros _ t' _. by apply locate_cwd.
  - simpl in *. apply NoDup_cons in Hnd as [Hne _].
    apply bind_ok in H as (f1 & Hw1 & H).
    apply bind_ok in H as (f2 & Hw2 & H).
    destruct (write_file_nodes _ _ _ _ Hw1) as [Hc _].
    destruct (write_then_write _ _ _ _ _ _ _ Hw1 Hw2) as (fa & Ha & Hb).
    { intros E. apply Hne. rewrite E. left. }
    apply bind_ok. exists fa. split; [done|]. apply bind_ok. eauto.
  - apply IH2; [|by apply IH1]. by rewrite <- Hp1.
Qed.

(** *** The loops of the two folder downloads, run on a store whose blobs
    download as [content] says and stay as they are *)

Section FolderRuns.
Context {C : Type} (sdk : StorageSDK C).
Context (bucket_name gcs_folder local_folder : string).
Context (content : string → string) (c0 : C).

Abbreviation stable := (steady sdk bucket_name content c0).

Lemma download_blob_steady b (w : world C) :
  cloud w = c0 → stable b →
  (download_blob sdk bucket_name b w).1 = Ok (content b)
  ∧ cloud (download_blob sdk bucket_name b w).2 = c0
  ∧ fs (download_blob sdk bucket_name b w).2 = fs w.
Proof.
  intros Hc Hb. unfold download_blob. run. rewrite Hc, Hb. done.
Qed.

(** One turn of the sequential loop. *)
Lemma sequential_turn b (w : world C) :
  cloud w = c0 → stable b →
  ∀ w',
    (p ← local_path_of gcs_folder local_folder b;
     _ ← fs_makedirs (dirname p);
     data ← download_blob sdk bucket_name b;
     _ ← fs_update (write_file p data);
     logger_info ("Downloaded: " +:+ b +:+ " -> " +:+ p)) w = (Ok (), w') →
    cloud w' = c0
    ∧ ∃ p f1,
        target_of (fs_cwd (fs w)) gcs_folder local_folder b = Ok p
        ∧ makedirs (dirname p) (fs w) = Ok f1
        ∧ write_file p (content b) f1 = Ok (fs w').
Proof.
  intros Hc Hb w'. unfold local_path_of. run.
  destruct (target_of (fs_cwd (fs w)) gcs_folder local_folder b) as [p|e];
    simpl; [|done].
  destruct (makedirs (dirname p) (fs w)) as [f1|e] eqn:Hd; simpl; [|done].
  set (w1 := {| cloud := cloud w; fs := f1; logs := logs w;
                faults := faults w |}).
  destruct (download_blob_steady b w1 Hc Hb) as (Hr & Hc1 & Hf1).
  destruct (download_blob sdk bucket_name b w1) as [[data|e] w2];
    simpl in *; [|done].
  injection Hr as ->.
  destruct (write_file p (content b) (fs w2)) as [f2|e] eqn:Hw; simpl; [|done].
  intros [= <-]. simpl. split; [done|]. exists p, f1.
  rewrite Hf1 in Hw. done.
Qed.

(** When the sequential loop ends normally, the file system is the one
    that the turns of the listing's tasks give. *)
Lemma sequential_loop_effect blobs :
  ∀ (w w' : world C),
    cloud w = c0 → Forall stable (kept_blobs blobs) →
    for_each blobs (λ blob_name,
      if endswith blob_name "/" then mret ()
      else
        local_file_path ← local_path_of gcs_folder local_folder blob_name;
        _ ← fs_makedirs (dirname local_file_path);
        data ← download_blob sdk bucket_name blob_name;
        _ ← fs_update (write_file local_file_path data);
        logger_info ("Downloaded: " +:+ blob_name +:+ " -> "
                     +:+ local_file_path)) w = (Ok (), w') →
    ∃ tasks,
      plan (fs_cwd (fs w)) gcs_folder local_folder blobs = Ok tasks
      ∧ sequential_effect content tasks (fs w) = Ok (fs w').
Proof.
  induction blobs as [|b rest IH]; intros w w' Hc Hst Hrun.
  - simpl in *. exists []. split; [done|]. by injection Hrun as <-.
  - simpl in Hrun |- *. unfold kept_blobs in Hst. simpl in Hst.
    destruct (endswith b "/") eqn:Hb; simpl in Hst.
    + apply (IH w w' Hc Hst Hrun).
    + apply Forall_cons in Hst as [Hsb Hst].
      unfold mbind at 1, M_bind at 1 in Hrun.
      match type of Hrun with
      | context [match ?m w with _ => _ end] =>
          destruct (m w) as [[[]|e] w1] eqn:Hturn; [|done]
      end.
      destruct (sequential_turn b w Hc Hsb w1 Hturn)
        as (Hc1 & p & f1 & Hp & Hd & Hw).
      assert (Hcwd : fs_cwd (fs w1) = fs_cwd (fs w)).
      { destruct (makedirs_nodes _ _ _ Hd) as [E1 _].
        destruct (write_file_nodes _ _ _ _ Hw) as [E2 _]. congruence. }
      destruct (IH w1 w' Hc1 Hst Hrun) as (tasks & Hplan & Heff).
      rewrite Hcwd in Hplan. rewrite Hp, Hplan. simpl.
      exists ((b, p) :: tasks). split; [done|]. simpl.
      rewrite Hd. simpl. rewrite Hw. done.
Qed.

Lemma log_only_info (msg : string) (w : world C) :
  ∃ w', logger_info msg w = (Ok (), w') ∧ cloud w' = cloud w ∧ fs w' = fs w.
Proof. eexists. by split. Qed.

Lemma list_blobs_run prefix blobs c (w : world C) :
  client_list_blobs sdk bucket_name prefix (cloud w) = (Ok blobs, c) →
  ∃ w', list_blobs sdk bucket_name prefix w = (Ok blobs, w')
        ∧ cloud w' = c ∧ fs w' = fs w.
Proof.
  intros H. unfold list_blobs. run. rewrite H. simpl. eauto.
Qed.

(** A normal end of [download_folder] is a normal end of its loop. *)
Lemma download_folder_ok blobs (w : world C) :
  client_list_blobs sdk bucket_name (Some gcs_folder) (cloud w)
  = (Ok blobs, c0) →
  Forall stable (kept_blobs blobs) →
  (download_folder sdk bucket_name gcs_folder local_folder w).1 = Ok () →
  ∃ tasks,
    plan (fs_cwd (fs w)) gcs_folder local_folder blobs = Ok tasks
    ∧ sequential_effect content tasks (fs w)
      = Ok (fs (download_folder sdk bucket_name gcs_folder local_folder w).2).
Proof.
  intros Hlist Hst.
  remember (download_folder sdk bucket_name gcs_folder local_folder w) as r
    eqn:Hr.
  unfold download_folder in Hr. unfold mbind at 1, M_bind at 1 in Hr.
  destruct (log_only_info ("Downloading folder " +:+ gcs_folder +:+ " from "
              +:+ bucket_name +:+ " to " +:+ local_folder) w)
    as (w0 & Hlog & Hc0 & Hf0).
  rewrite Hlog in Hr. unfold try_except in Hr.
  unfold mbind at 1, M_bind at 1 in Hr.
  rewrite <- Hc0 in Hlist.
  destruct (list_blobs_run _ _ _ _ Hlist) as (w1 & Hl & Hc1 & Hf1).
  rewrite Hl in Hr.
  match type of Hr with
  | context [for_each blobs ?body w1] =>
      destruct (for_each blobs body w1) as [[[]|e] w2] eqn:Hloop
  end; subst r; simpl.
  2: { unfold log_and_reraise. by destruct (is_Exception e). }
  intros _. rewrite <- Hf0, <- Hf1.
  by apply (sequential_loop_effect blobs w1 w2).
Qed.

(** The loop that collects the tasks makes their directories. *)
Lemma collect_tasks_effect blobs :
  ∀ (w : world C) tasks fd,
    plan (fs_cwd (fs w)) gcs_folder local_folder blobs = Ok tasks →
    make_all_dirs tasks (fs w) = Ok fd →
    ∃ w', collect_tasks gcs_folder local_folder blobs w = (Ok tasks, w')
          ∧ cloud w' = cloud w ∧ fs w' = fd.
Proof.
  induction blobs as [|b rest IH]; intros w tasks fd Hplan Hdirs; simpl in *.
  - injection Hplan as <-. simpl in Hdirs. injection Hdirs as <-.
    by exists w.
  - destruct (endswith b "/"); [by apply IH|].
    apply bind_ok in Hplan as (p & Hp & Hplan).
    apply bind_ok in Hplan as (tasks' & Hplan & [= <-]).
    simpl in Hdirs. apply bind_ok in Hdirs as (f1 & Hd & Hdirs).
    unfold local_path_of. run. rewrite Hp. simpl. rewrite Hd. simpl.
    set (w1 := {| cloud := cloud w; fs := f1; logs := logs w;
                  faults := faults w |}).
    destruct (IH w1 tasks' fd) as (w' & Hrun & Hc & Hf); [|done|].
    { simpl. destruct (makedirs_nodes _ _ _ Hd) as [-> _]. done. }
    rewrite Hrun. simpl. by exists w'.
Qed.

Lemma start_all_run tasks :
  ∀ w : world C,
    ∃ w', for_each tasks (λ t : string * string, save_start bucket_name t.1) w
          = (Ok (), w')
          ∧ cloud w' = cloud w ∧ fs w' = fs w.
Proof.
  induction tasks as [|t rest IH]; intros w; simpl.
  - by exists w.
  - unfold mbind, M_bind, save_start, logger_info.
    edestruct IH as (w' & -> & Hc & Hf). exists w'. by split.
Qed.

(** The concurrent tasks, when every one of them succeeds, leave what
    saving the blobs in the order of completion leaves. *)
Lemma finish_in_order_effect tasks order :
  ∀ (w : world C) f',
    cloud w = c0 →
    Forall stable tasks.*1 →
    save_all content (omap (λ i, tasks !! i) order) (fs w) = Ok f' →
    ∃ w', finish_in_order sdk bucket_name tasks order w = (Ok (), w')
          ∧ fs w' = f'.
Proof.
  intros w f' Hc Hst. revert w f' Hc.
  induction order as [|i order IH]; intros w f' Hc Hsave;
    cbn [finish_in_order omap list_omap] in *.
  - injection Hsave as <-. by exists w.
  - destruct (tasks !! i) as [[b p]|] eqn:Hi; [|by apply IH].
    simpl in Hsave. apply bind_ok in Hsave as (f1 & Hw & Hsave).
    assert (Hb : stable b).
    { rewrite Forall_forall in Hst. apply Hst.
      apply list_elem_of_fmap. exists (b, p). split; [done|].
      by eapply list_elem_of_lookup_2. }
    assert (Hsf : ∃ w1, save_finish sdk bucket_name b p w = (Ok (), w1)
                        ∧ cloud w1 = c0 ∧ fs w1 = f1).
    { unfold save_finish, to_thread. unfold mbind at 1, M_bind at 1.
      destruct (download_blob_steady b w Hc Hb) as (Hr & Hc1 & Hf1).
      destruct (download_blob sdk bucket_name b w) as [[data|e] w1];
        simpl in *; [|done].
      injection Hr as ->. unfold mbind at 1, M_bind at 1, fs_update at 1.
      rewrite Hf1, Hw. simpl. by eexists. }
    destruct Hsf as (w1 & Hsf & Hc1 & Hf1).
    unfold mbind at 1, M_bind at 1. rewrite Hsf.
    apply IH; [done | by rewrite Hf1].
Qed.

Lemma omap_lookup_S {A} (x : A) (l : list A) (js : list nat) :
  omap (λ i, (x :: l) !! i) (S <$> js) = omap (λ i, l !! i) js.
Proof.
  induction js as [|j js IH]; [done|].
  rewrite fmap_cons. cbn [omap list_omap]. by rewrite IH.
Qed.

Lemma omap_lookup_seq {A} (l : list A) :
  omap (λ i, l !! i) (seq 0 (List.length l)) = l.
Proof.
  induction l as [|x l IH]; [done|].
  cbn [List.length seq]. rewrite <- fmap_S_seq.
  cbn [omap list_omap lookup list_lookup]. by rewrite omap_lookup_S, IH.
Qed.

Lemma plan_tasks cwd blobs :
  ∀ tasks, plan cwd gcs_folder local_folder blobs = Ok tasks →
  tasks.*1 = kept_blobs blobs
  ∧ Forall (λ t, ∃ relative_path,
                relpath cwd t.1 gcs_folder = Ok relative_path
                ∧ t.2 = path_join local_folder relative_path) tasks.
Proof.
  unfold kept_blobs.
  induction blobs as [|b rest IH]; intros tasks H; simpl in *.
  - by injection H as <-.
  - destruct (endswith b "/"); simpl; [by apply IH|].
    apply bind_ok in H as (p & Hp & H).
    apply bind_ok in H as (tasks' & H & [= <-]).
    destruct (IH _ H) as [IH1 IH2]. split; [simpl; by f_equal|].
    constructor; [|done]. simpl. unfold target_of in Hp.
    apply bind_ok in Hp as (rel & Hrel & [= <-]). eauto.
Qed.

(** A normal end of [download_folder_async] from the effect of its loops
    on the file system. *)
Lemma download_folder_async_run blobs tasks order fd f' (w : world C) :
  client_list_blobs sdk bucket_name (Some gcs_folder) (cloud w)
  = (Ok blobs, c0) →
  Forall stable (kept_blobs blobs) →
  plan (fs_cwd (fs w)) gcs_folder local_folder blobs = Ok tasks →
  make_all_dirs tasks (fs w) = Ok fd →
  save_all content (omap (λ i, tasks !! i) order) fd = Ok f' →
  (download_folder_async sdk order bucket_name gcs_folder local_folder w).1
  = Ok ()
  ∧ fs (download_folder_async sdk order bucket_name gcs_folder local_folder
          w).2 = f'.
Proof.
  intros Hlist Hst Hplan Hdirs Hsave.
  remember (download_folder_async sdk order bucket_name gcs_folder
              local_folder w) as r eqn:Hr.
  unfold download_folder_async in Hr. unfold mbind at 1, M_bind at 1 in Hr.
  destruct (log_only_info ("Initiating async download of folder "
              +:+ gcs_folder +:+ " from " +:+ bucket_name +:+ " to "
              +:+ local_folder) w) as (w0 & Hlog & Hc0 & Hf0).
  rewrite Hlog in Hr. unfold try_except in Hr.
  unfold mbind at 1, M_bind at 1 in Hr.
  unfold list_blobs_async, to_thread in Hr.
  unfold mbind at 1, M_bind at 1 in Hr.
  destruct (log_only_info ("Listing blobs in " +:+ bucket_name
              +:+ " asynchronously" +:+ with_prefix (Some gcs_folder)) w0)
    as (w0' & Hlog' & Hc0' & Hf0').
  rewrite Hlog' in Hr.
  assert (Hlist' : client_list_blobs sdk bucket_name (Some gcs_folder)
                     (cloud w0') = (Ok blobs, c0)) by congruence.
  destruct (list_blobs_run _ _ _ _ Hlist') as (w1 & Hl & Hc1 & Hf1).
  rewrite Hl in Hr.
  assert (Hfw1 : fs w1 = fs w) by congruence.
  unfold mbind at 1, M_bind at 1 in Hr.
  destruct (collect_tasks_effect blobs w1 tasks fd) as (w2 & Hcol & Hc2 & Hf2);
    [by rewrite Hfw1 | by rewrite Hfw1 |].
  rewrite Hcol in Hr. unfold mbind at 1, M_bind at 1 in Hr.
  unfold gather in Hr. unfold mbind at 1, M_bind at 1 in Hr.
  destruct (start_all_run tasks w2) as (w3 & Hstart & Hc3 & Hf3).
  rewrite Hstart in Hr.
  destruct (finish_in_order_effect tasks order w3 f') as (w4 & Hfin & Hf4).
  { congruence. }
  { destruct (plan_tasks _ _ _ Hplan) as [-> _]. done. }
  { by rewrite Hf3, Hf2. }
  rewrite Hfin in Hr. subst r. simpl. done.
Qed.

End FolderRuns.

(** C6, as the claim has it, fails.  A blob whose name is the prefix
    itself is no folder marker, yet no file is written for it: its path
    relative to the prefix is ["."], the local path is [out/.], a
    directory, and the call raises after making [out].  And of two blobs
    that go to one local file, only the one listed last has its content
    there. *)
Lemma download_folder_misses_blobs :
  client_list_blobs mem_storage "bucket" (Some "a/1.txt")
    (cloud (sample_world folder_bucket))
  = (Ok ["a/1.txt"], folder_bucket)
  ∧ (download_folder mem_storage "bucket" "a/1.txt" "out"
       (sample_world folder_bucket)).1 = Raise (EISDIR "out/.")
  ∧ fs_tree (fs (download_folder mem_storage "bucket" "a/1.txt" "out"
                   (sample_world folder_bucket)).2)
    = <[["w"; "out"] := Dir]> (fs_tree sample_fs)
  ∧ client_list_blobs mem_storage "bucket" (Some "a")
      (cloud (sample_world colliding_bucket))
    = (Ok ["a//x"; "a/x"], colliding_bucket)
  ∧ target_of "/w" "a" "out" "a//x" = Ok "out/x"
  ∧ (download_folder mem_storage "bucket" "a" "out"
       (sample_world colliding_bucket)).1 = Ok ()
  ∧ read_file "out/x"
      (fs (download_folder mem_storage "bucket" "a" "out"
             (sample_world colliding_bucket)).2) = Ok "second"
  ∧ mem_content colliding_bucket "bucket" "a//x" = "first".
Proof. split_and!; vm_compute; reflexivity. Qed.

(** C6, amended: on a listing whose blobs download as [content] says, a
    run of [download_folder] that ends normally has handled exactly the blobs
    whose name does not end in "/": each has been written to the path that
    joins [local_folder] and its path relative to the prefix; the file at
    that path holds the blob's content (that of the last such blob when
    several go to one file); and nothing else has changed on the file
    system but directories made where there was nothing. *)
Theorem download_folder_writes_blobs {C} (sdk : StorageSDK C)
  (bucket_name gcs_folder local_folder : string) (content : string → string)
  (c0 : C) (blobs : list string) (w : world C) :
  client_list_blobs sdk bucket_name (Some gcs_folder) (cloud w)
  = (Ok blobs, c0) →
  Forall (steady sdk bucket_name content c0) (kept_blobs blobs) →
  (download_folder sdk bucket_name gcs_folder local_folder w).1 = Ok () →
  ∃ tasks : list (string * string),
    tasks.*1 = kept_blobs blobs
    ∧ Forall (λ t, ∃ relative_path,
                  relpath (fs_cwd (fs w)) t.1 gcs_folder = Ok relative_path
                  ∧ t.2 = path_join local_folder relative_path) tasks
    ∧ (∀ l1 t l2, tasks = l1 ++ t :: l2 →
         (∀ t', t' ∈ l2 → locate (fs w) t'.2 ≠ locate (fs w) t.2) →
         node_at (fs_tree (fs (download_folder sdk bucket_name gcs_folder
                                 local_folder w).2))
           (locate (fs w) t.2)
         = Some (File (content t.1)))
    ∧ (∀ l,
         node_at (fs_tree (fs (download_folder sdk bucket_name gcs_folder
                                 local_folder w).2)) l
         = node_at (fs_tree (fs w)) l
         ∨ (node_at (fs_tree (fs w)) l = None
            ∧ node_at (fs_tree (fs (download_folder sdk bucket_name
                                      gcs_folder local_folder w).2)) l
              = Some Dir)
         ∨ ∃ t, t ∈ tasks ∧ l = locate (fs w) t.2
                ∧ node_at (fs_tree (fs (download_folder sdk bucket_name
                                          gcs_folder local_folder w).2)) l
                  = Some (File (content t.1))).
Proof.
  intros Hlist Hst Hok.
  destruct (download_folder_ok sdk bucket_name gcs_folder local_folder
              content c0 blobs w Hlist Hst Hok) as (tasks & Hplan & Heff).
  destruct (plan_tasks gcs_folder local_folder _ _ _ Hplan) as [Hk Hp].
  destruct (sequential_effect_nodes _ _ _ _ Heff) as [H1 H2].
  exists tasks. done.
Qed.

Lemma download_folder_writes_blobs_witness :
  client_list_blobs mem_storage "bucket" (Some "a")
    (cloud (sample_world folder_bucket))
  = (Ok ["a/1.txt"; "a/2.txt"; "a/sub/"], folder_bucket)
  ∧ Forall (steady mem_storage "bucket" (mem_content folder_bucket "bucket")
              folder_bucket)
      (kept_blobs ["a/1.txt"; "a/2.txt"; "a/sub/"])
  ∧ (download_folder mem_storage "bucket" "a" "out"
       (sample_world folder_bucket)).1 = Ok ()
  ∧ ∃ tasks : list (string * string),
      tasks.*1 = kept_blobs ["a/1.txt"; "a/2.txt"; "a/sub/"]
      ∧ Forall (λ t, ∃ relative_path,
                    relpath "/w" t.1 "a" = Ok relative_path
                    ∧ t.2 = path_join "out" relative_path) tasks
      ∧ (∀ l1 t l2, tasks = l1 ++ t :: l2 →
           (∀ t', t' ∈ l2 → locate sample_fs t'.2 ≠ locate sample_fs t.2) →
           node_at (fs_tree (fs (download_folder mem_storage "bucket" "a"
                                   "out" (sample_world folder_bucket)).2))
             (locate sample_fs t.2)
           = Some (File (mem_content folder_bucket "bucket" t.1)))
      ∧ (∀ l,
           node_at (fs_tree (fs (download_folder mem_storage "bucket" "a"
                                   "out" (sample_world folder_bucket)).2)) l
           = node_at (fs_tree sample_fs) l
           ∨ (node_at (fs_tree sample_fs) l = None
              ∧ node_at (fs_tree (fs (download_folder mem_storage "bucket"
                                        "a" "out"
                                        (sample_world folder_bucket)).2)) l
                = Some Dir)
           ∨ ∃ t, t ∈ tasks ∧ l = locate sample_fs t.2
                  ∧ node_at (fs_tree (fs (download_folder mem_storage
                                            "bucket" "a" "out"
                                            (sample_world folder_bucket)).2))
                      l
                    = Some (File (mem_content folder_bucket "bucket" t.1))).
Proof.
  assert (H1 : client_list_blobs mem_storage "bucket" (Some "a")
                 (cloud (sample_world folder_bucket))
               = (Ok ["a/1.txt"; "a/2.txt"; "a/sub/"], folder_bucket))
    by reflexivity.
  assert (H2 : Forall (steady mem_storage "bucket"
                         (mem_content folder_bucket "bucket") folder_bucket)
                 (kept_blobs ["a/1.txt"; "a/2.txt"; "a/sub/"]))
    by (repeat constructor).
  assert (H3 : (download_folder mem_storage "bucket" "a" "out"
                  (sample_world folder_bucket)).1 = Ok ())
    by (vm_compute; reflexivity).
  split; [exact H1|]. split; [exact H2|]. split; [exact H3|].
  exact (download_folder_writes_blobs mem_storage "bucket" "a" "out"
           (mem_content folder_bucket "bucket") folder_bucket
           ["a/1.txt"; "a/2.txt"; "a/sub/"] (sample_world folder_bucket)
           H1 H2 H3).
Defined.

(** The example of the claim: objects [a/1.txt], [a/2.txt] and the marker
    [a/sub/] under the prefix [a]; afterwards the local directory [out]
    holds [1.txt] and [2.txt] with the objects' contents, and nothing else
    is new. *)
Example download_folder_example :
  (download_folder mem_storage "bucket" "a" "out"
     (sample_world folder_bucket)).1 = Ok ()
  ∧ fs_tree (fs (download_folder mem_storage "bucket" "a" "out"
                   (sample_world folder_bucket)).2)
    = <[["w"; "out"; "2.txt"] := File "two"]>
        (<[["w"; "out"; "1.txt"] := File "one"]>
           (<[["w"; "out"] := Dir]> (fs_tree sample_fs))).
Proof. split; vm_compute; reflexivity. Qed.




(** *** The log *)

Lemma error_lines_app (a b : list (level * string)) :
  error_lines (a ++ b) = error_lines a ++ error_lines b.
Proof. apply omap_app. Qed.

Lemma silent_errors_only {C A} (m : M (C:=C) A) :
  silent m → errors_only_on_failure m.
Proof.
  intros Hm w. destruct (Hm w) as (new & Hl & Hq).
  exists new. split; [done|]. by rewrite Hq.
Qed.

Lemma reports_errors_only {C A} (m : M (C:=C) A) :
  reports_failures m → errors_only_on_failure m.
Proof.
  intros Hm w. destruct (Hm w) as (new & Hl & Hq).
  exists new. split; [done|]. apply Hq.
Qed.

Lemma silent_no_log {C A} (m : M (C:=C) A) :
  (∀ w, logs (m w).2 = logs w) → silent m.
Proof. intros H w. exists []. by rewrite app_nil_r. Qed.

Lemma silent_info {C} msg : silent (C:=C) (logger_info msg).
Proof. intros w. by exists [(INFO, msg)]. Qed.

Lemma silent_bind {C A B} (m : M (C:=C) A) (k : A → M B) :
  silent m → (∀ a, silent (k a)) → silent (m ≫= k).
Proof.
  intros Hm Hk w. destruct (Hm w) as (n1 & Hl1 & H1).
  unfold mbind, M_bind. destruct (m w) as [[a|e] w1]; simpl in *.
  - destruct (Hk a w1) as (n2 & Hl2 & H2). exists (n1 ++ n2). split.
    + by rewrite Hl2, Hl1, app_assoc.
    + by rewrite error_lines_app, H1, H2.
  - by exists n1.
Qed.

Lemma errors_only_bind {C A B} (m : M (C:=C) A) (k : A → M B) :
  errors_only_on_failure m → (∀ a, errors_only_on_failure (k a)) →
  errors_only_on_failure (m ≫= k).
Proof.
  intros Hm Hk w. destruct (Hm w) as (n1 & Hl1 & H1).
  unfold mbind, M_bind. destruct (m w) as [[a|e] w1]; simpl in *.
  - destruct (Hk a w1) as (n2 & Hl2 & H2). exists (n1 ++ n2). split.
    + by rewrite Hl2, Hl1, app_assoc.
    + rewrite error_lines_app. destruct (error_lines n1) as [|x l].
      * apply H2.
      * destruct H1 as (e & ? & _); done.
  - exists n1. split; [done|]. intros Hne.
    destruct (H1 Hne) as (e' & [= <-] & He'). by exists e.
Qed.

Lemma errors_only_for_each {C A} (l : list A) (body : A → M (C:=C) unit) :
  (∀ x, errors_only_on_failure (body x)) →
  errors_only_on_failure (for_each l body).
Proof.
  intros Hb. induction l as [|x l IH]; simpl.
  - apply silent_errors_only, silent_no_log. done.
  - apply errors_only_bind; [apply Hb | intros _; apply IH].
Qed.

Lemma reports_info {C} msg : reports_failures (C:=C) (logger_info msg).
Proof.
  intros w. exists [(INFO, msg)]. split; [done|].
  split; [done | by intros (e & ? & _)].
Qed.

Lemma reports_ret {C A} (a : A) : reports_failures (C:=C) (mret a).
Proof.
  intros w. exists []. split; [by rewrite app_nil_r|].
  split; [done | by intros (e & ? & _)].
Qed.

Lemma reports_bind {C A B} (m : M (C:=C) A) (k : A → M B) :
  reports_failures m → (∀ a, reports_failures (k a)) →
  reports_failures (m ≫= k).
Proof.
  intros Hm Hk w. destruct (Hm w) as (n1 & Hl1 & H1).
  unfold mbind, M_bind. destruct (m w) as [[a|e] w1]; simpl in *.
  - destruct (Hk a w1) as (n2 & Hl2 & H2). exists (n1 ++ n2). split.
    + by rewrite Hl2, Hl1, app_assoc.
    + rewrite error_lines_app. destruct (error_lines n1) as [|x l].
      * apply H2.
      * destruct H1 as [H1 _]. destruct H1 as (e & ? & _); done.
  - exists n1. split; [done|]. split.
    + intros Hne. apply H1 in Hne as (e' & [= <-] & He'). by exists e.
    + intros (e' & [= <-] & He'). apply H1. by exists e.
Qed.

Lemma reports_log_and_reraise {C A} (msg : exn → string) (e : exn) :
  reports_failures (C:=C) (A:=A) (log_and_reraise logger_error msg e).
Proof.
  intros w. unfold log_and_reraise. destruct (is_Exception e) eqn:HE.
  - exists [(ERROR, msg e)]. split; [done|]. split; [|done].
    intros _. by exists e.
  - exists []. split; [by rewrite app_nil_r|]. split; [done|].
    intros (e' & [= <-] & He'). congruence.
Qed.

(** [except Exception as e: logger.error(...); raise] around a body that
    logs errors only when it fails. *)
Lemma reports_try_log {C A} (body : M (C:=C) A) (msg : exn → string) :
  errors_only_on_failure body →
  reports_failures (try_except body (log_and_reraise logger_error msg)).
Proof.
  intros Hb w. destruct (Hb w) as (n1 & Hl & H1). unfold try_except.
  destruct (body w) as [[a|e] w1]; simpl in *.
  - exists n1. split; [done|]. split; [done | by intros (e & ? & _)].
  - destruct (reports_log_and_reraise (A:=A) msg e w1) as (n2 & Hl2 & H2).
    exists (n1 ++ n2). split; [by rewrite Hl2, Hl, app_assoc|].
    rewrite error_lines_app. split; [|intros Hr].
    + intros Hne.
      destruct (decide (error_lines n2 = [])) as [E2|E2]; [|by apply H2].
      rewrite E2, app_nil_r in Hne.
      destruct (H1 Hne) as (e' & [= <-] & He'). unfold log_and_reraise.
      rewrite He'. simpl. by exists e.
    + apply H2 in Hr. intros E. by apply app_eq_nil in E as [_ ?].
Qed.

(** A handler of its own around a body that logs no error. *)
Lemma reports_try_silent {C A} (body : M (C:=C) A) (handler : exn → M A) :
  silent body → (∀ e, reports_failures (handler e)) →
  reports_failures (try_except body handler).
Proof.
  intros Hb Hh w. destruct (Hb w) as (n1 & Hl & H1). unfold try_except.
  destruct (body w) as [[a|e] w1]; simpl in *.
  - exists n1. split; [done|]. rewrite H1.
    split; [done | by intros (e & ? & _)].
  - destruct (Hh e w1) as (n2 & Hl2 & H2).
    exists (n1 ++ n2). split; [by rewrite Hl2, Hl, app_assoc|].
    by rewrite error_lines_app, H1.
Qed.

Lemma silent_remote {C A} (op : C → outcome A * C) : silent (remote op).
Proof. apply silent_no_log. intros w. run. by destruct (op (cloud w)) as [[] ?]. Qed.

Lemma silent_fs_update {C} op : silent (C:=C) (fs_update op).
Proof. apply silent_no_log. intros w. run. by destruct (op (fs w)). Qed.

Lemma silent_fs_makedirs {C} path : silent (C:=C) (fs_makedirs path).
Proof.
  apply silent_no_log. intros w. run. by destruct (makedirs path (fs w)).
Qed.

Lemma silent_local_path {C} gcs_folder local_folder blob_name :
  silent (C:=C) (local_path_of gcs_folder local_folder blob_name).
Proof. apply silent_no_log. intros w. unfold local_path_of. run. done. Qed.

Lemma reports_execute_query {C Job} (sdk : BigQuerySDK C Job) query params :
  reports_failures (execute_query sdk query params).
Proof.
  unfold execute_query.
  apply reports_bind; [apply reports_info | intros _].
  apply reports_try_log, silent_errors_only.
  apply silent_bind; [by apply silent_no_log | intros job_config].
  apply silent_bind; [apply silent_remote | intros job].
  apply silent_bind; [apply silent_remote | intros result].
  apply silent_bind; [apply silent_info | intros _].
  by apply silent_no_log.
Qed.

Lemma reports_get_table_data {C Job} (sdk : BigQuerySDK C Job)
  dataset_id table_id limit :
  reports_failures (get_table_data sdk dataset_id table_id limit).
Proof.
  unfold get_table_data.
  apply reports_bind; [apply reports_info | intros _].
  apply reports_try_log, reports_errors_only, reports_execute_query.
Qed.

Lemma reports_table_exists {C Job} (sdk : BigQuerySDK C Job)
  dataset_id table_id :
  reports_failures (table_exists sdk dataset_id table_id).
Proof.
  unfold table_exists.
  apply reports_bind; [apply reports_info | intros _].
  apply reports_try_silent.
  - apply silent_bind; [apply silent_remote | intros _].
    apply silent_bind; [apply silent_info | intros _].
    by apply silent_no_log.
  - intros e. destruct (is_NotFound e).
    + apply reports_bind; [apply reports_info | intros _; apply reports_ret].
    + apply reports_log_and_reraise.
Qed.

Lemma reports_create_table {C Job} (sdk : BigQuerySDK C Job)
  dataset_id table_id schema :
  reports_failures (create_table sdk dataset_id table_id schema).
Proof.
  unfold create_table.
  apply reports_bind; [apply reports_info | intros _].
  apply reports_try_log, silent_errors_only.
  apply silent_bind; [apply silent_remote | intros _]. apply silent_info.
Qed.

Lemma reports_upload_dataframe {C Job} (sdk : BigQuerySDK C Job)
  dataset_id table_id dataframe write_disposition :
  reports_failures (upload_dataframe sdk dataset_id table_id dataframe
                      write_disposition).
Proof.
  unfold upload_dataframe.
  apply reports_bind; [apply reports_info | intros _].
  apply reports_try_log, silent_errors_only.
  apply silent_bind; [apply silent_remote | intros job].
  apply silent_bind; [apply silent_remote | intros _]. apply silent_info.
Qed.

Lemma reports_download_blob {C} (sdk : StorageSDK C) bucket_name blob_name :
  reports_failures (download_blob sdk bucket_name blob_name).
Proof.
  unfold download_blob.
  apply reports_bind; [apply reports_info | intros _].
  apply reports_try_silent.
  - apply silent_bind; [apply silent_remote | intros content].
    apply silent_bind; [apply silent_info | intros _].
    by apply silent_no_log.
  - intros e. destruct (is_NotFound e).
    + intros w. eexists [(ERROR, _)]. split; [done|]. split; [|done].
      intros _. by eexists.
    + apply reports_log_and_reraise.
Qed.

Lemma reports_upload_blob {C} (sdk : StorageSDK C)
  bucket_name blob_name file_path is_public :
  reports_failures (upload_blob sdk bucket_name blob_name file_path is_public).
Proof.
  unfold upload_blob.
  apply reports_bind; [apply reports_info | intros _].
  apply reports_try_log, silent_errors_only.
  apply silent_bind; [apply silent_remote | intros _].
  apply silent_bind; [apply silent_info | intros _].
  apply silent_bind; [by apply silent_no_log | intros data].
  apply silent_bind; [apply silent_remote | intros _].
  apply silent_bind; [|intros _; by apply silent_no_log].
  destruct is_public; [|by apply silent_no_log].
  apply silent_bind; [apply silent_remote | intros _]. apply silent_info.
Qed.

Lemma reports_list_blobs {C} (sdk : StorageSDK C) bucket_name prefix :
  reports_failures (list_blobs sdk bucket_name prefix).
Proof.
  unfold list_blobs.
  apply reports_bind; [apply reports_info | intros _].
  apply reports_try_log, silent_errors_only.
  apply silent_bind; [apply silent_remote | intros blobs].
  apply silent_bind; [apply silent_info | intros _].
  by apply silent_no_log.
Qed.

Lemma reports_download_folder {C} (sdk : StorageSDK C)
  bucket_name gcs_folder local_folder :
  reports_failures (download_folder sdk bucket_name gcs_folder local_folder).
Proof.
  unfold download_folder.
  apply reports_bind; [apply reports_info | intros _].
  apply reports_try_log.
  apply errors_only_bind;
    [apply reports_errors_only, reports_list_blobs | intros blobs].
  apply errors_only_for_each. intros blob_name.
  destruct (endswith blob_name "/").
  { by apply silent_errors_only, silent_no_log. }
  apply errors_only_bind;
    [apply silent_errors_only, silent_local_path | intros local_file_path].
  apply errors_only_bind;
    [apply silent_errors_only, silent_fs_makedirs | intros _].
  apply errors_only_bind;
    [apply reports_errors_only, reports_download_blob | intros content].
  apply errors_only_bind;
    [apply silent_errors_only, silent_fs_update | intros _].
  apply silent_errors_only, silent_info.
Qed.

(** Every synchronous operation of the two connectors, and every
    asynchronous one that hands a synchronous one to a thread, only adds to
    the log, and adds a line at level ERROR exactly in the runs that raise
    an [Exception]: none when it returns ([table_exists] on a missing
    table included), at least one when it fails. *)
Theorem operations_report_failures {C Job} (bq : BigQuerySDK C Job)
  (st : StorageSDK C) :
  (∀ query params,
     reports_failures (execute_query bq query params)
     ∧ reports_failures (execute_query_async bq query params))
  ∧ (∀ dataset_id table_id limit,
       reports_failures (get_table_data bq dataset_id table_id limit)
       ∧ reports_failures (get_table_data_async bq dataset_id table_id limit))
  ∧ (∀ dataset_id table_id,
       reports_failures (table_exists bq dataset_id table_id)
       ∧ reports_failures (table_exists_async bq dataset_id table_id))
  ∧ (∀ dataset_id table_id schema,
       reports_failures (create_table bq dataset_id table_id schema)
       ∧ reports_failures (create_table_async bq dataset_id table_id schema))
  ∧ (∀ dataset_id table_id dataframe write_disposition,
       reports_failures (upload_dataframe bq dataset_id table_id dataframe
                           write_disposition)
       ∧ reports_failures (upload_dataframe_async bq dataset_id table_id
                             dataframe write_disposition))
  ∧ (∀ bucket_name blob_name,
       reports_failures (download_blob st bucket_name blob_name)
       ∧ reports_failures (download_blob_async st bucket_name blob_name))
  ∧ (∀ bucket_name blob_name file_path is_public,
       reports_failures (upload_blob st bucket_name blob_name file_path
                           is_public)
       ∧ reports_failures (upload_blob_async st bucket_name blob_name
                             file_path is_public))
  ∧ (∀ bucket_name prefix,
       reports_failures (list_blobs st bucket_name prefix)
       ∧ reports_failures (list_blobs_async st bucket_name prefix))
  ∧ (∀ bucket_name gcs_folder local_folder,
       reports_failures (download_folder st bucket_name gcs_folder
                           local_folder)).
Proof.
  split_and!.
  - intros. split; [apply reports_execute_query|].
    apply reports_bind; [apply reports_info | intros _].
    apply reports_execute_query.
  - intros. split; [apply reports_get_table_data|].
    apply reports_bind; [apply reports_info | intros _].
    apply reports_get_table_data.
  - intros. split; [apply reports_table_exists|].
    apply reports_bind; [apply reports_info | intros _].
    apply reports_table_exists.
  - intros. split; [apply reports_create_table|].
    apply reports_bind; [apply reports_info | intros _].
    apply reports_create_table.
  - intros. split; [apply reports_upload_dataframe|].
    apply reports_bind; [apply reports_info | intros _].
    apply reports_upload_dataframe.
  - intros. split; [apply reports_download_blob|].
    apply reports_bind; [apply reports_info | intros _].
    apply reports_download_blob.
  - intros. split; [apply reports_upload_blob|].
    apply reports_bind; [apply reports_info | intros _].
    apply reports_bind; [apply reports_upload_blob | intros _].
    apply reports_ret.
  - intros. split; [apply reports_list_blobs|].
    apply reports_bind; [apply reports_info | intros _].
    apply reports_list_blobs.
  - intros. apply reports_download_folder.
Qed.

(** A failure of [get_table_data] is reported twice: the query runs
    through [execute_query], which logs the error and raises it again, and
    [get_table_data] then logs the same error under its own message.
    These are the only two lines at level ERROR. *)
Theorem get_table_data_logs_twice {C Job} (sdk : BigQuerySDK C Job)
  (dataset_id table_id : string) (limit : option Z) (w : world C) (e : exn) :
  (get_table_data sdk dataset_id table_id limit w).1 = Raise e →
  is_Exception e = true →
  error_lines (logs (get_table_data sdk dataset_id table_id limit w).2)
  = error_lines (logs w)
    ++ [ "Error executing BigQuery query: " +:+ exn_str e;
         "Error getting data from table " +:+ dataset_id +:+ "." +:+ table_id
         +:+ ": " +:+ exn_str e ].
Proof.
  unfold get_table_data, execute_query. run.
  destruct (client_query sdk _ _ (cloud w)) as [[job|e0] c]; simpl.
  - destruct (job_to_dataframe sdk job c) as [[df|e0] c']; simpl; [done|].
    case_exn e0; intros [= <-] He; [|congruence].
    rewrite !error_lines_app. simpl. by rewrite !app_nil_r, <- app_assoc.
  - case_exn e0; intros [= <-] He; [|congruence].
    rewrite !error_lines_app. simpl. by rewrite !app_nil_r, <- app_assoc.
Qed.

Lemma get_table_data_logs_twice_witness :
  error_lines
    (logs (get_table_data unreachable_bigquery "sales" "orders" (Some 10)
             (sample_world ())).2)
  = error_lines (logs (sample_world ()))
    ++ [ "Error executing BigQuery query: " +:+ exn_str unavailable;
         "Error getting data from table " +:+ "sales" +:+ "." +:+ "orders"
         +:+ ": " +:+ exn_str unavailable ].
Proof.
  assert (H1 : (get_table_data unreachable_bigquery "sales" "orders"
                  (Some 10) (sample_world ())).1 = Raise unavailable)
    by (vm_compute; reflexivity).
  exact (get_table_data_logs_twice unreachable_bigquery "sales" "orders"
           (Some 10) (sample_world ()) unavailable H1 eq_refl).
Defined.

(** [upload_blob] writes its success line before it uploads.  When the
    library accepts the bucket and blob names (lines 64-65) and the local
    file cannot be read, the call raises the error of the failed read
    without sending anything to the service, and the log still says
    ["Successfully uploaded ..."], followed by the error line, which ends
    in the text of the error. *)
Theorem upload_blob_unreadable_file {C} (sdk : StorageSDK C)
  (bucket_name blob_name file_path : string) (is_public : bool)
  (w : world C) (e : exn) :
  client_bucket_blob sdk bucket_name blob_name = Ok () →
  read_file file_path (fs w) = Raise e →
  (upload_blob sdk bucket_name blob_name file_path is_public w).1 = Raise e
  ∧ cloud (upload_blob sdk bucket_name blob_name file_path is_public w).2
    = cloud w
  ∧ faults (upload_blob sdk bucket_name blob_name file_path is_public w).2
    = faults w
  ∧ logs (upload_blob sdk bucket_name blob_name file_path is_public w).2
    = logs w
      ++ [ (INFO, "Uploading " +:+ blob_name +:+ " to " +:+ bucket_name);
           (INFO, "Successfully uploaded " +:+ blob_name +:+ " to "
                  +:+ bucket_name) ]
      ++ (if is_Exception e
          then [ (ERROR, "Error uploading " +:+ blob_name +:+ " to "
                         +:+ bucket_name +:+ ": " +:+ exn_str e) ]
          else []).
Proof.
  intros Hhandle Hread. unfold upload_blob. run.
  rewrite Hhandle. simpl. rewrite Hread. simpl.
  case_exn e; by rewrite <- ?app_assoc, ?app_nil_r.
Qed.

Lemma upload_blob_unreadable_file_witness :
  (upload_blob mem_storage "reports" "2024/q2.txt" "q2.txt" false
     (sample_world ([] : list mem_blob))).1
  = Raise (FileNotFoundError
             "[Errno 2] No such file or directory: 'q2.txt'")
  ∧ cloud (upload_blob mem_storage "reports" "2024/q2.txt" "q2.txt" false
             (sample_world ([] : list mem_blob))).2 = []
  ∧ logs (upload_blob mem_storage "reports" "2024/q2.txt" "q2.txt" false
            (sample_world ([] : list mem_blob))).2
    = [ (INFO, "Uploading 2024/q2.txt to reports");
        (INFO, "Successfully uploaded 2024/q2.txt to reports");
        (ERROR, "Error uploading 2024/q2.txt to reports: [Errno 2] No such file or directory: 'q2.txt'") ].
Proof.
  assert (H0 : client_bucket_blob mem_storage "reports" "2024/q2.txt"
               = Ok ())
    by (vm_compute; reflexivity).
  assert (H1 : read_file "q2.txt" (fs (sample_world ([] : list mem_blob)))
               = Raise (FileNotFoundError
                          "[Errno 2] No such file or directory: 'q2.txt'"))
    by (vm_compute; reflexivity).
  pose proof (upload_blob_unreadable_file mem_storage "reports" "2024/q2.txt"
                "q2.txt" false (sample_world ([] : list mem_blob))
                (FileNotFoundError
                   "[Errno 2] No such file or directory: 'q2.txt'") H0 H1)
    as (Hr & Hc & _ & Hl).
  split; [exact Hr|]. split; [exact Hc|]. exact Hl.
Defined.

(** [upload_blob] does not undo the upload when making the object public
    fails: the call raises the error of [make_public], and the service is
    left with the object uploaded. *)
Theorem upload_blob_no_rollback {C} (sdk : StorageSDK C)
  (bucket_name blob_name file_path data : string) (w : world C)
  (c1 c2 : C) (e : exn) :
  read_file file_path (fs w) = Ok data →
  blob_upload sdk bucket_name blob_name data (cloud w) = (Ok (), c1) →
  blob_make_public sdk bucket_name blob_name c1 = (Raise e, c2) →
  (upload_blob sdk bucket_name blob_name file_path true w).1 = Raise e
  ∧ cloud (upload_blob sdk bucket_name blob_name file_path true w).2 = c2
  ∧ faults (upload_blob sdk bucket_name blob_name file_path true w).2
    = faults w ++ [e].
Proof.
  intros Hread Hup Hpub. unfold upload_blob. unfold blob_upload in Hup. run.
  destruct (client_bucket_blob sdk bucket_name blob_name) as [[]|e0];
    simpl; [|done].
  rewrite Hread. simpl. rewrite Hup. simpl. rewrite Hpub. simpl.
  by case_exn e.
Qed.

Lemma upload_blob_no_rollback_witness :
  (upload_blob uniform_access_storage "reports" "2024/q1.txt" "report.txt"
     true (sample_world ([] : list mem_blob))).1
  = Raise (OtherException "google.api_core.exceptions.BadRequest"
             "400 Cannot get legacy ACL for an object when uniform bucket-level access is enabled")
  ∧ cloud (upload_blob uniform_access_storage "reports" "2024/q1.txt"
             "report.txt" true (sample_world ([] : list mem_blob))).2
    = [ {| mb_bucket := "reports"; mb_name := "2024/q1.txt";
           mb_data := "quarterly figures"; mb_public := false |} ].
Proof.
  assert (H1 : read_file "report.txt"
                 (fs (sample_world ([] : list mem_blob)))
               = Ok "quarterly figures")
    by (vm_compute; reflexivity).
  pose proof (upload_blob_no_rollback uniform_access_storage "reports"
                "2024/q1.txt" "report.txt" "quarterly figures"
                (sample_world ([] : list mem_blob)) _ _ _ H1 eq_refl eq_refl)
    as (Hr & Hc & _).
  split; [exact Hr | exact Hc].
Defined.

(** A run of [download_folder] whose listing succeeds is a run of its loop
    under the handler. *)
Lemma download_folder_run {C} (sdk : StorageSDK C)
  bucket_name gcs_folder local_folder blobs c (w : world C) :
  client_list_blobs sdk bucket_name (Some gcs_folder) (cloud w)
  = (Ok blobs, c) →
  ∃ w1, cloud w1 = c ∧ fs w1 = fs w ∧ faults w1 = faults w
        ∧ download_folder sdk bucket_name gcs_folder local_folder w
          = match folder_loop sdk bucket_name gcs_folder local_folder blobs
                    w1 with
            | (Ok a, w') => (Ok a, w')
            | (Raise e, w') =>
                log_and_reraise logger_error
                  (folder_error gcs_folder bucket_name) e w'
            end.
Proof.
  intros Hlist.
  unfold download_folder. unfold mbind at 1, M_bind at 1.
  destruct (log_only_info ("Downloading folder " +:+ gcs_folder +:+ " from "
              +:+ bucket_name +:+ " to " +:+ local_folder) w)
    as (w0 & Hlog & Hc0 & Hf0).
  assert (Hq0 : faults w0 = faults w) by (by injection Hlog as <-).
  rewrite Hlog. unfold try_except. unfold mbind at 1, M_bind at 1.
  rewrite <- Hc0 in Hlist.
  destruct (list_blobs_run sdk bucket_name _ _ _ _ Hlist)
    as (w1 & Hl & Hc1 & Hf1).
  assert (Hq1 : faults w1 = faults w0).
  { unfold list_blobs in Hl. run. rewrite Hlist in Hl. simpl in Hl.
    by injection Hl as <-. }
  rewrite Hl. exists w1.
  split; [done|]. split; [congruence|]. split; [congruence|]. done.
Qed.

Lemma for_each_markers {C} (body : string → M (C:=C) unit)
  (blobs : list string) (w : world C) :
  Forall (λ b, endswith b "/" = true) blobs →
  for_each blobs (λ b, if endswith b "/" then mret () else body b) w
  = (Ok (), w).
Proof.
  induction 1 as [|b blobs Hb _ IH]; [done|].
  simpl. unfold mbind, M_bind. rewrite Hb. simpl. apply IH.
Qed.

Lemma collect_tasks_markers {C} gcs_folder local_folder
  (blobs : list string) (w : world C) :
  Forall (λ b, endswith b "/" = true) blobs →
  collect_tasks gcs_folder local_folder blobs w = (Ok [], w).
Proof.
  induction 1 as [|b blobs Hb _ IH]; [done|]. simpl. by rewrite Hb.
Qed.

Lemma finish_no_task {C} (sdk : StorageSDK C) bucket_name order
  (w : world C) :
  finish_in_order sdk bucket_name [] order w = (Ok (), w).
Proof. induction order as [|i order IH]; [done|]. simpl. apply IH. Qed.

(** A listing that holds nothing but folder markers (or nothing at all)
    makes both folder downloads return without touching the local file
    system: not even [local_folder] is created. *)
Theorem download_folder_markers_only {C} (sdk : StorageSDK C)
  (bucket_name gcs_folder local_folder : string) (blobs : list string)
  (c : C) (w : world C) :
  client_list_blobs sdk bucket_name (Some gcs_folder) (cloud w)
  = (Ok blobs, c) →
  Forall (λ b, endswith b "/" = true) blobs →
  (download_folder sdk bucket_name gcs_folder local_folder w).1 = Ok ()
  ∧ fs (download_folder sdk bucket_name gcs_folder local_folder w).2 = fs w
  ∧ ∀ order,
      (download_folder_async sdk order bucket_name gcs_folder local_folder
         w).1 = Ok ()
      ∧ fs (download_folder_async sdk order bucket_name gcs_folder
              local_folder w).2 = fs w.
Proof.
  intros Hlist Hm.
  destruct (download_folder_run sdk bucket_name gcs_folder local_folder
              blobs c w Hlist) as (w1 & Hc1 & Hf1 & _ & ->).
  unfold folder_loop, folder_turn. rewrite for_each_markers by done.
  split; [done|]. split; [done|].
  intros order.
  unfold download_folder_async, list_blobs_async, list_blobs, gather. run.
  rewrite Hlist. simpl. rewrite collect_tasks_markers by done. simpl.
  by rewrite finish_no_task.
Qed.

Lemma download_folder_markers_only_witness :
  (download_folder mem_storage "bucket" "a" "out"
     (sample_world marker_bucket)).1 = Ok ()
  ∧ fs (download_folder mem_storage "bucket" "a" "out"
          (sample_world marker_bucket)).2 = sample_fs
  ∧ (download_folder_async mem_storage [0%nat; 1%nat] "bucket" "a" "out"
       (sample_world marker_bucket)).1 = Ok ().
Proof.
  assert (H1 : client_list_blobs mem_storage "bucket" (Some "a")
                 (cloud (sample_world marker_bucket))
               = (Ok ["a/"; "a/sub/"], marker_bucket))
    by (vm_compute; reflexivity).
  assert (H2 : Forall (λ b, endswith b "/" = true) ["a/"; "a/sub/"])
    by (repeat constructor).
  pose proof (download_folder_markers_only mem_storage "bucket" "a" "out"
                ["a/"; "a/sub/"] marker_bucket (sample_world marker_bucket)
                H1 H2) as (Hr & Hf & Ha).
  split; [exact Hr|]. split; [exact Hf|]. exact (proj1 (Ha [0%nat; 1%nat])).
Defined.

(** *** Folder downloads that fail on the way *)

Section FolderFailures.
Context {C : Type} (sdk : StorageSDK C).
Context (bucket_name gcs_folder local_folder : string).
Context (content : string → string) (c0 : C).

Lemma download_blob_good b (w : world C) :
  cloud w = c0 → steady sdk bucket_name content c0 b →
  ∃ w', download_blob sdk bucket_name b w = (Ok (content b), w')
        ∧ cloud w' = c0 ∧ fs w' = fs w ∧ faults w' = faults w.
Proof.
  intros Hc Hb. unfold download_blob. run. rewrite Hc, Hb. simpl.
  eexists. by split.
Qed.

Lemma download_blob_bad b e c1 (w : world C) :
  cloud w = c0 →
  blob_download_as_bytes sdk bucket_name b c0 = (Raise e, c1) →
  ∃ w', download_blob sdk bucket_name b w
        = (Raise (if is_NotFound e then missing_blob bucket_name b else e),
           w')
        ∧ cloud w' = c1 ∧ fs w' = fs w ∧ faults w' = faults w ++ [e].
Proof.
  intros Hc Hb. unfold download_blob. run. rewrite Hc, Hb. simpl.
  destruct (is_NotFound e); simpl.
  - eexists. by split.
  - case_exn e; eexists; by split.
Qed.

Lemma folder_turn_good b p f1 f2 (w : world C) :
  cloud w = c0 → steady sdk bucket_name content c0 b →
  endswith b "/" = false →
  target_of (fs_cwd (fs w)) gcs_folder local_folder b = Ok p →
  makedirs (dirname p) (fs w) = Ok f1 →
  write_file p (content b) f1 = Ok f2 →
  ∃ w', folder_turn sdk bucket_name gcs_folder local_folder b w = (Ok (), w')
        ∧ cloud w' = c0 ∧ fs w' = f2 ∧ faults w' = faults w.
Proof.
  intros Hc Hb Hm Hp Hd Hw. unfold folder_turn, local_path_of. rewrite Hm.
  unfold mbind at 1, M_bind at 1. unfold mbind at 1, M_bind at 1.
  unfold getcwd at 1, plain at 1. rewrite Hp.
  unfold mbind at 1, M_bind at 1. unfold fs_makedirs at 1. rewrite Hd.
  set (w1 := {| cloud := cloud w; fs := f1; logs := logs w;
                faults := faults w |}).
  unfold mbind at 1, M_bind at 1.
  destruct (download_blob_good b w1 Hc Hb) as (w2 & -> & Hc2 & Hf2 & Hq2).
  unfold mbind at 1, M_bind at 1. unfold fs_update at 1.
  rewrite Hf2. simpl. rewrite Hw. simpl. eexists. split; [done|]. simpl.
  split; [done|]. split; [done|]. by rewrite Hq2.
Qed.

Lemma folder_turn_bad b p f1 e c1 (w : world C) :
  cloud w = c0 →
  blob_download_as_bytes sdk bucket_name b c0 = (Raise e, c1) →
  endswith b "/" = false →
  target_of (fs_cwd (fs w)) gcs_folder local_folder b = Ok p →
  makedirs (dirname p) (fs w) = Ok f1 →
  ∃ w', folder_turn sdk bucket_name gcs_folder local_folder b w
        = (Raise (if is_NotFound e then missing_blob bucket_name b else e),
           w')
        ∧ cloud w' = c1 ∧ fs w' = f1 ∧ faults w' = faults w ++ [e].
Proof.
  intros Hc Hb Hm Hp Hd. unfold folder_turn, local_path_of. rewrite Hm.
  unfold mbind at 1, M_bind at 1. unfold mbind at 1, M_bind at 1.
  unfold getcwd at 1, plain at 1. rewrite Hp.
  unfold mbind at 1, M_bind at 1. unfold fs_makedirs at 1. rewrite Hd.
  set (w1 := {| cloud := cloud w; fs := f1; logs := logs w;
                faults := faults w |}).
  unfold mbind at 1, M_bind at 1.
  destruct (download_blob_bad b e c1 w1 Hc Hb) as (w2 & -> & Hc2 & Hf2 & Hq2).
  by exists w2.
Qed.

(** The sequential loop runs to its end on blobs that download, when the
    turns of its tasks succeed on the file system. *)
Lemma folder_loop_good blobs :
  ∀ (w : world C) tasks f1,
    cloud w = c0 →
    Forall (steady sdk bucket_name content c0) (kept_blobs blobs) →
    plan (fs_cwd (fs w)) gcs_folder local_folder blobs = Ok tasks →
    sequential_effect content tasks (fs w) = Ok f1 →
    ∃ w', folder_loop sdk bucket_name gcs_folder local_folder blobs w
          = (Ok (), w')
          ∧ cloud w' = c0 ∧ fs w' = f1 ∧ faults w' = faults w.
Proof.
  unfold folder_loop.
  induction blobs as [|b rest IH]; intros w tasks f1 Hc Hst Hplan Heff.
  - simpl in *. injection Hplan as <-. simpl in Heff. injection Heff as <-.
    by exists w.
  - simpl in Hplan. unfold kept_blobs in Hst. simpl in Hst.
    cbn [for_each]. unfold mbind at 1, M_bind at 1.
    destruct (endswith b "/") eqn:Hm; simpl in Hst.
    + unfold folder_turn at 1. rewrite Hm. by apply (IH w tasks f1).
    + apply Forall_cons in Hst as [Hb Hst].
      apply bind_ok in Hplan as (p & Hp & Hplan).
      apply bind_ok in Hplan as (tasks' & Hplan & [= <-]).
      simpl in Heff. apply bind_ok in Heff as (fa & Hd & Heff).
      apply bind_ok in Heff as (fb & Hw & Heff).
      destruct (folder_turn_good b p fa fb w Hc Hb Hm Hp Hd Hw)
        as (w1 & -> & Hc1 & Hf1 & Hq1).
      assert (Hcwd : fs_cwd (fs w1) = fs_cwd (fs w)).
      { destruct (makedirs_nodes _ _ _ Hd) as [E1 _].
        destruct (write_file_nodes _ _ _ _ Hw) as [E2 _]. congruence. }
      destruct (IH w1 tasks' f1 Hc1 Hst) as (w' & Hrun & Hc' & Hf' & Hq');
        [by rewrite Hcwd | by rewrite Hf1 |].
      exists w'. rewrite Hrun. split; [done|]. split; [done|].
      split; [done|]. congruence.
Qed.

Lemma for_each_app {A} (l1 l2 : list A) (body : A → M (C:=C) unit)
  (w : world C) :
  for_each (l1 ++ l2) body w
  = match for_each l1 body w with
    | (Ok _, w') => for_each l2 body w'
    | (Raise e, w') => (Raise e, w')
    end.
Proof.
  revert w. induction l1 as [|x l1 IH]; intros w; [done|].
  simpl. unfold mbind, M_bind. destruct (body x w) as [[[]|e] w1]; [|done].
  apply IH.
Qed.

(** One asynchronous task from the completion of its download on. *)
Lemma save_finish_good b p f2 (w : world C) :
  cloud w = c0 → steady sdk bucket_name content c0 b →
  write_file p (content b) (fs w) = Ok f2 →
  ∃ w', save_finish sdk bucket_name b p w = (Ok (), w')
        ∧ cloud w' = c0 ∧ fs w' = f2 ∧ faults w' = faults w.
Proof.
  intros Hc Hb Hw. unfold save_finish, to_thread.
  unfold mbind at 1, M_bind at 1.
  destruct (download_blob_good b w Hc Hb) as (w1 & -> & Hc1 & Hf1 & Hq1).
  unfold mbind at 1, M_bind at 1. unfold fs_update at 1.
  rewrite Hf1, Hw. simpl. eexists. split; [done|]. simpl. by rewrite Hq1.
Qed.

Lemma save_finish_bad b p e c1 (w : world C) :
  cloud w = c0 →
  blob_download_as_bytes sdk bucket_name b c0 = (Raise e, c1) →
  ∃ w', save_finish sdk bucket_name b p w
        = (Raise (if is_NotFound e then missing_blob bucket_name b else e),
           w')
        ∧ cloud w' = c1 ∧ fs w' = fs w ∧ faults w' = faults w ++ [e].
Proof.
  intros Hc Hb. unfold save_finish, to_thread.
  unfold mbind at 1, M_bind at 1.
  destruct (download_blob_bad b e c1 w Hc Hb) as (w1 & -> & Hc1 & Hf1 & Hq1).
  by exists w1.
Qed.

(** The asynchronous tasks whose blobs download are saved in the order in
    which they complete. *)
Lemma finish_in_order_good tasks order :
  ∀ (w : world C) f',
    cloud w = c0 →
    Forall (steady sdk bucket_name content c0)
      (omap (λ i, tasks !! i) order).*1 →
    save_all content (omap (λ i, tasks !! i) order) (fs w) = Ok f' →
    ∃ w', finish_in_order sdk bucket_name tasks order w = (Ok (), w')
          ∧ cloud w' = c0 ∧ fs w' = f' ∧ faults w' = faults w.
Proof.
  induction order as [|i order IH]; intros w f' Hc Hst Hsave.
  - simpl in *. injection Hsave as <-. by exists w.
  - cbn [omap list_omap] in Hst, Hsave. cbn [finish_in_order].
    destruct (tasks !! i) as [[b p]|] eqn:Hi; [|by apply IH].
    simpl in Hst, Hsave. apply Forall_cons in Hst as [Hb Hst].
    apply bind_ok in Hsave as (f1 & Hw & Hsave).
    unfold mbind at 1, M_bind at 1.
    destruct (save_finish_good b p f1 w Hc Hb Hw)
      as (w1 & -> & Hc1 & Hf1 & Hq1).
    destruct (IH w1 f' Hc1 Hst) as (w' & Hrun & Hc' & Hf' & Hq');
      [by rewrite Hf1|].
    exists w'. rewrite Hrun. split; [done|]. split; [done|].
    split; [done|]. congruence.
Qed.

Lemma finish_in_order_app tasks order1 order2 (w : world C) :
  finish_in_order sdk bucket_name tasks (order1 ++ order2) w
  = match finish_in_order sdk bucket_name tasks order1 w with
    | (Ok _, w') => finish_in_order sdk bucket_name tasks order2 w'
    | (Raise e, w') => (Raise e, w')
    end.
Proof.
  revert w. induction order1 as [|i order1 IH]; intros w; [done|].
  simpl. destruct (tasks !! i) as [[b p]|]; [|apply IH].
  unfold mbind, M_bind.
  destruct (save_finish sdk bucket_name b p w) as [[[]|e] w1]; [|done].
  apply IH.
Qed.

End FolderFailures.

(** [download_folder] stops at the first blob that the service fails to
    deliver, and undoes nothing: the files of the blobs listed before it
    stay written, the directory for the failing blob has been made, the
    blobs listed after it are not asked for, and the error raised is that
    of the failing blob (a [FileNotFoundError] for a not-found). *)
Theorem download_folder_stops_at_first_failure {C} (sdk : StorageSDK C)
  (bucket_name gcs_folder local_folder : string) (content : string → string)
  (c0 c1 : C) (before : list string) (b : string) (after : list string)
  (tasks : list (string * string)) (p : string) (f1 f2 : filesystem)
  (e : exn) (w : world C) :
  client_list_blobs sdk bucket_name (Some gcs_folder) (cloud w)
  = (Ok (before ++ b :: after), c0) →
  Forall (steady sdk bucket_name content c0) (kept_blobs before) →
  endswith b "/" = false →
  blob_download_as_bytes sdk bucket_name b c0 = (Raise e, c1) →
  plan (fs_cwd (fs w)) gcs_folder local_folder before = Ok tasks →
  sequential_effect content tasks (fs w) = Ok f1 →
  target_of (fs_cwd (fs w)) gcs_folder local_folder b = Ok p →
  makedirs (dirname p) f1 = Ok f2 →
  (download_folder sdk bucket_name gcs_folder local_folder w).1
  = Raise (if is_NotFound e then missing_blob bucket_name b else e)
  ∧ fs (download_folder sdk bucket_name gcs_folder local_folder w).2 = f2
  ∧ cloud (download_folder sdk bucket_name gcs_folder local_folder w).2 = c1
  ∧ faults (download_folder sdk bucket_name gcs_folder local_folder w).2
    = faults w ++ [e]
  ∧ ∀ l1 t l2, tasks = l1 ++ t :: l2 →
      (∀ t', t' ∈ l2 → locate (fs w) t'.2 ≠ locate (fs w) t.2) →
      node_at (fs_tree f2) (locate (fs w) t.2) = Some (File (content t.1)).
Proof.
  intros Hlist Hst Hm Hb Hplan Heff Hp Hd.
  destruct (download_folder_run sdk bucket_name gcs_folder local_folder
              _ c0 w Hlist) as (w1 & Hc1 & Hf1 & Hq1 & Hrun0).
  destruct (folder_loop_good sdk bucket_name gcs_folder local_folder content
              c0 before w1 tasks f1) as (w2 & Hrun & Hc2 & Hf2 & Hq2);
    [done | done | by rewrite Hf1 | by rewrite Hf1 |].
  assert (Hcwd : fs_cwd (fs w2) = fs_cwd (fs w)).
  { rewrite Hf2. by apply (sequential_effect_cwd content tasks). }
  destruct (folder_turn_bad sdk bucket_name gcs_folder local_folder c0
              b p f2 e c1 w2) as (w3 & Hturn & Hc3 & Hf3 & Hq3);
    [done | done | done | by rewrite Hcwd | by rewrite Hf2 |].
  assert (Hloop : folder_loop sdk bucket_name gcs_folder local_folder
                    (before ++ b :: after) w1
                  = (Raise (if is_NotFound e
                            then missing_blob bucket_name b else e), w3)).
  { unfold folder_loop in Hrun |- *. rewrite for_each_app, Hrun.
    cbn [for_each]. unfold mbind, M_bind. by rewrite Hturn. }
  rewrite Hrun0, Hloop.
  assert (Hout : ∀ e', (log_and_reraise (A:=unit) logger_error
                          (folder_error gcs_folder bucket_name) e' w3).1
                       = Raise e'
                       ∧ fs (log_and_reraise (A:=unit) logger_error
                               (folder_error gcs_folder bucket_name) e' w3).2
                         = fs w3
                       ∧ cloud (log_and_reraise (A:=unit) logger_error
                                  (folder_error gcs_folder bucket_name)
                                  e' w3).2 = cloud w3
                       ∧ faults (log_and_reraise (A:=unit) logger_error
                                   (folder_error gcs_folder bucket_name)
                                   e' w3).2 = faults w3).
  { intros e'. unfold log_and_reraise. by destruct (is_Exception e'). }
  destruct (Hout (if is_NotFound e then missing_blob bucket_name b else e))
    as (-> & -> & -> & ->).
  split; [done|]. split; [done|]. split; [done|].
  split; [congruence|].
  intros l1 t l2 Ht Hne.
  destruct (sequential_effect_nodes _ _ _ _ Heff) as [Hfiles _].
  specialize (Hfiles l1 t l2 Ht Hne).
  destruct (makedirs_nodes _ _ _ Hd) as [_ Hkeep].
  destruct (Hkeep (locate (fs w) t.2)) as [E|[E _]]; congruence.
Qed.

Lemma download_folder_stops_at_first_failure_witness :
  (download_folder stale_storage "bucket" "a" "out"
     (sample_world stale_bucket)).1
  = Raise (FileNotFoundError "Blob a/2.txt not found in bucket bucket")
  ∧ read_file "out/1.txt"
      (fs (download_folder stale_storage "bucket" "a" "out"
             (sample_world stale_bucket)).2) = Ok "one"
  ∧ read_file "out/3.txt"
      (fs (download_folder stale_storage "bucket" "a" "out"
             (sample_world stale_bucket)).2)
    = Raise (ENOENT "out/3.txt").
Proof.
  assert (H1 : client_list_blobs stale_storage "bucket" (Some "a")
                 (cloud (sample_world stale_bucket))
               = (Ok (["a/1.txt"] ++ "a/2.txt" :: ["a/3.txt"]), stale_bucket))
    by reflexivity.
  assert (H2 : Forall (steady stale_storage "bucket"
                         (mem_content stale_bucket "bucket") stale_bucket)
                 (kept_blobs ["a/1.txt"])).
  { repeat constructor. }
  assert (H4 : blob_download_as_bytes stale_storage "bucket" "a/2.txt"
                 stale_bucket
               = (Raise (NotFound "No such object: bucket/a/2.txt"),
                  stale_bucket))
    by reflexivity.
  assert (H5 : plan (fs_cwd (fs (sample_world stale_bucket))) "a" "out"
                 ["a/1.txt"] = Ok [("a/1.txt", "out/1.txt")])
    by (vm_compute; reflexivity).
  assert (H6 : sequential_effect (mem_content stale_bucket "bucket")
                 [("a/1.txt", "out/1.txt")] (fs (sample_world stale_bucket))
               = Ok first_blob_saved)
    by (vm_compute; reflexivity).
  assert (H7 : target_of (fs_cwd (fs (sample_world stale_bucket))) "a" "out"
                 "a/2.txt" = Ok "out/2.txt")
    by (vm_compute; reflexivity).
  assert (H8 : makedirs (dirname "out/2.txt") first_blob_saved
               = Ok first_blob_saved)
    by (vm_compute; reflexivity).
  pose proof (download_folder_stops_at_first_failure stale_storage "bucket"
                "a" "out" (mem_content stale_bucket "bucket") stale_bucket
                stale_bucket ["a/1.txt"] "a/2.txt" ["a/3.txt"]
                [("a/1.txt", "out/1.txt")] "out/2.txt" first_blob_saved
                first_blob_saved (NotFound "No such object: bucket/a/2.txt")
                (sample_world stale_bucket) H1 H2 eq_refl H4 H5 H6 H7 H8)
    as (Hr & Hf & _).
  split; [exact Hr|]. rewrite Hf. split; vm_compute; reflexivity.
Defined.

(** A run of [download_folder_async] whose listing succeeds and whose
    directories can be made is a run of its tasks under the handler. *)
Lemma download_folder_async_unfold {C} (sdk : StorageSDK C)
  bucket_name gcs_folder local_folder blobs tasks order fd c0 (w : world C) :
  client_list_blobs sdk bucket_name (Some gcs_folder) (cloud w)
  = (Ok blobs, c0) →
  plan (fs_cwd (fs w)) gcs_folder local_folder blobs = Ok tasks →
  make_all_dirs tasks (fs w) = Ok fd →
  ∃ w3, cloud w3 = c0 ∧ fs w3 = fd ∧ faults w3 = faults w
        ∧ download_folder_async sdk order bucket_name gcs_folder local_folder
            w
          = match finish_in_order sdk bucket_name tasks order w3 with
            | (Ok _, w') =>
                logger_info ("Completed async download of folder "
                             +:+ gcs_folder) w'
            | (Raise e, w') =>
                log_and_reraise logger_error
                  (folder_error gcs_folder bucket_name) e w'
            end.
Proof.
  intros Hlist Hplan Hdirs.
  unfold download_folder_async. unfold mbind at 1, M_bind at 1.
  destruct (log_only_info ("Initiating async download of folder "
              +:+ gcs_folder +:+ " from " +:+ bucket_name +:+ " to "
              +:+ local_folder) w) as (w0 & Hlog & Hc0 & Hf0).
  rewrite Hlog. unfold try_except.
  unfold mbind at 1, M_bind at 1.
  unfold list_blobs_async, to_thread.
  unfold mbind at 1, M_bind at 1.
  destruct (log_only_info ("Listing blobs in " +:+ bucket_name
              +:+ " asynchronously" +:+ with_prefix (Some gcs_folder)) w0)
    as (w0' & Hlog' & Hc0' & Hf0').
  rewrite Hlog'.
  assert (Hlist' : client_list_blobs sdk bucket_name (Some gcs_folder)
                     (cloud w0') = (Ok blobs, c0)) by congruence.
  destruct (list_blobs_run sdk bucket_name _ _ _ _ Hlist')
    as (w1 & Hl & Hc1 & Hf1).
  rewrite Hl.
  assert (Hfw1 : fs w1 = fs w) by congruence.
  unfold mbind at 1, M_bind at 1.
  destruct (collect_tasks_effect gcs_folder local_folder blobs w1 tasks fd)
    as (w2 & Hcol & Hc2 & Hf2); [by rewrite Hfw1 | by rewrite Hfw1 |].
  rewrite Hcol. unfold mbind at 1, M_bind at 1.
  unfold gather. unfold mbind at 1, M_bind at 1.
  destruct (start_all_run bucket_name tasks w2) as (w3 & Hstart & Hc3 & Hf3).
  rewrite Hstart. exists w3. split; [congruence|]. split; [congruence|].
  split.
  { rewrite (passes_on_ok eq _ _ _ _
               (passes_on_for_each eq _ _
                  (λ t, passes_on_info eq _)) Hstart).
    rewrite (passes_on_ok eq _ _ _ _
               (passes_on_collect_tasks eq _ _ _) Hcol).
    rewrite (passes_on_ok eq _ _ _ _ (passes_on_list_blobs _ _ _) Hl).
    injection Hlog' as <-. by injection Hlog as <-. }
  by destruct (finish_in_order sdk bucket_name tasks order w3)
    as [[[]|e] w4].
Qed.



(** *** The decorator *)



(** *** A prefix that is itself an object *)

Lemma prefix_slash r :
  String.prefix "/" r = true → ∃ r', r = String "/" r'.
Proof.
  destruct r as [|c r]; [done|]. intros H.
  destruct (Ascii.ascii_dec "/" c) as [<-|n] eqn:E; [eauto|].
  exfalso. revert H. cbn -[Ascii.ascii_dec]. by rewrite E.
Qed.

Lemma endswith_slash a : endswith a "/" = true → ∃ a0, a = a0 +:+ "/".
Proof.
  unfold endswith. change (String.rev "/") with "/". intros H.
  apply prefix_slash in H as [r Hr]. exists (String.rev r).
  rewrite <- (string_rev_involutive a), Hr.
  unfold String.rev at 1. simpl. by rewrite string_rev_app_spec.
Qed.

(** [os.path.join(a, ".")] can only name a directory. *)
Lemma names_dir_join_dot a : names_dir (path_join a ".") = true.
Proof.
  unfold path_join. change (startswith "." "/") with false. cbv iota.
  assert (Hdot : ∀ a0, names_dir (a0 +:+ String "/" ".") = true).
  { intros a0. unfold names_dir. by rewrite last_split_after_sep. }
  destruct (String.eqb a "") eqn:Ha; simpl.
  - apply String.eqb_eq in Ha as ->. done.
  - destruct (endswith a "/") eqn:He.
    + apply endswith_slash in He as [a0 ->]. rewrite append_assoc.
      apply Hdot.
    + apply Hdot.
Qed.

Lemma write_file_names_dir p c f :
  names_dir p = true → is_ok (write_file p c f) = false.
Proof.
  intros Hn. unfold write_file. destruct (String.eqb p ""); [done|].
  destruct (check_dirs _ _ _); simpl; [|done].
  destruct (asks_for_directory p); [done|]. rewrite Hn.
  by destruct (node_at _ _) as [[]|].
Qed.

Lemma common_len_refl l : common_len l l = List.length l.
Proof.
  induction l as [|x l IH]; [done|]. simpl.
  by rewrite String.eqb_refl, IH.
Qed.

(** [os.path.relpath(b, b)] is ["."]. *)
Lemma relpath_self cwd b : b ≠ "" → relpath cwd b b = Ok ".".
Proof.
  intros Hb. unfold relpath. apply String.eqb_neq in Hb. rewrite Hb.
  cbv zeta. rewrite common_len_refl, Nat.sub_diag, drop_all. done.
Qed.

Lemma for_each_fails {C A} (l : list A) (body : A → M (C:=C) unit) b :
  (∀ w0, is_ok (body b w0).1 = false) → b ∈ l →
  ∀ w, is_ok (for_each l body w).1 = false.
Proof.
  intros Hb. induction l as [|x l IH]; intros Hin w.
  - by apply elem_of_nil in Hin.
  - simpl. unfold mbind, M_bind.
    apply elem_of_cons in Hin as [<-|Hin].
    + specialize (Hb w). by destruct (body b w) as [[[]|e] w1].
    + destruct (body x w) as [[[]|e] w1]; [|done]. by apply IH.
Qed.

Lemma folder_turn_prefix_object {C} (sdk : StorageSDK C)
  bucket_name local_folder b (w : world C) :
  b ≠ "" → endswith b "/" = false →
  is_ok (folder_turn sdk bucket_name b local_folder b w).1 = false.
Proof.
  intros Hb Hm. unfold folder_turn, local_path_of, target_of. rewrite Hm.
  run. rewrite relpath_self by done. simpl.
  destruct (makedirs _ (fs w)) as [f1|e]; simpl; [|done].
  destruct (download_blob sdk bucket_name b _) as [[data|e] w2]; simpl;
    [|done].
  pose proof (write_file_names_dir (path_join local_folder ".") data (fs w2)
                (names_dir_join_dot local_folder)) as Hw.
  by destruct (write_file _ data (fs w2)).
Qed.

(** [download_folder] cannot fetch a single object by its own name: when
    the listing of the prefix names an object that is the prefix itself,
    that object is to be written to [local_folder/.], which is a
    directory, and the call fails. *)
Theorem download_folder_prefix_is_object {C} (sdk : StorageSDK C)
  (bucket_name gcs_folder local_folder : string) (blobs : list string)
  (c : C) (w : world C) :
  client_list_blobs sdk bucket_name (Some gcs_folder) (cloud w)
  = (Ok blobs, c) →
  gcs_folder ∈ blobs →
  gcs_folder ≠ "" →
  endswith gcs_folder "/" = false →
  is_ok (download_folder sdk bucket_name gcs_folder local_folder w).1 = false.
Proof.
  intros Hlist Hin Hne Hm.
  destruct (download_folder_run sdk bucket_name gcs_folder local_folder
              blobs c w Hlist) as (w1 & _ & _ & _ & ->).
  pose proof (for_each_fails blobs
                (folder_turn sdk bucket_name gcs_folder local_folder)
                gcs_folder
                (λ w0, folder_turn_prefix_object sdk bucket_name local_folder
                         gcs_folder w0 Hne Hm) Hin w1) as Hloop.
  unfold folder_loop.
  destruct (for_each blobs _ w1) as [[[]|e] w2]; [done|].
  unfold log_and_reraise. by destruct (is_Exception e).
Qed.

Lemma download_folder_prefix_is_object_witness :
  is_ok (download_folder mem_storage "bucket" "a/1.txt" "out"
           (sample_world folder_bucket)).1 = false.
Proof.
  assert (H1 : client_list_blobs mem_storage "bucket" (Some "a/1.txt")
                 (cloud (sample_world folder_bucket))
               = (Ok ["a/1.txt"], folder_bucket))
    by (vm_compute; reflexivity).
  assert (H2 : "a/1.txt" ∈ ["a/1.txt"]) by left.
  assert (H3 : "a/1.txt" ≠ "") by done.
  exact (download_folder_prefix_is_object mem_storage "bucket" "a/1.txt"
           "out" ["a/1.txt"] folder_bucket (sample_world folder_bucket)
           H1 H2 H3 eq_refl).
Defined.

End ConnectorFacts.

(** ** More on the deep merge *)

Section MergeOrderFacts.
Import Config.

Lemma dict_has_set k k' v d :
  dict_has k (dict_set k' v d) = String.eqb k k' || dict_has k d.
Proof.
  unfold dict_has. destruct (String.eqb_spec k k') as [->|Hne].
  - by rewrite dict_get_set_eq.
  - by rewrite dict_get_set_ne.
Qed.

Lemma keys_dict_set k v d :
  keys (dict_set k v d) = if dict_has k d then keys d else keys d ++ [k].
Proof.
  unfold keys, dict_has. induction d as [|[k' v'] d IH]; [done|].
  simpl. destruct (String.eqb_spec k k') as [->|Hne]; [done|].
  rewrite fmap_cons, IH. by destruct (dict_get k d).
Qed.

(** Without the recursive call the loop either ends normally or raises
    the [NameError] of line 104. *)
Lemma merge_items_false_cases its :
  ∀ result,
    merge_items false result its = Raise (NameError "deep_merge")
    ∨ ∃ m, merge_items false result its = Ok (VDict m).
Proof.
  induction its as [|[key value] rest IH]; intros result; simpl; [eauto|].
  destruct (dict_get key result) as [[]|]; try apply IH.
  destruct value; try apply IH. by left.
Qed.

Lemma mergeable_set A B key value :
  key ∉ keys B → mergeable (dict_set key value A) B = mergeable A B.
Proof.
  unfold mergeable, keys. induction B as [|[k b] B IH]; intros Hk; [done|].
  simpl in *. apply not_elem_of_cons in Hk as [Hne Hk].
  rewrite dict_get_set_ne by done. by rewrite IH.
Qed.

(** The loop ends normally exactly when no item meets the condition of
    line 103. *)
Lemma merge_items_false_ok its :
  NoDup (keys its) →
  ∀ result, is_ok (merge_items false result its) = mergeable result its.
Proof.
  unfold keys. induction its as [|[key value] rest IH]; intros Hnd result;
    [done|].
  simpl in Hnd. apply NoDup_cons in Hnd as [Hkey Hnd].
  assert (Hstep : is_ok (merge_items false (dict_set key value result) rest)
                  = mergeable result rest).
  { rewrite IH by done. by apply mergeable_set. }
  unfold mergeable in *. simpl.
  destruct (dict_get key result) as [[]|]; simpl; try exact Hstep.
  destruct value; simpl; try exact Hstep. done.
Qed.

Lemma deep_merge_mergeable_cases (A B : dict) :
  NoDup (keys B) →
  is_ok (_deep_merge (VDict A) (VDict B)) = mergeable A B
  ∧ (mergeable A B = false →
     _deep_merge (VDict A) (VDict B) = Raise (NameError "deep_merge")).
Proof.
  intros Hnd. unfold _deep_merge.
  rewrite deep_merge_unbound, merge_body_items.
  pose proof (merge_items_false_ok B Hnd A) as Hok. split; [done|].
  intros Hm. rewrite Hm in Hok.
  destruct (merge_items_false_cases B A) as [->|[m Hr]]; [done|].
  by rewrite Hr in Hok.
Qed.

(** [_deep_merge] returns on two mappings exactly when no key is bound to
    a mapping on both sides; otherwise it raises the [NameError] of the
    unbound [deep_merge]. *)
Theorem deep_merge_returns_iff_flat (A B : dict) :
  NoDup (keys B) →
  is_ok (_deep_merge (VDict A) (VDict B)) = mergeable A B
  ∧ (mergeable A B = false →
     _deep_merge (VDict A) (VDict B) = Raise (NameError "deep_merge")).
Proof. apply deep_merge_mergeable_cases. Qed.

Lemma deep_merge_returns_iff_flat_witness :
  NoDup (keys [("api_config", VDict [("port", VInt 8080)]);
               ("debug", VBool true)])
  ∧ is_ok (_deep_merge
             (VDict [("api_config", VDict [("host", VStr "0.0.0.0")])])
             (VDict [("api_config", VDict [("port", VInt 8080)]);
                     ("debug", VBool true)]))
    = mergeable [("api_config", VDict [("host", VStr "0.0.0.0")])]
        [("api_config", VDict [("port", VInt 8080)]); ("debug", VBool true)]
  ∧ (mergeable [("api_config", VDict [("host", VStr "0.0.0.0")])]
       [("api_config", VDict [("port", VInt 8080)]); ("debug", VBool true)]
     = false →
     _deep_merge (VDict [("api_config", VDict [("host", VStr "0.0.0.0")])])
       (VDict [("api_config", VDict [("port", VInt 8080)]);
               ("debug", VBool true)])
     = Raise (NameError "deep_merge")).
Proof.
  assert (H : NoDup (keys [("api_config", VDict [("port", VInt 8080)]);
                           ("debug", VBool true)])).
  { apply (bool_decide_unpack _). vm_compute. reflexivity. }
  split; [exact H|].
  exact (deep_merge_returns_iff_flat
           [("api_config", VDict [("host", VStr "0.0.0.0")])]
           [("api_config", VDict [("port", VInt 8080)]); ("debug", VBool true)]
           H).
Defined.

Lemma merge_items_false_step key value rest result m :
  merge_items false result ((key, value) :: rest) = Ok m →
  merge_items false (dict_set key value result) rest = Ok m.
Proof.
  simpl. destruct (dict_get key result) as [[]|]; try done.
  by destruct value.
Qed.

Lemma filter_ext_elem {A} (P Q : A → Prop) `{∀ x, Decision (P x)}
  `{∀ x, Decision (Q x)} (l : list A) :
  (∀ x, x ∈ l → (P x ↔ Q x)) → filter P l = filter Q l.
Proof.
  induction l as [|x l IH]; intros Hext; [done|].
  rewrite !filter_cons, IH by (intros y Hy; apply Hext; by right).
  destruct (decide (P x)) as [HP|HP], (decide (Q x)) as [HQ|HQ]; try done;
    exfalso; apply (Hext x) in HP || apply (Hext x) in HQ; try done; by left.
Qed.

Lemma merge_items_false_keys its :
  NoDup (keys its) →
  ∀ result merged, merge_items false result its = Ok (VDict merged) →
  keys merged = keys result ++ filter (λ k, k ∉ keys result) (keys its).
Proof.
  induction its as [|[key value] rest IH]; intros Hnd result merged H.
  - simpl in H. injection H as <-. by rewrite app_nil_r.
  - unfold keys in Hnd. rewrite fmap_cons in Hnd.
    apply NoDup_cons in Hnd as [Hkey Hnd]. simpl in Hkey.
    apply merge_items_false_step in H. rewrite (IH Hnd _ _ H).
    rewrite keys_dict_set.
    change (keys ((key, value) :: rest)) with (key :: keys rest).
    unfold dict_has. destruct (dict_get key result) as [old|] eqn:Hold.
    + rewrite filter_cons_False; [done|].
      intros Hn. apply dict_get_None in Hn. congruence.
    + apply dict_get_None in Hold. rewrite filter_cons_True by done.
      rewrite <- app_assoc. simpl. f_equal. f_equal.
      apply filter_ext_elem. intros k Hk.
      rewrite not_elem_of_app, not_elem_of_cons.
      split; [tauto|]. intros Hn. split; [done|]. split; [|apply not_elem_of_nil].
      intros ->. done.
Qed.

(** The result keeps the keys of the base in their order and appends the
    keys that only the override has, in the override's order; keys stay
    unique. *)
Theorem deep_merge_key_order (A B merged : dict) :
  NoDup (keys B) →
  _deep_merge (VDict A) (VDict B) = Ok (VDict merged) →
  keys merged = keys A ++ filter (λ k, k ∉ keys A) (keys B)
  ∧ (NoDup (keys A) → NoDup (keys merged)).
Proof.
  intros Hnd H. unfold _deep_merge in H.
  rewrite deep_merge_unbound, merge_body_items in H.
  pose proof (merge_items_false_keys B Hnd A merged H) as Hk.
  split; [done|]. intros HA. rewrite Hk. apply NoDup_app.
  split; [done|]. split; [|by apply NoDup_filter].
  intros k Hk1 Hk2. by apply list_elem_of_filter in Hk2 as [? _].
Qed.

Lemma deep_merge_key_order_witness :
  NoDup (keys [("debug", VBool true); ("region", VStr "eu")])
  ∧ _deep_merge (VDict [("name", VStr "bot"); ("debug", VBool false)])
      (VDict [("debug", VBool true); ("region", VStr "eu")])
    = Ok (VDict [("name", VStr "bot"); ("debug", VBool true);
                 ("region", VStr "eu")])
  ∧ keys [("name", VStr "bot"); ("debug", VBool true); ("region", VStr "eu")]
    = keys [("name", VStr "bot"); ("debug", VBool false)]
      ++ filter (λ k, k ∉ keys [("name", VStr "bot"); ("debug", VBool false)])
           (keys [("debug", VBool true); ("region", VStr "eu")])
  ∧ (NoDup (keys [("name", VStr "bot"); ("debug", VBool false)]) →
     NoDup (keys [("name", VStr "bot"); ("debug", VBool true);
                  ("region", VStr "eu")])).
Proof.
  assert (H : NoDup (keys [("debug", VBool true); ("region", VStr "eu")])).
  { apply (bool_decide_unpack _). vm_compute. reflexivity. }
  split; [exact H|]. split; [reflexivity|].
  exact (deep_merge_key_order
           [("name", VStr "bot"); ("debug", VBool false)]
           [("debug", VBool true); ("region", VStr "eu")]
           [("name", VStr "bot"); ("debug", VBool true); ("region", VStr "eu")]
           H eq_refl).
Defined.

Lemma dict_set_fresh k v d : k ∉ keys d → dict_set k v d = d ++ [(k, v)].
Proof.
  unfold keys. induction d as [|[k' v'] d IH]; intros Hk; [done|].
  rewrite fmap_cons in Hk. apply not_elem_of_cons in Hk as [Hne Hk].
  simpl in *. destruct (String.eqb_spec k k') as [->|_]; [done|].
  by rewrite IH.
Qed.

(** Two mappings without a common key merge into the items of the base
    followed by the items of the override; so an empty override gives back
    the base and an empty base gives back the override. *)
Theorem deep_merge_disjoint (A B : dict) :
  NoDup (keys A ++ keys B) →
  _deep_merge (VDict A) (VDict B) = Ok (VDict (A ++ B)).
Proof.
  unfold _deep_merge. rewrite deep_merge_unbound, merge_body_items.
  revert A. induction B as [|[key value] rest IH]; intros A Hnd.
  - simpl. by rewrite app_nil_r.
  - assert (Hkey : key ∉ keys A).
    { apply NoDup_app in Hnd as (_ & Hd & _). intros Hin.
      apply (Hd key Hin). unfold keys. rewrite fmap_cons. left. }
    simpl. apply dict_get_None in Hkey as Hget. rewrite Hget.
    rewrite dict_set_fresh by done.
    replace (A ++ (key, value) :: rest) with ((A ++ [(key, value)]) ++ rest)
      by by rewrite <- app_assoc.
    assert (Hnd' : NoDup (keys (A ++ [(key, value)]) ++ keys rest)).
    { unfold keys in *. rewrite fmap_app, <- app_assoc. simpl.
      by rewrite fmap_cons in Hnd. }
    specialize (IH _ Hnd'). by destruct value.
Qed.

Lemma deep_merge_disjoint_witness :
  NoDup (keys [("host", VStr "0.0.0.0"); ("port", VInt 8000)]
         ++ keys [("debug", VBool true); ("region", VStr "eu")])
  ∧ _deep_merge (VDict [("host", VStr "0.0.0.0"); ("port", VInt 8000)])
      (VDict [("debug", VBool true); ("region", VStr "eu")])
    = Ok (VDict ([("host", VStr "0.0.0.0"); ("port", VInt 8000)]
                 ++ [("debug", VBool true); ("region", VStr "eu")])).
Proof.
  assert (H : NoDup (keys [("host", VStr "0.0.0.0"); ("port", VInt 8000)]
                     ++ keys [("debug", VBool true); ("region", VStr "eu")])).
  { apply (bool_decide_unpack _). vm_compute. reflexivity. }
  split; [exact H|].
  exact (deep_merge_disjoint [("host", VStr "0.0.0.0"); ("port", VInt 8000)]
           [("debug", VBool true); ("region", VStr "eu")] H).
Defined.

End MergeOrderFacts.

(** ** The resolved configuration *)

Section ResolutionFacts.
Import Config.

(** When the default document and the environment's document both give a
    section as a mapping, the resolution of the configuration raises the
    [NameError] of [_deep_merge]: the module cannot be imported. *)
Theorem module_config_nested_sections_fail (package_location : string)
  (yaml_load : string → outcome value) (fs : filesystem)
  (sys_argv : list string) (environ : gmap string string)
  (environment : env_value) (A B : dict) :
  _get_env sys_argv environ = Ok environment →
  _get_config_dict package_location yaml_load fs "default" = Ok (VDict A) →
  _get_config_dict package_location yaml_load fs (env_format environment)
  = Ok (VDict B) →
  NoDup (keys B) →
  mergeable A B = false →
  module_config package_location yaml_load fs sys_argv environ
  = Raise (NameError "deep_merge").
Proof.
  intros Henv HA HB Hnd Hm. unfold module_config.
  rewrite Henv. simpl. rewrite HA. simpl. rewrite HB. simpl.
  by apply deep_merge_mergeable_cases.
Qed.

Lemma module_config_nested_sections_fail_witness :
  _get_env ["my_bot_name"] ∅ = Ok (EnvStr "local")
  ∧ _get_config_dict sample_package layered_yaml
      (layered_fs "api_config: {host: 0.0.0.0, port: 8000}"
         "api_config: {port: 8080}") "default"
    = Ok (VDict [("api_config",
                  VDict [("host", VStr "0.0.0.0"); ("port", VInt 8000)])])
  ∧ _get_config_dict sample_package layered_yaml
      (layered_fs "api_config: {host: 0.0.0.0, port: 8000}"
         "api_config: {port: 8080}") (env_format (EnvStr "local"))
    = Ok (VDict [("api_config", VDict [("port", VInt 8080)])])
  ∧ NoDup (keys [("api_config", VDict [("port", VInt 8080)])])
  ∧ mergeable
      [("api_config", VDict [("host", VStr "0.0.0.0"); ("port", VInt 8000)])]
      [("api_config", VDict [("port", VInt 8080)])] = false
  ∧ module_config sample_package layered_yaml
      (layered_fs "api_config: {host: 0.0.0.0, port: 8000}"
         "api_config: {port: 8080}") ["my_bot_name"] ∅
    = Raise (NameError "deep_merge").
Proof.
  assert (H1 : _get_env ["my_bot_name"] ∅ = Ok (EnvStr "local"))
    by reflexivity.
  assert (H2 : _get_config_dict sample_package layered_yaml
                 (layered_fs "api_config: {host: 0.0.0.0, port: 8000}"
                    "api_config: {port: 8080}") "default"
               = Ok (VDict [("api_config",
                             VDict [("host", VStr "0.0.0.0");
                                    ("port", VInt 8000)])]))
    by (vm_compute; reflexivity).
  assert (H3 : _get_config_dict sample_package layered_yaml
                 (layered_fs "api_config: {host: 0.0.0.0, port: 8000}"
                    "api_config: {port: 8080}") (env_format (EnvStr "local"))
               = Ok (VDict [("api_config", VDict [("port", VInt 8080)])]))
    by (vm_compute; reflexivity).
  assert (H4 : NoDup (keys [("api_config", VDict [("port", VInt 8080)])])).
  { apply (bool_decide_unpack _). vm_compute. reflexivity. }
  split; [exact H1|]. split; [exact H2|]. split; [exact H3|].
  split; [exact H4|]. split; [reflexivity|].
  exact (module_config_nested_sections_fail sample_package layered_yaml
           (layered_fs "api_config: {host: 0.0.0.0, port: 8000}"
              "api_config: {port: 8080}") ["my_bot_name"] ∅ (EnvStr "local")
           _ _ H1 H2 H3 H4 eq_refl).
Defined.

(** When the two documents load as mappings and no key is bound to a
    mapping in both, the resolved configuration binds every key of the
    environment's document to that document's value and every other key to
    the value of the default document. *)
Theorem module_config_override_wins (package_location : string)
  (yaml_load : string → outcome value) (fs : filesystem)
  (sys_argv : list string) (environ : gmap string string)
  (environment : env_value) (A B : dict) :
  _get_env sys_argv environ = Ok environment →
  _get_config_dict package_location yaml_load fs "default" = Ok (VDict A) →
  _get_config_dict package_location yaml_load fs (env_format environment)
  = Ok (VDict B) →
  NoDup (keys B) →
  mergeable A B = true →
  ∃ merged,
    module_config package_location yaml_load fs sys_argv environ
    = Ok (VDict merged)
    ∧ ∀ k, dict_get k merged
           = match dict_get k B with
             | Some b => Some b
             | None => dict_get k A
             end.
Proof.
  intros Henv HA HB Hnd Hm. unfold module_config.
  rewrite Henv. simpl. rewrite HA. simpl. rewrite HB. simpl.
  destruct (deep_merge_mergeable_cases A B Hnd) as [Hok _].
  rewrite Hm in Hok.
  destruct (_deep_merge (VDict A) (VDict B)) as [m|e] eqn:Hrun; [|done].
  assert (∃ merged, m = VDict merged) as [merged ->].
  { unfold _deep_merge in Hrun.
    rewrite deep_merge_unbound, merge_body_items in Hrun.
    destruct (merge_items_false_cases B A) as [E|[m' E]];
      rewrite E in Hrun; [done|]. injection Hrun as <-. eauto. }
  exists merged. split; [done|]. intros k.
  pose proof (_deep_merge_flat_lookup A B merged Hnd Hrun k) as Hk.
  destruct (dict_get k B); [by destruct Hk | done].
Qed.

Lemma module_config_override_wins_witness :
  _get_env ["my_bot_name"] ∅ = Ok (EnvStr "local")
  ∧ _get_config_dict sample_package layered_yaml
      (layered_fs "api_config: {host: 0.0.0.0, port: 8000}" "debug: true")
      "default"
    = Ok (VDict [("api_config",
                  VDict [("host", VStr "0.0.0.0"); ("port", VInt 8000)])])
  ∧ _get_config_dict sample_package layered_yaml
      (layered_fs "api_config: {host: 0.0.0.0, port: 8000}" "debug: true")
      (env_format (EnvStr "local"))
    = Ok (VDict [("debug", VBool true)])
  ∧ NoDup (keys [("debug", VBool true)])
  ∧ mergeable
      [("api_config", VDict [("host", VStr "0.0.0.0"); ("port", VInt 8000)])]
      [("debug", VBool true)] = true
  ∧ ∃ merged,
      module_config sample_package layered_yaml
        (layered_fs "api_config: {host: 0.0.0.0, port: 8000}" "debug: true")
        ["my_bot_name"] ∅ = Ok (VDict merged)
      ∧ ∀ k, dict_get k merged
             = match dict_get k [("debug", VBool true)] with
               | Some b => Some b
               | None =>
                   dict_get k
                     [("api_config",
                       VDict [("host", VStr "0.0.0.0"); ("port", VInt 8000)])]
               end.
Proof.
  assert (H1 : _get_env ["my_bot_name"] ∅ = Ok (EnvStr "local"))
    by reflexivity.
  assert (H2 : _get_config_dict sample_package layered_yaml
                 (layered_fs "api_config: {host: 0.0.0.0, port: 8000}"
                    "debug: true") "default"
               = Ok (VDict [("api_config",
                             VDict [("host", VStr "0.0.0.0");
                                    ("port", VInt 8000)])]))
    by (vm_compute; reflexivity).
  assert (H3 : _get_config_dict sample_package layered_yaml
                 (layered_fs "api_config: {host: 0.0.0.0, port: 8000}"
                    "debug: true") (env_format (EnvStr "local"))
               = Ok (VDict [("debug", VBool true)]))
    by (vm_compute; reflexivity).
  assert (H4 : NoDup (keys [("debug", VBool true)])).
  { apply (bool_decide_unpack _). vm_compute. reflexivity. }
  split; [exact H1|]. split; [exact H2|]. split; [exact H3|].
  split; [exact H4|]. split; [reflexivity|].
  exact (module_config_override_wins sample_package layered_yaml
           (layered_fs "api_config: {host: 0.0.0.0, port: 8000}" "debug: true")
           ["my_bot_name"] ∅ (EnvStr "local") _ _ H1 H2 H3 H4 eq_refl).
Defined.

End ResolutionFacts.

(** ** More on the environment name *)

Section EnvFacts.
Import Config.

Lemma flag_is_option f :
  f ∈ environment_flags →
  String.eqb f "--" = false ∧ classify f = Opt (Some Env) None.
Proof.
  unfold environment_flags. intros Hf.
  apply elem_of_cons in Hf as [->|Hf]; [done|].
  apply list_elem_of_singleton in Hf as ->. done.
Qed.

Lemma flag_tokens f v rest :
  f ∈ environment_flags → value_token v = true →
  classify_all (f :: v :: rest)
  = (f, Opt (Some Env) None) :: (v, Arg) :: classify_all rest.
Proof.
  intros Hf Hv. destruct (flag_is_option f Hf) as [Hdd Hc].
  unfold value_token in Hv. apply andb_prop in Hv as [Hvd Hv].
  apply negb_true_iff in Hvd. destruct (classify v) eqn:Hcv; try done.
  simpl. by rewrite Hdd, Hc, Hvd, Hcv.
Qed.

Lemma classify_all_unambiguous post :
  Forall (λ t, ambiguous_token t = false) post →
  existsb (λ tc : string * token_class,
             match tc.2 with Ambiguous => true | _ => false end)
    (classify_all post) = false.
Proof.
  induction 1 as [|t post Ht _ IH]; [done|]. simpl.
  destruct (String.eqb t "--") eqn:E.
  - simpl. clear. induction post as [|a post IH]; [done|]. done.
  - simpl. rewrite IH. unfold ambiguous_token in Ht. rewrite E in Ht.
    by destruct (classify t).
Qed.

Lemma consume_after_separator post environment :
  consume (map (λ a : string, (a, Arg)) post) environment = Ok environment.
Proof. induction post as [|a post IH]; [done|]. done. Qed.

(** When the environment option is given twice, the later one wins. *)
Theorem last_environment_flag_wins (prog : string)
  (pre mid post : list string) (f1 f2 v1 v2 : string)
  (environ : gmap string string) :
  Forall (λ t, plain_token t = true) pre →
  Forall (λ t, plain_token t = true) mid →
  Forall (λ t, plain_token t = true) post →
  f1 ∈ environment_flags → f2 ∈ environment_flags →
  value_token v1 = true → value_token v2 = true →
  _get_env (prog :: pre ++ [f1; v1] ++ mid ++ [f2; v2] ++ post) environ
  = Ok (EnvStr v2).
Proof.
  intros Hpre Hmid Hpost Hf1 Hf2 Hv1 Hv2. unfold _get_env.
  assert (Heq : tail (prog :: pre ++ [f1; v1] ++ mid ++ [f2; v2] ++ post)
                = pre ++ ([f1; v1] ++ mid ++ [f2; v2]) ++ post)
    by (by rewrite <- !app_assoc).
  rewrite Heq.
  apply (parse_around_option pre ([f1; v1] ++ mid ++ [f2; v2]) post
           ([(f1, Opt (Some Env) None); (v1, Arg)]
            ++ map (λ t, (t, classify t)) mid
            ++ [(f2, Opt (Some Env) None); (v2, Arg)])); [done | done | | | ].
  - intros rest. rewrite <- !app_assoc.
    change ([f1; v1] ++ mid ++ [f2; v2] ++ rest)
      with (f1 :: v1 :: (mid ++ f2 :: v2 :: rest)).
    rewrite flag_tokens, classify_all_plain, flag_tokens by done.
    done.
  - rewrite !existsb_app, no_ambiguity_plain by done. done.
  - intros rest environment. rewrite <- !app_assoc. simpl.
    by rewrite consume_plain.
Qed.

Lemma last_environment_flag_wins_witness :
  _get_env ("my_bot_name" :: ["serve"] ++ ["-e"; "dev"] ++ ["--reload"]
              ++ ["--environment"; "prod"] ++ ["-5"])
    {["ENVIRONMENT" := "staging"]} = Ok (EnvStr "prod").
Proof.
  assert (H1 : Forall (λ t, plain_token t = true) ["serve"])
    by (repeat constructor).
  assert (H2 : Forall (λ t, plain_token t = true) ["--reload"])
    by (repeat constructor).
  assert (H3 : Forall (λ t, plain_token t = true) ["-5"])
    by (repeat constructor).
  assert (H4 : "-e" ∈ environment_flags)
    by (apply (bool_decide_unpack _); vm_compute; reflexivity).
  assert (H5 : "--environment" ∈ environment_flags)
    by (apply (bool_decide_unpack _); vm_compute; reflexivity).
  exact (last_environment_flag_wins "my_bot_name" ["serve"] ["--reload"]
           ["-5"] "-e" "--environment" "dev" "prod"
           {["ENVIRONMENT" := "staging"]} H1 H2 H3 H4 H5 eq_refl eq_refl).
Defined.

(** An environment option that is not followed by a value (it ends the
    command line, or the next string is the separator or looks like an
    option) ends the process with status 2, whatever comes after. *)
Theorem dangling_environment_flag_exits (prog : string)
  (pre post : list string) (f : string) (environ : gmap string string) :
  Forall (λ t, plain_token t = true) pre →
  f ∈ environment_flags →
  (∀ v, head post = Some v → value_token v = false) →
  _get_env (prog :: pre ++ f :: post) environ = Raise (SystemExit 2).
Proof.
  intros Hpre Hf Hpost. destruct (flag_is_option f Hf) as [Hdd Hc].
  unfold _get_env, parse_known_args. simpl tail.
  rewrite classify_all_plain by done.
  match goal with |- (if ?b then _ else _) = _ => destruct b end; [done|].
  rewrite consume_plain by done.
  change (classify_all (f :: post))
    with (if String.eqb f "--"
          then (f, DoubleDash) :: map (λ a, (a, Arg)) post
          else (f, classify f) :: classify_all post).
  rewrite Hdd, Hc. destruct post as [|v post]; [done|].
  specialize (Hpost v eq_refl). unfold value_token in Hpost. simpl.
  destruct (String.eqb v "--"); [done|]. simpl in Hpost.
  by destruct (classify v).
Qed.

Lemma dangling_environment_flag_exits_witness :
  _get_env ("my_bot_name" :: ["serve"] ++ "-e" :: ["--reload"; "prod"]) ∅
  = Raise (SystemExit 2).
Proof.
  assert (H1 : Forall (λ t, plain_token t = true) ["serve"])
    by (repeat constructor).
  assert (H2 : "-e" ∈ environment_flags)
    by (apply (bool_decide_unpack _); vm_compute; reflexivity).
  assert (H3 : ∀ v, head ["--reload"; "prod"] = Some v → value_token v = false).
  { intros v [= <-]. reflexivity. }
  exact (dangling_environment_flag_exits "my_bot_name" ["serve"]
           ["--reload"; "prod"] "-e" ∅ H1 H2 H3).
Defined.

(** Everything after the separator [--] is left alone: an environment
    option or a help option there has no effect, and the environment is
    the one of the variable, or ["local"]. *)
Theorem separator_hides_flags (prog : string) (pre post : list string)
  (environ : gmap string string) :
  Forall (λ t, plain_token t = true) pre →
  _get_env (prog :: pre ++ "--" :: post) environ
  = Ok (EnvStr (default "local" (environ !! "ENVIRONMENT"))).
Proof.
  intros Hpre. unfold _get_env, parse_known_args. simpl tail.
  rewrite classify_all_plain by done.
  change (classify_all ("--" :: post))
    with (("--", DoubleDash) :: map (λ a : string, (a, Arg)) post).
  rewrite existsb_app, no_ambiguity_plain by done.
  assert (existsb (λ tc : string * token_class,
                     match tc.2 with Ambiguous => true | _ => false end)
            (("--", DoubleDash) :: map (λ a : string, (a, Arg)) post) = false)
    as ->.
  { simpl. clear. induction post as [|a post IH]; [done|]. done. }
  simpl. rewrite consume_plain by done. simpl.
  apply consume_after_separator.
Qed.

Lemma separator_hides_flags_witness :
  _get_env ("my_bot_name" :: ["--reload"] ++ "--" :: ["-e"; "prod"; "-h"])
    {["ENVIRONMENT" := "staging"]} = Ok (EnvStr "staging").
Proof.
  assert (H1 : Forall (λ t, plain_token t = true) ["--reload"])
    by (repeat constructor).
  exact (separator_hides_flags "my_bot_name" ["--reload"]
           ["-e"; "prod"; "-h"] {["ENVIRONMENT" := "staging"]} H1).
Defined.

(** A help option before any environment option ends the process with
    status 0 as soon as the package is imported: no configuration document
    is read. *)
Theorem help_flag_exits (package_location : string)
  (yaml_load : string → outcome value) (fs : filesystem) (prog : string)
  (pre post : list string) (h : string) (environ : gmap string string) :
  Forall (λ t, plain_token t = true) pre →
  Forall (λ t, ambiguous_token t = false) post →
  h ∈ ["-h"; "--help"] →
  _get_env (prog :: pre ++ h :: post) environ = Raise (SystemExit 0)
  ∧ module_config package_location yaml_load fs (prog :: pre ++ h :: post)
      environ = Raise (SystemExit 0).
Proof.
  intros Hpre Hpost Hh.
  assert (Hcl : String.eqb h "--" = false ∧ classify h = Opt (Some Help) None).
  { apply elem_of_cons in Hh as [->|Hh]; [done|].
    apply list_elem_of_singleton in Hh as ->. done. }
  destruct Hcl as [Hdd Hc].
  assert (Henv : _get_env (prog :: pre ++ h :: post) environ
                 = Raise (SystemExit 0)).
  { unfold _get_env, parse_known_args. simpl tail.
    rewrite classify_all_plain by done.
    change (classify_all (h :: post))
      with (if String.eqb h "--"
            then (h, DoubleDash) :: map (λ a, (a, Arg)) post
            else (h, classify h) :: classify_all post).
    rewrite Hdd, Hc, existsb_app, no_ambiguity_plain by done.
    simpl. rewrite classify_all_unambiguous by done.
    by rewrite consume_plain. }
  split; [done|]. unfold module_config. by rewrite Henv.
Qed.

Lemma help_flag_exits_witness :
  _get_env ("my_bot_name" :: ["serve"] ++ "--help" :: ["-e"; "prod"]) ∅
  = Raise (SystemExit 0)
  ∧ module_config sample_package sample_yaml sample_config_fs
      ("my_bot_name" :: ["serve"] ++ "--help" :: ["-e"; "prod"]) ∅
    = Raise (SystemExit 0).
Proof.
  assert (H1 : Forall (λ t, plain_token t = true) ["serve"])
    by (repeat constructor).
  assert (H2 : Forall (λ t, ambiguous_token t = false) ["-e"; "prod"])
    by (repeat constructor).
  assert (H3 : "--help" ∈ ["-h"; "--help"])
    by (apply (bool_decide_unpack _); vm_compute; reflexivity).
  exact (help_flag_exits sample_package sample_yaml sample_config_fs
           "my_bot_name" ["serve"] ["-e"; "prod"] "--help" ∅ H1 H2 H3).
Defined.

End EnvFacts.

(** ** The typed sections and the arguments of the server *)

Section ConfigurationsFacts.
Import Config Configurations.

(** Membership in a list of literals. *)
Ltac by_membership :=
  apply (bool_decide_unpack _); vm_compute; reflexivity.

Lemma dict_has_keys k (d : dict) : dict_has k d = true ↔ k ∈ keys d.
Proof.
  unfold dict_has. pose proof (dict_get_None k d) as H.
  destruct (dict_get k d) as [v|].
  - split; [|done]. intros _. destruct (decide (k ∈ keys d)); [done|].
    by apply H in n.
  - split; [done|]. intros Hin. by apply H in Hin.
Qed.

Lemma dict_get_Some_keys k (d : dict) :
  k ∈ keys d → ∃ v, dict_get k d = Some v.
Proof.
  intros Hin. apply dict_has_keys in Hin. unfold dict_has in Hin.
  destruct (dict_get k d); [eauto|done].
Qed.

Lemma first_bad_keyword_None cls fields kw :
  "self" ∉ fields →
  first_bad_keyword cls fields kw = None ↔ ∀ k, k ∈ keys kw → k ∈ fields.
Proof.
  intros Hself. induction kw as [|[k v] rest IH].
  - split; [|done]. intros _ k Hk. by apply elem_of_nil in Hk.
  - change (keys ((k, v) :: rest)) with (k :: keys rest). simpl.
    destruct (String.eqb k "self") eqn:E.
    { apply String.eqb_eq in E as ->. split; [done|]. intros H.
      destruct Hself. apply H. left. }
    destruct (decide (k ∈ fields)) as [Hk|Hk].
    + rewrite bool_decide_true by done. rewrite IH. split.
      * intros H k' Hk'. apply elem_of_cons in Hk' as [->|Hk']; eauto.
      * intros H k' Hk'. apply H. by right.
    + rewrite bool_decide_false by done. split; [done|]. intros H.
      destruct Hk. apply H. left.
Qed.

Lemma none_missing fields (kw : dict) :
  List.filter (λ f, negb (dict_has f kw)) fields = []
  ↔ ∀ f, f ∈ fields → f ∈ keys kw.
Proof.
  induction fields as [|f fields IH]; simpl.
  - split; [|done]. intros _ f Hf. by apply elem_of_nil in Hf.
  - destruct (dict_has f kw) eqn:E; simpl.
    + rewrite IH. apply dict_has_keys in E. split.
      * intros H f' Hf'. apply elem_of_cons in Hf' as [->|Hf']; eauto.
      * intros H f' Hf'. apply H. by right.
    + split; [done|]. intros H.
      assert (dict_has f kw = true) as E'
        by (apply dict_has_keys, H; left).
      congruence.
Qed.

Lemma bind_keywords_ok cls fields section r :
  "self" ∉ fields →
  bind_keywords cls fields section = Ok r
  ↔ section = VDict r ∧ ∀ k, k ∈ keys r ↔ k ∈ fields.
Proof.
  intros Hself. unfold bind_keywords.
  destruct section as [| | | | | | | | | | |kw];
    try (split; [done | by intros [? _]]).
  pose proof (first_bad_keyword_None cls fields kw Hself) as Hbad.
  pose proof (none_missing fields kw) as Hmiss.
  destruct (first_bad_keyword cls fields kw) as [e|].
  { split; [done|]. intros [[= <-] H].
    assert (Some e = None) by (apply Hbad; intros k; apply H). done. }
  destruct (List.filter (λ f, negb (dict_has f kw)) fields) as [|m ms].
  - split.
    + intros [= <-]. split; [done|]. intros k. split.
      * by apply Hbad.
      * by apply Hmiss.
    + by intros [[= <-] _].
  - split; [done|]. intros [[= <-] H].
    assert ((m :: ms) = []) by (apply Hmiss; intros k; apply H). done.
Qed.

Lemma make_ApiConfig_ok section c :
  make_ApiConfig section = Ok c
  ↔ ∃ kw, section = VDict kw
          ∧ (∀ k, k ∈ keys kw ↔ k ∈ ApiConfig_fields)
          ∧ dict_get "host" kw = Some (host c)
          ∧ dict_get "port" kw = Some (port c)
          ∧ dict_get "reload" kw = Some (reload c).
Proof.
  unfold make_ApiConfig.
  pose proof (bind_keywords_ok "ApiConfig" ApiConfig_fields section) as Hb.
  assert (Hself : "self" ∉ ApiConfig_fields)
    by (apply (bool_decide_unpack _); vm_compute; reflexivity).
  destruct (bind_keywords "ApiConfig" ApiConfig_fields section) as [kw|e];
    simpl.
  - destruct (proj1 (Hb kw Hself) eq_refl) as [-> Hkeys]. split.
    + intros [= <-]. exists kw. split; [done|]. split; [done|]. simpl.
      unfold argument.
      destruct (dict_get_Some_keys "host" kw) as [v1 ->];
        [apply Hkeys; by_membership|].
      destruct (dict_get_Some_keys "port" kw) as [v2 ->];
        [apply Hkeys; by_membership|].
      destruct (dict_get_Some_keys "reload" kw) as [v3 ->];
        [apply Hkeys; by_membership|].
      done.
    + intros (kw' & [= <-] & _ & H1 & H2 & H3). unfold argument.
      rewrite H1, H2, H3. by destruct c.
  - split; [done|]. intros (kw & -> & Hkeys & _).
    assert (Raise e = Ok kw) by (by apply Hb). done.
Qed.

Lemma make_GCPConfig_ok section c :
  make_GCPConfig section = Ok c
  ↔ ∃ kw, section = VDict kw
          ∧ (∀ k, k ∈ keys kw ↔ k ∈ GCPConfig_fields)
          ∧ dict_get "project_id" kw = Some (project_id c)
          ∧ dict_get "region" kw = Some (region c)
          ∧ dict_get "temperature" kw = Some (temperature c).
Proof.
  unfold make_GCPConfig.
  pose proof (bind_keywords_ok "GCPConfig" GCPConfig_fields section) as Hb.
  assert (Hself : "self" ∉ GCPConfig_fields)
    by (apply (bool_decide_unpack _); vm_compute; reflexivity).
  destruct (bind_keywords "GCPConfig" GCPConfig_fields section) as [kw|e];
    simpl.
  - destruct (proj1 (Hb kw Hself) eq_refl) as [-> Hkeys]. split.
    + intros [= <-]. exists kw. split; [done|]. split; [done|]. simpl.
      unfold argument.
      destruct (dict_get_Some_keys "project_id" kw) as [v1 ->];
        [apply Hkeys; by_membership|].
      destruct (dict_get_Some_keys "region" kw) as [v2 ->];
        [apply Hkeys; by_membership|].
      destruct (dict_get_Some_keys "temperature" kw) as [v3 ->];
        [apply Hkeys; by_membership|].
      done.
    + intros (kw' & [= <-] & _ & H1 & H2 & H3). unfold argument.
      rewrite H1, H2, H3. by destruct c.
  - split; [done|]. intros (kw & -> & Hkeys & _).
    assert (Raise e = Ok kw) by (by apply Hb). done.
Qed.

Lemma first_bad_keyword_type_error cls fields kw e :
  first_bad_keyword cls fields kw = Some e → ∃ msg, e = TypeError msg.
Proof.
  induction kw as [|[k v] kw IH]; simpl; [done|].
  destruct (String.eqb k "self"); [intros [= <-]; eauto|].
  destruct (bool_decide (k ∈ fields)); [done|]. intros [= <-]. eauto.
Qed.

Lemma bind_keywords_type_error cls fields section :
  (∃ kw, bind_keywords cls fields section = Ok kw)
  ∨ ∃ msg, bind_keywords cls fields section = Raise (TypeError msg).
Proof.
  unfold bind_keywords.
  destruct section as [| | | | | | | | | | |kw]; try (right; eauto; fail).
  destruct (first_bad_keyword cls fields kw) as [e|] eqn:Hbad.
  - apply first_bad_keyword_type_error in Hbad as [msg ->]. eauto.
  - destruct (List.filter _ fields); eauto.
Qed.

(** A section makes its dataclass exactly when it is a mapping whose keys
    are the three fields, no more and no fewer, in any order; each field
    then holds the value of the document as it is, whatever its type.  Any
    other section raises a [TypeError]. *)
Theorem dataclasses_bind_exactly (section : value) :
  (∀ c, make_ApiConfig section = Ok c
        ↔ ∃ kw, section = VDict kw
                ∧ (∀ k, k ∈ keys kw ↔ k ∈ ApiConfig_fields)
                ∧ dict_get "host" kw = Some (host c)
                ∧ dict_get "port" kw = Some (port c)
                ∧ dict_get "reload" kw = Some (reload c))
  ∧ (∀ c, make_GCPConfig section = Ok c
          ↔ ∃ kw, section = VDict kw
                  ∧ (∀ k, k ∈ keys kw ↔ k ∈ GCPConfig_fields)
                  ∧ dict_get "project_id" kw = Some (project_id c)
                  ∧ dict_get "region" kw = Some (region c)
                  ∧ dict_get "temperature" kw = Some (temperature c))
  ∧ ((∃ c, make_ApiConfig section = Ok c)
     ∨ ∃ msg, make_ApiConfig section = Raise (TypeError msg))
  ∧ ((∃ c, make_GCPConfig section = Ok c)
     ∨ ∃ msg, make_GCPConfig section = Raise (TypeError msg)).
Proof.
  split; [intros c; apply make_ApiConfig_ok|].
  split; [intros c; apply make_GCPConfig_ok|].
  unfold make_ApiConfig, make_GCPConfig. split.
  - destruct (bind_keywords_type_error "ApiConfig" ApiConfig_fields section)
      as [[kw ->]|[msg ->]]; simpl; eauto.
  - destruct (bind_keywords_type_error "GCPConfig" GCPConfig_fields section)
      as [[kw ->]|[msg ->]]; simpl; eauto.
Qed.

(** The server gets a port and a host exactly when the configuration is a
    mapping whose [api_config] and [gcp_config] sections are both complete
    mappings; the two arguments are then the values of the document: a
    port given as text reaches the server as text, and a server section
    that is right does not help when the other section is not. *)
Theorem server_needs_both_sections (config p h : value) :
  uvicorn_arguments config = Ok (p, h)
  ↔ ∃ d a g,
      config = VDict d
      ∧ dict_get "api_config" d = Some (VDict a)
      ∧ dict_get "gcp_config" d = Some (VDict g)
      ∧ (∀ k, k ∈ keys a ↔ k ∈ ApiConfig_fields)
      ∧ (∀ k, k ∈ keys g ↔ k ∈ GCPConfig_fields)
      ∧ dict_get "port" a = Some p
      ∧ dict_get "host" a = Some h.
Proof.
  unfold uvicorn_arguments, import_configurations, API_CONFIG, GCP_CONFIG.
  split.
  - destruct config as [| | | | | | | | | | |d]; try done. simpl.
    destruct (dict_get "api_config" d) as [sa|] eqn:Ha; [|done]. simpl.
    destruct (make_ApiConfig sa) as [ca|] eqn:Hca; [|done]. simpl.
    destruct (dict_get "gcp_config" d) as [sg|] eqn:Hg; [|done]. simpl.
    destruct (make_GCPConfig sg) as [cg|] eqn:Hcg; [|done]. simpl.
    intros [= <- <-].
    apply make_ApiConfig_ok in Hca as (a & -> & Hka & H1 & H2 & H3).
    apply make_GCPConfig_ok in Hcg as (g & -> & Hkg & _).
    exists d, a, g. done.
  - intros (d & a & g & -> & Ha & Hg & Hka & Hkg & Hp & Hh). simpl.
    rewrite Ha. simpl.
    destruct (dict_get_Some_keys "reload" a) as [r Hr];
      [apply Hka; by_membership|].
    assert (Hca : make_ApiConfig (VDict a)
                  = Ok {| host := h; port := p; reload := r |}).
    { apply make_ApiConfig_ok. exists a. done. }
    rewrite Hca. simpl. rewrite Hg. simpl.
    destruct (dict_get_Some_keys "project_id" g) as [g1 Hg1];
      [apply Hkg; by_membership|].
    destruct (dict_get_Some_keys "region" g) as [g2 Hg2];
      [apply Hkg; by_membership|].
    destruct (dict_get_Some_keys "temperature" g) as [g3 Hg3];
      [apply Hkg; by_membership|].
    assert (Hcg : make_GCPConfig (VDict g)
                  = Ok {| project_id := g1; region := g2;
                          temperature := g3 |}).
    { apply make_GCPConfig_ok. exists g. done. }
    by rewrite Hcg.
Qed.

Lemma deep_merge_returns_dict (A B : dict) config :
  _deep_merge (VDict A) (VDict B) = Ok config → ∃ merged, config = VDict merged.
Proof.
  unfold _deep_merge. rewrite deep_merge_unbound, merge_body_items.
  destruct (merge_items_false_cases B A) as [E|[m E]]; rewrite E; [done|].
  intros [= <-]. eauto.
Qed.

(** A merge that returns has merged no section: a section that is a
    mapping in both documents makes it raise.  So a section of the
    environment's document replaces the section of the default document
    whole: the dataclass is made from the environment's section alone, and
    no field is taken from the default section.  Only a section that the
    environment's document does not have comes from the default
    document. *)
Theorem sections_are_not_inherited (A B : dict) (config : value) :
  NoDup (keys B) →
  _deep_merge (VDict A) (VDict B) = Ok config →
  (API_CONFIG config
   = match dict_get "api_config" B with
     | Some section => make_ApiConfig section
     | None => API_CONFIG (VDict A)
     end
   ∧ ¬ (∃ a b, dict_get "api_config" A = Some (VDict a)
               ∧ dict_get "api_config" B = Some (VDict b)))
  ∧ (GCP_CONFIG config
     = match dict_get "gcp_config" B with
       | Some section => make_GCPConfig section
       | None => GCP_CONFIG (VDict A)
       end
     ∧ ¬ (∃ a b, dict_get "gcp_config" A = Some (VDict a)
                 ∧ dict_get "gcp_config" B = Some (VDict b))).
Proof.
  intros Hnd Hrun.
  destruct (deep_merge_returns_dict A B config Hrun) as [merged ->].
  unfold API_CONFIG, GCP_CONFIG. simpl. split.
  - pose proof (_deep_merge_flat_lookup A B merged Hnd Hrun "api_config") as H.
    destruct (dict_get "api_config" B) as [s|].
    + destruct H as [-> Hflat]. split; [done|].
      intros (a & b & Ha & [= ->]). apply Hflat. split; [done|]. by exists (VDict a).
    + rewrite H. split; [done|]. by intros (a & b & _ & ?).
  - pose proof (_deep_merge_flat_lookup A B merged Hnd Hrun "gcp_config") as H.
    destruct (dict_get "gcp_config" B) as [s|].
    + destruct H as [-> Hflat]. split; [done|].
      intros (a & b & Ha & [= ->]). apply Hflat. split; [done|]. by exists (VDict a).
    + rewrite H. split; [done|]. by intros (a & b & _ & ?).
Qed.

Lemma sections_are_not_inherited_witness :
  API_CONFIG (VDict local_server_config)
  = make_ApiConfig
      (VDict [("host", VStr "127.0.0.1"); ("port", VInt 8080);
              ("reload", VBool true)])
  ∧ API_CONFIG (VDict local_server_config)
    = Ok {| host := VStr "127.0.0.1"; port := VInt 8080;
            reload := VBool true |}
  ∧ GCP_CONFIG (VDict local_server_config)
    = GCP_CONFIG (VDict default_without_server).
Proof.
  assert (H1 : NoDup (keys [("api_config",
                             VDict [("host", VStr "127.0.0.1");
                                    ("port", VInt 8080);
                                    ("reload", VBool true)])])).
  { apply (bool_decide_unpack _). vm_compute. reflexivity. }
  pose proof (sections_are_not_inherited default_without_server
                [("api_config",
                  VDict [("host", VStr "127.0.0.1"); ("port", VInt 8080);
                         ("reload", VBool true)])]
                (VDict local_server_config) H1 eq_refl)
    as [[Hapi _] [Hgcp _]].
  split; [exact Hapi|]. split; [rewrite Hapi; reflexivity | exact Hgcp].
Defined.

End ConfigurationsFacts.

(** ** The shape of the resolved configuration *)

Section ShapeFacts.
Import Config.

(** When the package imports, its [config] is a mapping, with one
    exception: a default document that is a sequence or a set, under an
    environment's document that is empty (or missing its content
    otherwise: anything that [_get_config_dict] turns into the empty
    mapping), is returned as it is. *)
Theorem config_is_mapping_or_default_collection (package_location : string)
  (yaml_load : string → outcome value) (fs : filesystem)
  (sys_argv : list string) (environ : gmap string string) (config : value) :
  module_config package_location yaml_load fs sys_argv environ = Ok config →
  (∃ d, config = VDict d)
  ∨ (((∃ l, config = VList l) ∨ (∃ s, config = VSet s))
     ∧ _get_config_dict package_location yaml_load fs "default" = Ok config
     ∧ ∃ environment,
         _get_env sys_argv environ = Ok environment
         ∧ _get_config_dict package_location yaml_load fs
             (env_format environment) = Ok (VDict [])).
Proof.
  unfold module_config.
  destruct (_get_env sys_argv environ) as [environment|]; [|done]. simpl.
  destruct (_get_config_dict package_location yaml_load fs "default")
    as [base|]; [|done]. simpl.
  destruct (_get_config_dict package_location yaml_load fs
              (env_format environment)) as [override|] eqn:Hover; [|done].
  simpl. unfold _deep_merge. rewrite deep_merge_unbound.
  destruct base as [| | | | | | | |l| |s|A],
    override as [| | | | | | | | | | |B]; try done.
  - simpl. destruct B; [|done]. intros [= <-]. right.
    split; [eauto|]. split; [done|]. by exists environment.
  - simpl. destruct B as [|[key v] B]; [|by destruct (has_str key s)].
    intros [= <-]. right.
    split; [eauto|]. split; [done|]. by exists environment.
  - rewrite merge_body_items.
    destruct (merge_items_false_cases B A) as [E|[m E]]; rewrite E; [done|].
    intros [= <-]. left. eauto.
Qed.

Lemma config_is_mapping_or_default_collection_witness :
  _get_config_dict sample_package sequence_yaml
    (layered_fs "[alpha, beta]" "") "default"
  = Ok (VList [VStr "alpha"; VStr "beta"])
  ∧ ∃ environment,
      _get_env ["my_bot_name"] ∅ = Ok environment
      ∧ _get_config_dict sample_package sequence_yaml
          (layered_fs "[alpha, beta]" "") (env_format environment)
        = Ok (VDict []).
Proof.
  assert (H1 : module_config sample_package sequence_yaml
                 (layered_fs "[alpha, beta]" "") ["my_bot_name"] ∅
               = Ok (VList [VStr "alpha"; VStr "beta"]))
    by (vm_compute; reflexivity).
  destruct (config_is_mapping_or_default_collection sample_package
              sequence_yaml (layered_fs "[alpha, beta]" "") ["my_bot_name"] ∅
              (VList [VStr "alpha"; VStr "beta"]) H1)
    as [[d Hd]|(_ & Hdoc & Henv)]; [discriminate Hd|].
  split; [exact Hdoc | exact Henv].
Defined.

End ShapeFacts.

(** ** What the merged mapping shares with the override *)

Section SharingFacts.
Import Store.

Lemma sget_sset_eq k v d : sget k (sset k v d) = Some v.
Proof.
  induction d as [|[k' v'] d IH]; simpl.
  - by rewrite String.eqb_refl.
  - destruct (String.eqb k k') eqn:E; simpl.
    + by rewrite String.eqb_refl.
    + by rewrite E.
Qed.

Lemma sget_None_keys k (d : list (string * sval)) :
  k ∉ d.*1 → sget k d = None.
Proof.
  induction d as [|[k' v'] d IH]; [done|]. rewrite fmap_cons. simpl.
  intros Hk. apply not_elem_of_cons in Hk as [Hne Hk].
  apply String.eqb_neq in Hne. rewrite Hne. by apply IH.
Qed.

Lemma merge_loop_override its :
  ∀ (σ : store) result r,
    σ !! result = Some (ODict r) →
    NoDup its.*1 →
    (merge_loop result its σ).1 = Ok () →
    ∃ r', (merge_loop result its σ).2 !! result = Some (ODict r')
          ∧ ∀ k v, sget k its = Some v → sget k r' = Some v.
Proof.
  induction its as [|[key value] rest IH]; intros σ result r Hres Hnd Hok.
  - exists r. split; [done|]. done.
  - rewrite fmap_cons in Hnd. apply NoDup_cons in Hnd as [Hkey Hnd].
    simpl in Hok |- *. rewrite Hres in Hok |- *.
    destruct (match sget key r with Some v => is_dict σ v | None => false end
              && is_dict σ value); [done|].
    assert (Hres' : <[result := ODict (sset key value r)]> σ !! result
                    = Some (ODict (sset key value r)))
      by (by rewrite lookup_insert_eq).
    destruct (IH _ result _ Hres' Hnd Hok) as (r' & Hr' & Hov).
    destruct (merge_loop_frame rest _ result _ Hres')
      as [_ (r'' & Hr'' & Hkeep)].
    assert (r'' = r') as -> by congruence.
    exists r'. split; [done|]. intros k v.
    destruct (String.eqb k key) eqn:E.
    + apply String.eqb_eq in E as ->. intros [= <-].
      rewrite Hkeep by (by apply sget_None_keys). apply sget_sset_eq.
    + apply Hov.
Qed.

(** When [_deep_merge] returns, the new mapping binds every key of the
    override to the very value the override binds it to: a nested mapping
    or list of the override is not copied, the result refers to the same
    object. *)
Theorem deep_merge_shares_override_values (σ : store) l1 l2 d1 d2 res :
  σ !! l1 = Some (ODict d1) →
  σ !! l2 = Some (ODict d2) →
  NoDup d2.*1 →
  (Store._deep_merge (SRef l1) (SRef l2) σ).1 = Ok res →
  ∃ l items,
    res = SRef l
    ∧ (Store._deep_merge (SRef l1) (SRef l2) σ).2 !! l = Some (ODict items)
    ∧ (Store._deep_merge (SRef l1) (SRef l2) σ).2 !! l2 = Some (ODict d2)
    ∧ ∀ k v, sget k d2 = Some v → sget k items = Some v.
Proof.
  intros H1 H2 Hnd. unfold Store._deep_merge, copy, alloc. rewrite H1.
  set (l := fresh (dom σ)).
  assert (Hl : l ∉ dom σ) by apply is_fresh.
  assert (Hl2 : l2 ≠ l).
  { intros ->. apply Hl. apply elem_of_dom. eauto. }
  rewrite lookup_insert_ne, H2 by done.
  assert (Hres : <[l := ODict d1]> σ !! l = Some (ODict d1))
    by (by rewrite lookup_insert_eq).
  pose proof (merge_loop_override d2 _ l d1 Hres Hnd) as Hov.
  destruct (merge_loop_frame d2 _ l d1 Hres) as [Hframe _].
  destruct (merge_loop l d2 (<[l:=ODict d1]> σ)) as [[[]|e] σ2] eqn:Hrun;
    simpl in *; [|done].
  intros [= <-]. destruct (Hov eq_refl) as (r' & Hr' & Hk).
  exists l, r'. split; [done|]. split; [done|]. split; [|done].
  rewrite Hframe by done. by rewrite lookup_insert_ne.
Qed.

Lemma deep_merge_shares_override_values_witness :
  ∃ l items,
    SRef 3%nat = SRef l
    ∧ (Store._deep_merge (SRef 0%nat) (SRef 1%nat) override_store).2 !! l
      = Some (ODict items)
    ∧ (Store._deep_merge (SRef 0%nat) (SRef 1%nat) override_store).2 !! 1%nat
      = Some (ODict [("gcp_config", SRef 2%nat); ("debug", SBool true)])
    ∧ ∀ k v,
        sget k [("gcp_config", SRef 2%nat); ("debug", SBool true)] = Some v →
        sget k items = Some v.
Proof.
  assert (H1 : override_store !! 0%nat = Some (ODict [("debug", SBool false)]))
    by reflexivity.
  assert (H2 : override_store !! 1%nat
               = Some (ODict [("gcp_config", SRef 2%nat);
                              ("debug", SBool true)]))
    by reflexivity.
  assert (H3 : NoDup [("gcp_config", SRef 2%nat); ("debug", SBool true)].*1).
  { apply (bool_decide_unpack _). vm_compute. reflexivity. }
  assert (H4 : (Store._deep_merge (SRef 0%nat) (SRef 1%nat) override_store).1
               = Ok (SRef 3%nat))
    by (vm_compute; reflexivity).
  exact (deep_merge_shares_override_values override_store 0%nat 1%nat
           [("debug", SBool false)]
           [("gcp_config", SRef 2%nat); ("debug", SBool true)]
           (SRef 3%nat) H1 H2 H3 H4).
Defined.

End SharingFacts.
